(** * Feature engineering pipeline of [improve.py]

    A shallow embedding of [create_enhanced_stock_data] together with the
    pandas / numpy operations it calls, and the properties of the
    specification that can be settled on it.

    Numbers.  A float64 cell is modelled by [float]: the IEEE special values
    (NaN, the two infinities) are kept as they are, because they decide which
    rows [dropna] removes; finite values are exact rationals, so rounding and
    overflow are abstracted away, and so is the sign of zero (a zero divisor is
    treated as +0).  Every operation returns a reduced fraction, hence results
    on concrete tables can be compared syntactically.

    Tables.  A data frame is its row labels and its named columns, in order;
    [df[name]] and [df[name] = ...] are lookup and assignment by label, and
    the body of the function is the list of its assignment statements, run in
    order.  The properties about valid inputs take the numeric columns of the
    input as float columns: an integer column of the file stands for its
    values. *)

From Stdlib Require Import String Ascii DecimalString.
From Stdlib Require Import ZArith QArith Qreduction Qpower List Bool Lia Arith.
From Stdlib Require Import Permutation Sorted Morphisms Setoid Lqa.
Import ListNotations.

Set Implicit Arguments.
Close Scope Q_scope.

(* ================================================================== *)
(** ** Errors and the result monad *)

(** The exceptions the pipeline can raise: a column lookup on a missing
    label ([KeyError], carrying the label), a date that does not match the
    format ([ValueError]), arithmetic on a non-numeric column ([TypeError])
    and the [.dt] accessor on a column that holds no dates
    ([AttributeError]). *)
Inductive error : Type :=
| KeyError (key : string)
| ValueError
| TypeError
| AttributeError.

Inductive result (A : Type) : Type :=
| Ok (a : A)
| Err (e : error).
Arguments Ok {A} a.
Arguments Err {A} e.

Definition bind {A B} (m : result A) (k : A -> result B) : result B :=
  match m with
  | Ok a => k a
  | Err e => Err e
  end.

Notation "x <- m ;; k" := (bind m (fun x => k))
  (at level 61, m at next level, right associativity).

(* ================================================================== *)
(** ** Floating point cells *)

Inductive float : Type :=
| NaN
| Inf (neg : bool)
| Fin (q : Q).

Definition fin (q : Q) : float := Fin (Qred q).

Definition Qneg_b (q : Q) : bool := (Qnum q <? 0)%Z.
Definition Qzero_b (q : Q) : bool := (Qnum q =? 0)%Z.
Definition Qlt_b (a b : Q) : bool := negb (Qle_bool b a).

Definition of_Z (z : Z) : float := Fin (inject_Z z).
Definition of_nat (n : nat) : float := of_Z (Z.of_nat n).

Definition isna (x : float) : bool :=
  match x with NaN => true | _ => false end.
Definition notna (x : float) : bool := negb (isna x).

Definition fopp (x : float) : float :=
  match x with
  | NaN => NaN
  | Inf s => Inf (negb s)
  | Fin q => fin (- q)%Q
  end.

Definition fadd (x y : float) : float :=
  match x, y with
  | NaN, _ | _, NaN => NaN
  | Inf s, Inf t => if Bool.eqb s t then Inf s else NaN
  | Inf s, Fin _ => Inf s
  | Fin _, Inf t => Inf t
  | Fin a, Fin b => fin (a + b)%Q
  end.

Definition fsub (x y : float) : float := fadd x (fopp y).

Definition fmul (x y : float) : float :=
  match x, y with
  | NaN, _ | _, NaN => NaN
  | Inf s, Inf t => Inf (xorb s t)
  | Inf s, Fin b => if Qzero_b b then NaN else Inf (xorb s (Qneg_b b))
  | Fin a, Inf t => if Qzero_b a then NaN else Inf (xorb (Qneg_b a) t)
  | Fin a, Fin b => fin (a * b)%Q
  end.

(** IEEE division: [0/0] and [inf/inf] are NaN, a non-zero value over zero
    is an infinity, a finite value over an infinity is zero. *)
Definition fdiv (x y : float) : float :=
  match x, y with
  | NaN, _ | _, NaN => NaN
  | Inf _, Inf _ => NaN
  | Inf s, Fin b => Inf (xorb s (Qneg_b b))
  | Fin _, Inf _ => Fin 0%Q
  | Fin a, Fin b =>
      if Qzero_b b then (if Qzero_b a then NaN else Inf (Qneg_b a))
      else fin (a / b)%Q
  end.

(** Comparisons; any comparison with NaN is false, [!=] with NaN is true. *)
Definition fgt (x y : float) : bool :=
  match x, y with
  | NaN, _ | _, NaN => false
  | Inf s, Inf t => negb s && t
  | Inf s, Fin _ => negb s
  | Fin _, Inf t => t
  | Fin a, Fin b => Qlt_b b a
  end.

Definition flt (x y : float) : bool := fgt y x.

Definition feqb (x y : float) : bool :=
  match x, y with
  | NaN, _ | _, NaN => false
  | Inf s, Inf t => Bool.eqb s t
  | Fin a, Fin b => Qeq_bool a b
  | _, _ => false
  end.

Definition fmax (x y : float) : float := if fgt y x then y else x.
Definition fmin (x y : float) : float := if flt y x then y else x.

(** Square root of a non-negative rational, rounded down to a multiple of
    [1 / (den * 2^26)]; like the float64 square root it is zero exactly on
    zero. *)
Definition Qsqrt (q : Q) : Q :=
  let k := (2 ^ 26)%Z in
  Qmake (Z.sqrt (Qnum q * Zpos (Qden q) * k * k))
        (Qden q * 67108864)%positive.

Definition fsqrt (x : float) : float :=
  match x with
  | NaN => NaN
  | Inf s => if s then NaN else Inf false
  | Fin q => if Qneg_b q then NaN else fin (Qsqrt q)
  end.

(** Equality of cells up to the representation of a fraction. *)
Definition feq (x y : float) : Prop :=
  match x, y with
  | NaN, NaN => True
  | Inf s, Inf t => s = t
  | Fin a, Fin b => (a == b)%Q
  | _, _ => False
  end.

Infix "=f=" := feq (at level 70, no associativity).


(* ================================================================== *)
(** ** Series operations on lists of cells *)

Fixpoint map2 {A B C} (f : A -> B -> C) (l1 : list A) (l2 : list B) : list C :=
  match l1, l2 with
  | a :: t1, b :: t2 => f a b :: map2 f t1 t2
  | _, _ => []
  end.

(** [Series.shift(periods)]: values move down by [periods] rows (up when
    negative), the vacated rows hold NaN. *)
Definition shift (periods : Z) (l : list float) : list float :=
  let n := length l in
  if (0 <=? periods)%Z then
    let k := Nat.min (Z.to_nat periods) n in
    repeat NaN k ++ firstn (n - k) l
  else
    let k := Nat.min (Z.to_nat (- periods)) n in
    skipn k l ++ repeat NaN k.

(** [Series.diff()]: the value minus the shifted value. *)
Definition diff (l : list float) : list float :=
  map2 fsub l (shift 1 l).

(** Forward fill, the [fill_method='pad'] that [pct_change] applies first. *)
Fixpoint ffill_from (last : float) (l : list float) : list float :=
  match l with
  | [] => []
  | x :: t => let y := if isna x then last else x in y :: ffill_from y t
  end.

Definition ffill (l : list float) : list float := ffill_from NaN l.

(** [Series.pct_change()]: [data / data.shift(1) - 1] on the padded data. *)
Definition pct_change (l : list float) : list float :=
  let data := ffill l in
  map2 (fun a b => fsub (fdiv a b) (of_Z 1)) data (shift 1 data).

(** [Series.where(cond, other)]: keep the value where [cond] holds. *)
Definition where_ (cond : list bool) (l : list float) (other : float) : list float :=
  map2 (fun (c : bool) x => if c then x else other) cond l.

(** The trailing window of size [w] that ends at row [i]. *)
Definition window {A} (w i : nat) (l : list A) : list A :=
  firstn w (skipn (i + 1 - w) l).

(** [Series.rolling(window=w).agg()]: [min_periods] defaults to the window
    size, so rows [i < w - 1] hold NaN and a window with a NaN in it
    yields NaN; this second part is in each aggregate below. *)
Definition rolling (agg : list float -> float) (w : nat) (l : list float)
  : list float :=
  map (fun i => if i + 1 <? w then NaN else agg (window w i l))
      (seq 0 (length l)).

Definition fsum (l : list float) : float := fold_left fadd l (Fin 0%Q).

Definition mean_agg (win : list float) : float :=
  if existsb isna win then NaN
  else fdiv (fsum win) (of_nat (length win)).

(** Sample variance ([ddof = 1]) and standard deviation of a window. *)
Definition var_agg (win : list float) : float :=
  if existsb isna win then NaN
  else if length win <=? 1 then NaN
  else
    let m := fdiv (fsum win) (of_nat (length win)) in
    let ssq := fsum (map (fun x => fmul (fsub x m) (fsub x m)) win) in
    fdiv ssq (of_nat (length win - 1)).

Definition std_agg (win : list float) : float := fsqrt (var_agg win).

Definition max_agg (win : list float) : float :=
  match win with
  | [] => NaN
  | x :: t => if existsb isna win then NaN else fold_left fmax t x
  end.

Definition min_agg (win : list float) : float :=
  match win with
  | [] => NaN
  | x :: t => if existsb isna win then NaN else fold_left fmin t x
  end.

(** [Series.ewm(span=s).mean()] with the defaults [adjust=True],
    [ignore_na=False], [min_periods=0]; the loop of pandas' [ewm] kernel:
    [old_wt] is the accumulated weight of the past, every new observation
    has weight [new_wt = 1], and the running value is the weighted mean of
    the two. *)
Fixpoint ewm_loop (old_wt_factor : Q) (weighted : float) (old_wt : Q)
  (l : list float) : list float :=
  match l with
  | [] => []
  | cur :: rest =>
      if isna weighted then
        let weighted' := if isna cur then weighted else cur in
        weighted' :: ewm_loop old_wt_factor weighted' old_wt rest
      else
        let old_wt1 := Qred (old_wt * old_wt_factor)%Q in
        if isna cur then
          weighted :: ewm_loop old_wt_factor weighted old_wt1 rest
        else
          let weighted' :=
            if feqb weighted cur then weighted
            else fdiv (fadd (fmul (Fin old_wt1) weighted) (fmul (Fin 1%Q) cur))
                      (fadd (Fin old_wt1) (Fin 1%Q)) in
          weighted' :: ewm_loop old_wt_factor weighted' (Qred (old_wt1 + 1)%Q) rest
  end.

Definition ewm_alpha (span : nat) : Q :=
  let com := ((inject_Z (Z.of_nat span) - 1) / 2)%Q in
  (1 / (1 + com))%Q.

Definition ewm_mean (span : nat) (l : list float) : list float :=
  match l with
  | [] => []
  | x0 :: rest => x0 :: ewm_loop (1 - ewm_alpha span)%Q x0 1%Q rest
  end.

(* ================================================================== *)
(** ** Calendar dates and the format [%d-%b-%y] *)

Record date : Type := mkdate { year : Z; month : Z; day : Z }.

Definition digit_of (c : ascii) : option Z :=
  let n := nat_of_ascii c in
  if (48 <=? n) && (n <=? 57) then Some (Z.of_nat (n - 48)) else None.

Definition lower (c : ascii) : ascii :=
  let n := nat_of_ascii c in
  if (65 <=? n) && (n <=? 90) then ascii_of_nat (n + 32) else c.

(** [%b]: the abbreviated month name of the C locale, in any case. *)
Definition month_of_abbr (a b c : ascii) : option Z :=
  let s := String (lower a) (String (lower b) (String (lower c) EmptyString)) in
  let names := ["jan"; "feb"; "mar"; "apr"; "may"; "jun";
                "jul"; "aug"; "sep"; "oct"; "nov"; "dec"]%string in
  (fix find (l : list string) (k : Z) : option Z :=
     match l with
     | [] => None
     | x :: t => if String.eqb s x then Some k else find t (k + 1)%Z
     end) names 1%Z.

Definition is_leap (y : Z) : bool :=
  ((y mod 4 =? 0) && negb (y mod 100 =? 0) || (y mod 400 =? 0))%Z.

Definition days_in_month (y m : Z) : Z :=
  if (m =? 2)%Z then (if is_leap y then 29 else 28)%Z
  else if ((m =? 4) || (m =? 6) || (m =? 9) || (m =? 11))%Z then 30%Z
  else 31%Z.

(** [%d]: two digits forming 01..31, or one digit 1..9, possibly after a
    blank. *)
Definition parse_day (s : string) : option (Z * string) :=
  match s with
  | String a (String b rest) =>
      match digit_of a, digit_of b with
      | Some x, Some y =>
          let d := (10 * x + y)%Z in
          if ((1 <=? d) && (d <=? 31))%Z then Some (d, rest) else None
      | Some x, None =>
          if (1 <=? x)%Z then Some (x, String b rest) else None
      | None, Some y =>
          if Ascii.eqb a " " && (1 <=? y)%Z then Some (y, rest) else None
      | None, None => None
      end
  | _ => None
  end.

(** [%y]: two digits; 00..68 are 2000..2068 and 69..99 are 1969..1999. *)
Definition parse_year (s : string) : option Z :=
  match s with
  | String a (String b EmptyString) =>
      match digit_of a, digit_of b with
      | Some x, Some y =>
          let yy := (10 * x + y)%Z in
          Some (if (yy <=? 68)%Z then 2000 + yy else 1900 + yy)%Z
      | _, _ => None
      end
  | _ => None
  end.

Definition strptime (s : string) : option date :=
  match parse_day s with
  | Some (d, String "-" (String a (String b (String c (String "-" rest))))) =>
      match month_of_abbr a b c, parse_year rest with
      | Some m, Some y =>
          if (d <=? days_in_month y m)%Z then Some (mkdate y m d) else None
      | _, _ => None
      end
  | _ => None
  end.

(** Days since 1970-01-01 in the proleptic Gregorian calendar. *)
Definition days_from_civil (dt : date) : Z :=
  let y := (if month dt <=? 2 then year dt - 1 else year dt)%Z in
  let era := (y / 400)%Z in
  let yoe := (y - era * 400)%Z in
  let mp := (if month dt <=? 2 then month dt + 9 else month dt - 3)%Z in
  let doy := ((153 * mp + 2) / 5 + day dt - 1)%Z in
  let doe := (yoe * 365 + yoe / 4 - yoe / 100 + doy)%Z in
  (era * 146097 + doe - 719468)%Z.

(** The [.dt] accessors; Monday is day 0. *)
Definition dayofweek (dt : date) : Z := ((days_from_civil dt + 3) mod 7)%Z.
Definition quarter (dt : date) : Z := ((month dt - 1) / 3 + 1)%Z.

Definition date_leb (a b : date) : bool :=
  ((year a <? year b)
   || ((year a =? year b)
       && ((month a <? month b)
           || ((month a =? month b) && (day a <=? day b)))))%Z.

(** Sort key of a datetime cell: [None] is NaT, which sorts last. *)
Definition key_leb (a b : option date) : bool :=
  match a, b with
  | Some x, Some y => date_leb x y
  | _, None => true
  | None, Some _ => false
  end.

(* ================================================================== *)
(** ** Columns and data frames *)

(** A column by dtype: float64, int64, object (text cells, [None] for a
    missing cell) and datetime64 ([None] for NaT).  Integer columns read from
    the file take part in arithmetic through their values. *)
Inductive column : Type :=
| ColFloat (l : list float)
| ColInt (l : list Z)
| ColStr (l : list (option string))
| ColDate (l : list (option date)).

(** A frame: the row labels and the columns in their order. *)
Record DataFrame : Type := mkdf {
  index : list nat;
  columns : list (string * column)
}.

Definition col_length (c : column) : nat :=
  match c with
  | ColFloat l => length l
  | ColInt l => length l
  | ColStr l => length l
  | ColDate l => length l
  end.

Definition nrows (d : DataFrame) : nat := length (index d).

(** Every column has one cell per row label. *)
Definition wf (d : DataFrame) : Prop :=
  Forall (fun nc => col_length (snd nc) = nrows d) (columns d).

(** [df[name]]: the first column with that label, or [KeyError]. *)
Fixpoint lookup (name : string) (cols : list (string * column)) : option column :=
  match cols with
  | [] => None
  | (n, c) :: t => if String.eqb name n then Some c else lookup name t
  end.

Definition df_get (name : string) (d : DataFrame) : result column :=
  match lookup name (columns d) with
  | Some c => Ok c
  | None => Err (KeyError name)
  end.

(** [df[name] = c]: replace the column in place, or append a new one. *)
Fixpoint assign_col (name : string) (c : column) (cols : list (string * column))
  : list (string * column) :=
  match cols with
  | [] => [(name, c)]
  | (n, c') :: t =>
      if String.eqb name n then (n, c) :: t else (n, c') :: assign_col name c t
  end.

Definition df_set (name : string) (c : column) (d : DataFrame) : DataFrame :=
  mkdf (index d) (assign_col name c (columns d)).

(** Positional selection of rows. *)
Definition take {A} (idx : list nat) (l : list A) : list A :=
  flat_map (fun i => match nth_error l i with Some x => [x] | None => [] end) idx.

Definition col_take (idx : list nat) (c : column) : column :=
  match c with
  | ColFloat l => ColFloat (take idx l)
  | ColInt l => ColInt (take idx l)
  | ColStr l => ColStr (take idx l)
  | ColDate l => ColDate (take idx l)
  end.

Definition df_take (idx : list nat) (d : DataFrame) : DataFrame :=
  mkdf (take idx (index d))
       (map (fun nc => (fst nc, col_take idx (snd nc))) (columns d)).

(** Is the cell at row [i] present (not NaN, NaT or a missing text)? *)
Definition present {A} (l : list (option A)) (i : nat) : bool :=
  match nth_error l i with Some None => false | _ => true end.

Definition col_notna (c : column) (i : nat) : bool :=
  match c with
  | ColFloat l => match nth_error l i with Some x => notna x | None => true end
  | ColInt _ => true
  | ColStr l => present l i
  | ColDate l => present l i
  end.

(* ================================================================== *)
(** ** Sorting rows, dropping rows *)

Section Sorting.
Variables (K P : Type) (leb : K -> K -> bool).

Fixpoint insert_by (x : K * P) (l : list (K * P)) : list (K * P) :=
  match l with
  | [] => [x]
  | y :: t => if leb (fst x) (fst y) then x :: l else y :: insert_by x t
  end.

Definition isort (l : list (K * P)) : list (K * P) :=
  fold_right insert_by [] l.
End Sorting.

(** The order of two rows (key, payload) is the order of their keys. *)
Definition key_le {K P} (leb : K -> K -> bool) (x y : K * P) : Prop :=
  leb (fst x) (fst y) = true.

(** The positions of the keys in ascending key order.  Rows with equal keys
    keep their input order here; numpy's default sort leaves that order
    unspecified, and nothing below depends on it. *)
Definition argsort {K} (leb : K -> K -> bool) (keys : list K) : list nat :=
  map snd (isort leb (combine keys (seq 0 (length keys)))).

(** [df.sort_values(by)], for the datetime column it is called on. *)
Definition sort_values (by_ : string) (d : DataFrame) : result DataFrame :=
  c <- df_get by_ d ;;
  match c with
  | ColDate keys => Ok (df_take (argsort key_leb keys) d)
  | _ => Err TypeError
  end.

(** [df.reset_index(drop=True)]: the labels become 0..n-1. *)
Definition reset_index (d : DataFrame) : DataFrame :=
  mkdf (seq 0 (nrows d)) (columns d).

Definition row_notna (d : DataFrame) (i : nat) : bool :=
  forallb (fun nc => col_notna (snd nc) i) (columns d).

(** [df.dropna()]: keep the rows without a missing cell in any column; the
    labels of the kept rows are kept. *)
Definition dropna (d : DataFrame) : DataFrame :=
  df_take (filter (row_notna d) (seq 0 (nrows d))) d.

(* ================================================================== *)
(** ** Column expressions *)

Fixpoint mapM {A B} (f : A -> result B) (l : list A) : result (list B) :=
  match l with
  | [] => Ok []
  | x :: t => y <- f x ;; ys <- mapM f t ;; Ok (y :: ys)
  end.

(** [pd.to_datetime(series, format='%d-%b-%y')]: a missing cell becomes NaT,
    a text that does not match the format raises. *)
Definition parse_cell (cell : option string) : result (option date) :=
  match cell with
  | None => Ok None
  | Some s => match strptime s with
              | Some dt => Ok (Some dt)
              | None => Err ValueError
              end
  end.

Definition to_datetime (c : column) : result column :=
  match c with
  | ColStr l => ds <- mapM parse_cell l ;; Ok (ColDate ds)
  | ColDate l => Ok (ColDate l)
  | ColFloat l =>
      if forallb isna l then Ok (ColDate (map (fun _ => None) l))
      else Err ValueError
  | ColInt l =>
      match l with [] => Ok (ColDate []) | _ => Err ValueError end
  end.

(** The values of a numeric column; arithmetic on text or dates raises. *)
Definition numeric (c : column) : result (list float) :=
  match c with
  | ColFloat l => Ok l
  | ColInt l => Ok (map of_Z l)
  | _ => Err TypeError
  end.

Definition col_binop (f : float -> float -> float) (x y : column)
  : result column :=
  a <- numeric x ;; b <- numeric y ;; Ok (ColFloat (map2 f a b)).

Definition col_lift (g : list float -> list float) (x : column)
  : result column :=
  a <- numeric x ;; Ok (ColFloat (g a)).

(** [np.where(x > y, 1, 0)]: an integer column; a comparison with NaN is
    false and gives 0. *)
Definition flag (u v : float) : Z := if fgt u v then 1%Z else 0%Z.

Definition np_where_gt (x y : column) : result column :=
  a <- numeric x ;; b <- numeric y ;; Ok (ColInt (map2 flag a b)).

(** [series.dt.field]: integers, or floats with NaN when a NaT is present. *)
Definition dt_field (f : date -> Z) (c : column) : result column :=
  match c with
  | ColDate l =>
      Ok (if forallb (fun o => match o with Some _ => true | None => false end) l
          then ColInt (map (fun o => match o with Some dt => f dt | None => 0%Z end) l)
          else ColFloat (map (fun o => match o with
                                       | Some dt => of_Z (f dt)
                                       | None => NaN
                                       end) l))
  | _ => Err AttributeError
  end.

(** An expression reads the frame as it is when the statement runs.
    Operands are evaluated left to right, as Python does. *)
Definition expr : Type := DataFrame -> result column.

Definition col (name : string) : expr := fun d => df_get name d.

Definition ebin (op : column -> column -> result column) (e1 e2 : expr) : expr :=
  fun d => x <- e1 d ;; y <- e2 d ;; op x y.

Definition eun (op : column -> result column) (e : expr) : expr :=
  fun d => x <- e d ;; op x.

Declare Scope expr_scope.
Delimit Scope expr_scope with expr.
Bind Scope expr_scope with expr.

Definition esub : expr -> expr -> expr := ebin (col_binop fsub).
Definition eadd : expr -> expr -> expr := ebin (col_binop fadd).
Definition emul : expr -> expr -> expr := ebin (col_binop fmul).
Definition ediv : expr -> expr -> expr := ebin (col_binop fdiv).
(** Arithmetic with a scalar on the right. *)
Definition emul_s (e : expr) (k : Z) : expr :=
  eun (col_lift (map (fun x => fmul x (of_Z k)))) e.
Definition esub_s (e : expr) (k : Z) : expr :=
  eun (col_lift (map (fun x => fsub x (of_Z k)))) e.
Definition emap (g : list float -> list float) : expr -> expr :=
  eun (col_lift g).

Infix "-" := esub : expr_scope.
Infix "+" := eadd : expr_scope.
Infix "*" := emul : expr_scope.
Infix "/" := ediv : expr_scope.
Notation "e *| k" := (emul_s e k) (at level 40, left associativity) : expr_scope.
Notation "e -| k" := (esub_s e k) (at level 50, left associativity) : expr_scope.

(* ================================================================== *)
(** ** The pipeline of [create_enhanced_stock_data] *)

(** A statement [df[name] = e]. *)
Definition stmt : Type := string * expr.

Definition exec (s : stmt) (d : DataFrame) : result DataFrame :=
  c <- snd s d ;; Ok (df_set (fst s) c d).

Fixpoint run (p : list stmt) (d : DataFrame) : result DataFrame :=
  match p with
  | [] => Ok d
  | s :: rest => d' <- exec s d ;; run rest d'
  end.

(** The f-string [f'{prefix}{n}']. *)
Definition fname (prefix : string) (n : nat) : string :=
  (prefix ++ NilEmpty.string_of_uint (Nat.to_uint n))%string.

(** The local function [calculate_rsi(series, window=14)]; its local
    series [gain] and [loss] are named [rsi_gain] and [rsi_loss]. *)
Definition rsi_gain (window : nat) (series : list float) : list float :=
  let delta := diff series in
  rolling mean_agg window
    (where_ (map (fun x => fgt x (of_Z 0)) delta) delta (of_Z 0)).

Definition rsi_loss (window : nat) (series : list float) : list float :=
  let delta := diff series in
  rolling mean_agg window
    (map fopp (where_ (map (fun x => flt x (of_Z 0)) delta) delta (of_Z 0))).

Definition rsi_of (rs : float) : float :=
  fsub (of_Z 100) (fdiv (of_Z 100) (fadd (of_Z 1) rs)).

Definition calculate_rsi (window : nat) (series : list float) : list float :=
  let gain := rsi_gain window series in
  let loss := rsi_loss window series in
  let rs := map2 fdiv gain loss in
  let rsi := map rsi_of rs in
  rsi.

Definition windows : list nat := [5; 10; 20; 50].
Definition ema_windows : list nat := [12; 26].
Definition bb_window : nat := 20.
Definition lag_periods : list nat := [1; 2; 3; 5].
Definition roc_periods : list nat := [5; 10; 20].

(** The local series [bb_std]; it is read where it is used, and no statement
    in between assigns [close]. *)
Definition bb_std : expr := emap (rolling std_agg bb_window) (col "close").

Definition lag (k : nat) : expr -> expr := emap (shift (Z.of_nat k)).

Local Open Scope expr_scope.

Definition price_features : list stmt :=
  [ ("price_range"%string, col "high" - col "low");
    ("price_change"%string, col "close" - col "open");
    ("price_change_pct"%string, (col "close" - col "open") / col "open" *| 100);
    ("close_to_open_ratio"%string, col "close" / col "open");
    ("high_to_low_ratio"%string, col "high" / col "low");
    ("close_to_high_ratio"%string, col "close" / col "high");
    ("close_to_low_ratio"%string, col "close" / col "low") ].

Definition moving_averages : list stmt :=
  flat_map (fun w =>
    [ (fname "sma_" w, emap (rolling mean_agg w) (col "close"));
      (fname "volume_sma_" w, emap (rolling mean_agg w) (col "volume"));
      (fname "close_vs_sma_" w, col "close" / col (fname "sma_" w));
      (fname "volume_vs_sma_" w, col "volume" / col (fname "volume_sma_" w)) ])
    windows
  ++ flat_map (fun w =>
       [ (fname "ema_" w, emap (ewm_mean w) (col "close")) ])
     ema_windows.

Definition indicators : list stmt :=
  [ ("macd"%string, col "ema_12" - col "ema_26");
    ("macd_signal"%string, emap (ewm_mean 9) (col "macd"));
    ("macd_histogram"%string, col "macd" - col "macd_signal");
    ("rsi"%string, emap (calculate_rsi 14) (col "close"));
    ("bb_middle"%string, emap (rolling mean_agg bb_window) (col "close"));
    ("bb_upper"%string, col "bb_middle" + bb_std *| 2);
    ("bb_lower"%string, col "bb_middle" - bb_std *| 2);
    ("bb_width"%string, col "bb_upper" - col "bb_lower");
    ("bb_position"%string,
       (col "close" - col "bb_lower") / (col "bb_upper" - col "bb_lower"));
    ("volatility_5"%string, emap (rolling std_agg 5) (col "close"));
    ("volatility_20"%string, emap (rolling std_agg 20) (col "close"));
    ("price_range_pct"%string, (col "high" - col "low") / col "close" *| 100);
    ("volume_change"%string, emap pct_change (col "volume"));
    ("volume_price_trend"%string, col "volume" * col "price_change_pct") ].

Definition lag_features : list stmt :=
  flat_map (fun k =>
    [ (fname "close_lag_" k, lag k (col "close"));
      (fname "volume_lag_" k, lag k (col "volume"));
      (fname "price_change_lag_" k, lag k (col "price_change_pct")) ])
    lag_periods
  ++ flat_map (fun p =>
       [ (fname "roc_" p,
          (col "close" - lag p (col "close")) / lag p (col "close") *| 100) ])
     roc_periods.

Definition level_features : list stmt :=
  [ ("recent_high"%string, emap (rolling max_agg 20) (col "high"));
    ("recent_low"%string, emap (rolling min_agg 20) (col "low"));
    ("distance_to_high"%string,
       (col "recent_high" - col "close") / col "close" *| 100);
    ("distance_to_low"%string,
       (col "close" - col "recent_low") / col "close" *| 100) ].

Definition time_features : list stmt :=
  [ ("day_of_week"%string, eun (dt_field dayofweek) (col "Date"));
    ("month"%string, eun (dt_field month) (col "Date"));
    ("quarter"%string, eun (dt_field quarter) (col "Date"));
    ("year"%string, eun (dt_field year) (col "Date")) ].

Definition trend_features : list stmt :=
  [ ("trend_5"%string, ebin np_where_gt (col "close") (col "sma_5"));
    ("trend_20"%string, ebin np_where_gt (col "close") (col "sma_20"));
    ("golden_cross"%string, ebin np_where_gt (col "sma_5") (col "sma_20")) ].

Definition next_day_return_stmt : stmt :=
  ("next_day_return"%string, emap (shift (-1)) (col "close") / col "close" -| 1).

Definition buy_signal_stmt : stmt :=
  ("buy_signal_strength"%string, col "BuySignal" * col "price_change_pct").

Definition target_features : list stmt :=
  [ next_day_return_stmt; buy_signal_stmt ].

Local Close Scope expr_scope.

(** Lines 19 to 109, in order. *)
Definition feature_program : list stmt :=
  price_features ++ moving_averages ++ indicators ++ lag_features
  ++ level_features ++ time_features ++ trend_features ++ target_features.

(** Lines 19 to 108: the statements before [buy_signal_strength]. *)
Definition program_before_buy_signal : list stmt :=
  price_features ++ moving_averages ++ indicators ++ lag_features
  ++ level_features ++ time_features ++ trend_features
  ++ [ next_day_return_stmt ].

(** Lines 13 and 16: parse the dates, sort by date, renumber the rows. *)
Definition normalize (d : DataFrame) : result DataFrame :=
  d1 <- exec ("Date"%string, eun to_datetime (col "Date")) d ;;
  d2 <- sort_values "Date" d1 ;;
  Ok (reset_index d2).

(** The table before pruning (the state at line 111). *)
Definition engineer (d : DataFrame) : result DataFrame :=
  d0 <- normalize d ;; run feature_program d0.

(** [create_enhanced_stock_data]: the frame read from the input file to the
    frame written to the output file and returned. *)
Definition create_enhanced_stock_data (d : DataFrame) : result DataFrame :=
  d1 <- engineer d ;; Ok (dropna d1).

(* ================================================================== *)
(** ** What a statement reads *)

(** Frames that agree on a set of labels. *)
Definition agree (N : list string) (d d' : DataFrame) : Prop :=
  forall n, In n N -> df_get n d = df_get n d'.

(** An expression that reads the frame through the labels [N] only. *)
Definition respects (N : list string) (e : expr) : Prop :=
  forall d d', agree N d d' -> e d = e d'.

(** Each statement reads only base labels or labels assigned before it. *)
Fixpoint wellread (N : list string) (p : list stmt) : Prop :=
  match p with
  | [] => True
  | s :: rest => respects N (snd s) /\ wellread (fst s :: N) rest
  end.

(* ================================================================== *)
(** ** Input tables *)

Definition finb (x : float) : bool :=
  match x with Fin _ => true | _ => false end.
Definition posb (x : float) : bool :=
  match x with Fin q => Qlt_b 0 q | _ => false end.
Definition nonnegb (x : float) : bool :=
  match x with Fin q => Qle_bool 0 q | _ => false end.

Definition wfb (d : DataFrame) : bool :=
  forallb (fun nc => col_length (snd nc) =? nrows d) (columns d).

(** The column [name] holds floats that all satisfy [P]. *)
Definition has_float (P : float -> bool) (name : string) (d : DataFrame) : bool :=
  match df_get name d with
  | Ok (ColFloat l) => forallb P l
  | _ => false
  end.

Definition parses (cell : option string) : bool :=
  match cell with
  | Some s => match strptime s with Some _ => true | None => false end
  | None => false
  end.

Definition has_dates (d : DataFrame) : bool :=
  match df_get "Date" d with
  | Ok (ColStr l) => forallb parses l
  | _ => false
  end.

Definition numeric_labels : list string :=
  ["open"; "high"; "low"; "close"; "volume"; "BuySignal"]%string.

Definition base_labels : list string := "Date"%string :: numeric_labels.

(** The table has the columns the pipeline reads, with the right dtypes, and
    every date matches the format. *)
Definition well_typed (d : DataFrame) : bool :=
  wfb d && has_dates d
  && forallb (fun n => has_float (fun _ => true) n d) numeric_labels.

(** A table of Trading Day Records: positive prices, a non-negative volume,
    a finite label. *)
Definition valid_input (d : DataFrame) : bool :=
  well_typed d
  && forallb (fun n => has_float posb n d) ["open"; "high"; "low"; "close"]%string
  && has_float nonnegb "volume" d
  && has_float finb "BuySignal" d.

(** A column of the normalized table: the series in chronological order. *)
Definition chronological (name : string) (d : DataFrame) : list float :=
  match normalize d with
  | Ok d0 => match df_get name d0 with Ok (ColFloat l) => l | _ => [] end
  | Err _ => []
  end.

Definition chronological_dates (d : DataFrame) : list (option date) :=
  match normalize d with
  | Ok d0 => match df_get "Date" d0 with Ok (ColDate l) => l | _ => [] end
  | Err _ => []
  end.

(** The normalized table reduced to the columns the pipeline reads. *)
Definition base_frame (dts : list (option date)) (o h l c v bs : list float)
  : DataFrame :=
  mkdf (seq 0 (length c))
    [("Date"%string, ColDate dts); ("open"%string, ColFloat o);
     ("high"%string, ColFloat h); ("low"%string, ColFloat l);
     ("close"%string, ColFloat c); ("volume"%string, ColFloat v);
     ("BuySignal"%string, ColFloat bs)].

(** The feature columns as functions of the base series: the statements of
    [feature_program] run on [base_frame]. *)
Definition features_closed (dts : list (option date)) (o h l c v bs : list float)
  : result DataFrame :=
  Eval cbv -[map2 map rolling mean_agg std_agg max_agg min_agg ewm_mean
             calculate_rsi shift pct_change fsub fadd fmul fdiv of_Z fgt
             forallb seq length dayofweek quarter month year] in
  run feature_program (base_frame dts o h l c v bs).

Definition closed_frame (d : DataFrame) : result DataFrame :=
  features_closed (chronological_dates d)
    (chronological "open" d) (chronological "high" d)
    (chronological "low" d) (chronological "close" d)
    (chronological "volume" d) (chronological "BuySignal" d).

(** A feature column of the closed form. *)
Definition closed_col (name : string) (d : DataFrame) : result column :=
  E <- closed_frame d ;; df_get name E.

(** The dates of the input rows, in input order. *)
Definition parsed_dates (d : DataFrame) : list (option date) :=
  match df_get "Date" d with
  | Ok c => match to_datetime c with Ok (ColDate ds) => ds | _ => [] end
  | Err _ => []
  end.

(** The same records read in another order: row [i] of the new table is
    row [sigma_i] of the old one. *)
Definition reorder (sigma : list nat) (d : DataFrame) : DataFrame :=
  reset_index (df_take sigma d).

(** Pairwise distinct keys, decided with the order on keys. *)
Fixpoint distinct_keys (l : list (option date)) : bool :=
  match l with
  | [] => true
  | x :: t =>
      negb (existsb (fun y => key_leb x y && key_leb y x) t) && distinct_keys t
  end.

(** No cell of the input table is missing. *)
Definition complete (d : DataFrame) : bool :=
  forallb (row_notna d) (seq 0 (nrows d)).

(** The close changed at one of the rows [i-13 .. i]. *)
Definition moves_b (c : list float) (i : nat) : bool :=
  existsb (fun j => (1 <=? j) && negb (feqb (nth j c NaN) (nth (j - 1) c NaN)))
          (seq (i - 13) 14).

(** The close changes within the 14 rows before every row that can survive
    pruning, so that no ratio is 0/0 there. *)
Definition close_moves (d : DataFrame) : bool :=
  forallb (moves_b (chronological "close" d)) (seq 49 (nrows d - 49)).

(** A valid table without missing cells, with a positive volume and a
    moving close: no zero denominator creates an extra undefined value. *)
Definition dense_input (d : DataFrame) : bool :=
  valid_input d && has_float posb "volume" d && complete d && close_moves d.

(** The columns that the specification calls required: all but the
    lookahead-only next_day_return. *)
Definition required (nc : string * column) : bool :=
  negb (String.eqb (fst nc) "next_day_return").

Definition row_required_notna (d : DataFrame) (i : nat) : bool :=
  forallb (fun nc => col_notna (snd nc) i) (filter required (columns d)).

(* ================================================================== *)
(** ** Defined rows of a series *)

(** A series of [n] rows that is finite (resp. positive) from row [k] on. *)
Definition fin_from (n k : nat) (l : list float) : Prop :=
  length l = n /\ forall j, k <= j -> j < n -> exists q, nth j l NaN = Fin q.

Definition pos_from (n k : nat) (l : list float) : Prop :=
  length l = n /\
  forall j, k <= j -> j < n -> exists q, nth j l NaN = Fin q /\ (0 < q)%Q.

(** The gain and loss series that [calculate_rsi] averages. *)
Definition gains_of (series : list float) : list float :=
  where_ (map (fun x => fgt x (of_Z 0)) (diff series)) (diff series) (of_Z 0).

Definition losses_of (series : list float) : list float :=
  map fopp
    (where_ (map (fun x => flt x (of_Z 0)) (diff series)) (diff series) (of_Z 0)).

(** The close of row [j] differs from the close of the row before. *)
Definition price_changed (qs : list Q) (j : nat) : Prop :=
  1 <= j /\ ~ (nth j qs 0 == nth (j - 1) qs 0)%Q.

(* ================================================================== *)
(** ** Reference formulas of the specification *)

Definition Qsum (qs : list Q) : Q := fold_right Qplus 0%Q qs.

(** The arithmetic mean of a window. *)
Definition arith_mean (qs : list Q) : Q :=
  (Qsum qs / inject_Z (Z.of_nat (length qs)))%Q.

(** The smoothing factor of a span. *)
Definition span_alpha (span : nat) : Q := (2 / (inject_Z (Z.of_nat span) + 1))%Q.

(** The recursive exponential mean in the words of the specification:
    [EMA_0 = x_0] and [EMA_i = alpha * x_i + (1 - alpha) * EMA_(i-1)]. *)
Fixpoint ema_recursive_from (alpha prev : Q) (xs : list Q) : list Q :=
  match xs with
  | [] => []
  | x :: t =>
      let y := (alpha * x + (1 - alpha) * prev)%Q in
      y :: ema_recursive_from alpha y t
  end.

Definition ema_recursive (alpha : Q) (xs : list Q) : list Q :=
  match xs with
  | [] => []
  | x0 :: t => x0 :: ema_recursive_from alpha x0 t
  end.

(** The adjusted exponential mean: the average of the rows up to [i] with
    weights [(1 - alpha)^k] for the row [k] steps back. *)
Definition weighted_sum (f : Q) (xs : list Q) (i : nat) : Q :=
  Qsum (map (fun k => f ^ Z.of_nat k * nth (i - k) xs 0)%Q (seq 0 (i + 1))).

Definition weight_total (f : Q) (i : nat) : Q :=
  Qsum (map (fun k => f ^ Z.of_nat k)%Q (seq 0 (i + 1))).

Definition ema_adjusted (alpha : Q) (xs : list Q) (i : nat) : Q :=
  (weighted_sum (1 - alpha) xs i / weight_total (1 - alpha) i)%Q.

(** The states of the weighted-mean loop: numerator and total weight. *)
Fixpoint horner (f N W : Q) (xs : list Q) : list Q :=
  match xs with
  | [] => []
  | x :: t =>
      let N' := (f * N + x)%Q in
      let W' := (f * W + 1)%Q in
      (N' / W')%Q :: horner f N' W' t
  end.

(** The 20-row close series of the SMA scenario. *)
Definition scenario_closes : list float :=
  map of_Z [10; 11; 12; 11; 10; 9; 10; 11; 12; 13;
            14; 15; 16; 17; 18; 19; 20; 21; 22; 23]%Z.

(* ================================================================== *)
(** ** Labels, reading order and the printed summary *)

(** The labels of a frame, in column order ([df.columns]). *)
Definition labels (d : DataFrame) : list string := map fst (columns d).

Definition has_label (n : string) (d : DataFrame) : bool :=
  existsb (String.eqb n) (labels d).

(** The labels that the statements of a program add to a frame: those it
    assigns that the frame does not have yet, in order of assignment. *)
Definition new_labels (p : list stmt) (d : DataFrame) : list string :=
  filter (fun n => negb (has_label n d)) (map fst p).

(** The input columns in the order in which the function first reads them:
    lines 13, 19, 20, 33 and 109. *)
Definition read_order : list string :=
  ["Date"; "high"; "low"; "close"; "open"; "volume"; "BuySignal"]%string.

(** The first input column, in that order, that the table lacks. *)
Definition first_missing (d : DataFrame) : option string :=
  find (fun n => negb (has_label n d)) read_order.

(** The texts that pandas reads as a missing date whatever the format. *)
Definition nat_strings : list string :=
  [""; "NaT"; "nat"; "NAT"; "nan"; "NaN"; "NAN"]%string.

(** A text of ASCII characters that is none of these: the texts on which
    [strptime] decides whether the cell is a date. *)
Definition ordinary_text (s : string) : bool :=
  negb (existsb (String.eqb s) nat_strings)
  && forallb (fun c => nat_of_ascii c <? 128) (list_ascii_of_string s).

(** The float cells of a column, for a label that holds floats. *)
Definition series (name : string) (d : DataFrame) : list float :=
  match df_get name d with Ok (ColFloat l) => l | _ => [] end.

(** ** The summary that the function prints *)

(** [sub in s] on strings. *)
Fixpoint contains (sub s : string) : bool :=
  if String.prefix sub s then true
  else match s with
       | EmptyString => false
       | String _ t => contains sub t
       end.

(** [f'{n}'] for a count. *)
Definition str (n : nat) : string := NilEmpty.string_of_uint (Nat.to_uint n).

Definition newline : string := String (ascii_of_nat 10) EmptyString.

(** The dictionary [feature_categories] of line 121, in insertion order;
    [df_columns] are the labels of the output. *)
Definition feature_categories (df_columns : list string)
  : list (string * list string) :=
  [ ("Price Features", ["price_range"; "price_change"; "price_change_pct"]);
    ("Ratios", ["close_to_open_ratio"; "high_to_low_ratio";
                "close_to_high_ratio"]);
    ("Moving Averages",
       filter (fun col => contains "sma_" col || contains "ema_" col)
              df_columns);
    ("Technical Indicators", ["macd"; "macd_signal"; "rsi"; "bb_position"]);
    ("Volatility", ["volatility_5"; "volatility_20"; "price_range_pct"]);
    ("Lag Features", filter (fun col => contains "lag_" col) df_columns);
    ("Trend Features", ["trend_5"; "trend_20"; "golden_cross"]) ]%string.

(** The lines printed for one category: lines 132 to 137. *)
Definition print_category (df_columns : list string)
  (item : string * list string) : list string :=
  let category := fst item in
  let features := snd item in
  (newline ++ category ++ ": " ++ str (length features) ++ " features")%string
  :: flat_map (fun feature =>
                 if existsb (String.eqb feature) df_columns
                 then [("  - " ++ feature)%string] else [])
              (firstn 3 features)
  ++ (if 3 <? length features
      then [("  ... and " ++ str (length features - 3) ++ " more")%string]
      else []).

(** The arguments of the [print] calls of lines 116 to 137, in order, for
    the table [df] that the function returns. *)
Definition printed_lines (df : DataFrame) (output_file : string) : list string :=
  [ ("Enhanced dataset created with " ++ str (nrows df) ++ " rows and "
       ++ str (length (columns df)) ++ " columns")%string;
    ("File saved as: " ++ output_file)%string;
    (newline ++ "New Features Created:")%string ]
  ++ flat_map (print_category (labels df)) (feature_categories (labels df)).

(* ================================================================== *)
(** ** Concrete tables *)

(** A table of 20 trading days of January 2024 whose closes are the series
    of the SMA scenario. *)
Definition scenario_frame : DataFrame :=
  mkdf (seq 0 20)
    [("Date"%string, ColStr [Some "02-Jan-24"; Some "03-Jan-24"; Some
          "04-Jan-24"; Some "05-Jan-24"; Some "08-Jan-24"; Some "09-Jan-24";
          Some "10-Jan-24"; Some "11-Jan-24"; Some "12-Jan-24"; Some
          "16-Jan-24"; Some "17-Jan-24"; Some "18-Jan-24"; Some "19-Jan-24";
          Some "22-Jan-24"; Some "23-Jan-24"; Some "24-Jan-24"; Some
          "25-Jan-24"; Some "26-Jan-24"; Some "29-Jan-24"; Some
          "30-Jan-24"]%string);
     ("open"%string, ColFloat [Fin (19 # 2); Fin (21 # 2); Fin (23 # 2); Fin
           (21 # 2); Fin (19 # 2); Fin (17 # 2); Fin (19 # 2); Fin (21 # 2);
           Fin (23 # 2); Fin (25 # 2); Fin (27 # 2); Fin (29 # 2); Fin (31 #
           2); Fin (33 # 2); Fin (35 # 2); Fin (37 # 2); Fin (39 # 2); Fin (41
           # 2); Fin (43 # 2); Fin (45 # 2)]%Q);
     ("high"%string, ColFloat [Fin 11; Fin 12; Fin 13; Fin 12; Fin 11; Fin 10;
           Fin 11; Fin 12; Fin 13; Fin 14; Fin 15; Fin 16; Fin 17; Fin 18; Fin
           19; Fin 20; Fin 21; Fin 22; Fin 23; Fin 24]%Q);
     ("low"%string, ColFloat [Fin 9; Fin 10; Fin 11; Fin 10; Fin 9; Fin 8; Fin
           9; Fin 10; Fin 11; Fin 12; Fin 13; Fin 14; Fin 15; Fin 16; Fin 17;
           Fin 18; Fin 19; Fin 20; Fin 21; Fin 22]%Q);
     ("close"%string, ColFloat [Fin 10; Fin 11; Fin 12; Fin 11; Fin 10; Fin 9;
           Fin 10; Fin 11; Fin 12; Fin 13; Fin 14; Fin 15; Fin 16; Fin 17; Fin
           18; Fin 19; Fin 20; Fin 21; Fin 22; Fin 23]%Q);
     ("volume"%string, ColFloat [Fin 1000; Fin 1010; Fin 1020; Fin 1030; Fin
           1040; Fin 1050; Fin 1060; Fin 1070; Fin 1080; Fin 1090; Fin 1100;
           Fin 1110; Fin 1120; Fin 1130; Fin 1140; Fin 1150; Fin 1160; Fin
           1170; Fin 1180; Fin 1190]%Q);
     ("BuySignal"%string, ColFloat [Fin 0; Fin 1; Fin 0; Fin 1; Fin 0; Fin 1;
           Fin 0; Fin 1; Fin 0; Fin 1; Fin 0; Fin 1; Fin 0; Fin 1; Fin 0; Fin
           1; Fin 0; Fin 1; Fin 0; Fin 1]%Q)].

(** A table of 15 trading days on which the close never moves. *)
Definition flat_frame : DataFrame :=
  mkdf (seq 0 15)
    [("Date"%string, ColStr [Some "02-Jan-24"; Some "03-Jan-24"; Some
          "04-Jan-24"; Some "05-Jan-24"; Some "08-Jan-24"; Some "09-Jan-24";
          Some "10-Jan-24"; Some "11-Jan-24"; Some "12-Jan-24"; Some
          "16-Jan-24"; Some "17-Jan-24"; Some "18-Jan-24"; Some "19-Jan-24";
          Some "22-Jan-24"; Some "23-Jan-24"]%string);
     ("open"%string, ColFloat [Fin 10; Fin 10; Fin 10; Fin 10; Fin 10; Fin 10;
           Fin 10; Fin 10; Fin 10; Fin 10; Fin 10; Fin 10; Fin 10; Fin 10; Fin
           10]%Q);
     ("high"%string, ColFloat [Fin 11; Fin 11; Fin 11; Fin 11; Fin 11; Fin 11;
           Fin 11; Fin 11; Fin 11; Fin 11; Fin 11; Fin 11; Fin 11; Fin 11; Fin
           11]%Q);
     ("low"%string, ColFloat [Fin 9; Fin 9; Fin 9; Fin 9; Fin 9; Fin 9; Fin 9;
           Fin 9; Fin 9; Fin 9; Fin 9; Fin 9; Fin 9; Fin 9; Fin 9]%Q);
     ("close"%string, ColFloat [Fin 10; Fin 10; Fin 10; Fin 10; Fin 10; Fin
           10; Fin 10; Fin 10; Fin 10; Fin 10; Fin 10; Fin 10; Fin 10; Fin 10;
           Fin 10]%Q);
     ("volume"%string, ColFloat [Fin 500; Fin 501; Fin 502; Fin 503; Fin 504;
           Fin 505; Fin 506; Fin 507; Fin 508; Fin 509; Fin 510; Fin 511; Fin
           512; Fin 513; Fin 514]%Q);
     ("BuySignal"%string, ColFloat [Fin 0; Fin 0; Fin 0; Fin 0; Fin 0; Fin 0;
           Fin 0; Fin 0; Fin 0; Fin 0; Fin 0; Fin 0; Fin 0; Fin 0; Fin 0]%Q)].

(** A table of three trading days that has no [BuySignal] column. *)
Definition no_label_frame : DataFrame :=
  mkdf (seq 0 3)
    [("Date"%string, ColStr [Some "02-Jan-24"; Some "03-Jan-24"; Some "04-Jan-24"]%string);
     ("open"%string, ColFloat [Fin 10; Fin 11; Fin 12]%Q);
     ("high"%string, ColFloat [Fin 12; Fin 13; Fin 14]%Q);
     ("low"%string, ColFloat [Fin 9; Fin 10; Fin 11]%Q);
     ("close"%string, ColFloat [Fin 11; Fin 12; Fin 13]%Q);
     ("volume"%string, ColFloat [Fin 1000; Fin 1100; Fin 1200]%Q)].

(** A table of 52 trading days (2 January to 13 March 2024) with positive
    prices and volumes and a close that moves every day. *)
Definition dense_frame : DataFrame :=
  mkdf (seq 0 52)
    [("Date"%string, ColStr [Some "02-Jan-24"; Some "03-Jan-24"; Some
          "04-Jan-24"; Some "05-Jan-24"; Some "08-Jan-24"; Some "09-Jan-24";
          Some "10-Jan-24"; Some "11-Jan-24"; Some "12-Jan-24"; Some
          "15-Jan-24"; Some "16-Jan-24"; Some "17-Jan-24"; Some "18-Jan-24";
          Some "19-Jan-24"; Some "22-Jan-24"; Some "23-Jan-24"; Some
          "24-Jan-24"; Some "25-Jan-24"; Some "26-Jan-24"; Some "29-Jan-24";
          Some "30-Jan-24"; Some "31-Jan-24"; Some "01-Feb-24"; Some
          "02-Feb-24"; Some "05-Feb-24"; Some "06-Feb-24"; Some "07-Feb-24";
          Some "08-Feb-24"; Some "09-Feb-24"; Some "12-Feb-24"; Some
          "13-Feb-24"; Some "14-Feb-24"; Some "15-Feb-24"; Some "16-Feb-24";
          Some "19-Feb-24"; Some "20-Feb-24"; Some "21-Feb-24"; Some
          "22-Feb-24"; Some "23-Feb-24"; Some "26-Feb-24"; Some "27-Feb-24";
          Some "28-Feb-24"; Some "29-Feb-24"; Some "01-Mar-24"; Some
          "04-Mar-24"; Some "05-Mar-24"; Some "06-Mar-24"; Some "07-Mar-24";
          Some "08-Mar-24"; Some "11-Mar-24"; Some "12-Mar-24"; Some
          "13-Mar-24"]%string);
     ("open"%string, ColFloat [Fin 99; Fin 104; Fin 109; Fin 103; Fin 108; Fin
           102; Fin 107; Fin 101; Fin 106; Fin 100; Fin 105; Fin 99; Fin 104;
           Fin 109; Fin 103; Fin 108; Fin 102; Fin 107; Fin 101; Fin 106; Fin
           100; Fin 105; Fin 99; Fin 104; Fin 109; Fin 103; Fin 108; Fin 102;
           Fin 107; Fin 101; Fin 106; Fin 100; Fin 105; Fin 99; Fin 104; Fin
           109; Fin 103; Fin 108; Fin 102; Fin 107; Fin 101; Fin 106; Fin 100;
           Fin 105; Fin 99; Fin 104; Fin 109; Fin 103; Fin 108; Fin 102; Fin
           107; Fin 101]%Q);
     ("high"%string, ColFloat [Fin 115; Fin 118; Fin 121; Fin 117; Fin 120;
           Fin 116; Fin 119; Fin 115; Fin 118; Fin 121; Fin 117; Fin 120; Fin
           116; Fin 119; Fin 115; Fin 118; Fin 121; Fin 117; Fin 120; Fin 116;
           Fin 119; Fin 115; Fin 118; Fin 121; Fin 117; Fin 120; Fin 116; Fin
           119; Fin 115; Fin 118; Fin 121; Fin 117; Fin 120; Fin 116; Fin 119;
           Fin 115; Fin 118; Fin 121; Fin 117; Fin 120; Fin 116; Fin 119; Fin
           115; Fin 118; Fin 121; Fin 117; Fin 120; Fin 116; Fin 119; Fin 115;
           Fin 118; Fin 121]%Q);
     ("low"%string, ColFloat [Fin 90; Fin 93; Fin 91; Fin 94; Fin 92; Fin 90;
           Fin 93; Fin 91; Fin 94; Fin 92; Fin 90; Fin 93; Fin 91; Fin 94; Fin
           92; Fin 90; Fin 93; Fin 91; Fin 94; Fin 92; Fin 90; Fin 93; Fin 91;
           Fin 94; Fin 92; Fin 90; Fin 93; Fin 91; Fin 94; Fin 92; Fin 90; Fin
           93; Fin 91; Fin 94; Fin 92; Fin 90; Fin 93; Fin 91; Fin 94; Fin 92;
           Fin 90; Fin 93; Fin 91; Fin 94; Fin 92; Fin 90; Fin 93; Fin 91; Fin
           94; Fin 92; Fin 90; Fin 93]%Q);
     ("close"%string, ColFloat [Fin 100; Fin 107; Fin 101; Fin 108; Fin 102;
           Fin 109; Fin 103; Fin 110; Fin 104; Fin 111; Fin 105; Fin 112; Fin
           106; Fin 100; Fin 107; Fin 101; Fin 108; Fin 102; Fin 109; Fin 103;
           Fin 110; Fin 104; Fin 111; Fin 105; Fin 112; Fin 106; Fin 100; Fin
           107; Fin 101; Fin 108; Fin 102; Fin 109; Fin 103; Fin 110; Fin 104;
           Fin 111; Fin 105; Fin 112; Fin 106; Fin 100; Fin 107; Fin 101; Fin
           108; Fin 102; Fin 109; Fin 103; Fin 110; Fin 104; Fin 111; Fin 105;
           Fin 112; Fin 106]%Q);
     ("volume"%string, ColFloat [Fin 1000; Fin 1017; Fin 1034; Fin 1051; Fin
           1068; Fin 1085; Fin 1001; Fin 1018; Fin 1035; Fin 1052; Fin 1069;
           Fin 1086; Fin 1002; Fin 1019; Fin 1036; Fin 1053; Fin 1070; Fin
           1087; Fin 1003; Fin 1020; Fin 1037; Fin 1054; Fin 1071; Fin 1088;
           Fin 1004; Fin 1021; Fin 1038; Fin 1055; Fin 1072; Fin 1089; Fin
           1005; Fin 1022; Fin 1039; Fin 1056; Fin 1073; Fin 1090; Fin 1006;
           Fin 1023; Fin 1040; Fin 1057; Fin 1074; Fin 1091; Fin 1007; Fin
           1024; Fin 1041; Fin 1058; Fin 1075; Fin 1092; Fin 1008; Fin 1025;
           Fin 1042; Fin 1059]%Q);
     ("BuySignal"%string, ColFloat [Fin 0; Fin 1; Fin 0; Fin 1; Fin 0; Fin 1;
           Fin 0; Fin 1; Fin 0; Fin 1; Fin 0; Fin 1; Fin 0; Fin 1; Fin 0; Fin
           1; Fin 0; Fin 1; Fin 0; Fin 1; Fin 0; Fin 1; Fin 0; Fin 1; Fin 0;
           Fin 1; Fin 0; Fin 1; Fin 0; Fin 1; Fin 0; Fin 1; Fin 0; Fin 1; Fin
           0; Fin 1; Fin 0; Fin 1; Fin 0; Fin 1; Fin 0; Fin 1; Fin 0; Fin 1;
           Fin 0; Fin 1; Fin 0; Fin 1; Fin 0; Fin 1; Fin 0; Fin 1]%Q)].

(** A table of 53 rows in which rows 49 and 50 carry the same date,
    11 March 2024. *)
Definition duplicate_frame : DataFrame :=
  mkdf (seq 0 53)
    [("Date"%string, ColStr [Some "02-Jan-24"; Some "03-Jan-24"; Some
          "04-Jan-24"; Some "05-Jan-24"; Some "08-Jan-24"; Some "09-Jan-24";
          Some "10-Jan-24"; Some "11-Jan-24"; Some "12-Jan-24"; Some
          "15-Jan-24"; Some "16-Jan-24"; Some "17-Jan-24"; Some "18-Jan-24";
          Some "19-Jan-24"; Some "22-Jan-24"; Some "23-Jan-24"; Some
          "24-Jan-24"; Some "25-Jan-24"; Some "26-Jan-24"; Some "29-Jan-24";
          Some "30-Jan-24"; Some "31-Jan-24"; Some "01-Feb-24"; Some
          "02-Feb-24"; Some "05-Feb-24"; Some "06-Feb-24"; Some "07-Feb-24";
          Some "08-Feb-24"; Some "09-Feb-24"; Some "12-Feb-24"; Some
          "13-Feb-24"; Some "14-Feb-24"; Some "15-Feb-24"; Some "16-Feb-24";
          Some "19-Feb-24"; Some "20-Feb-24"; Some "21-Feb-24"; Some
          "22-Feb-24"; Some "23-Feb-24"; Some "26-Feb-24"; Some "27-Feb-24";
          Some "28-Feb-24"; Some "29-Feb-24"; Some "01-Mar-24"; Some
          "04-Mar-24"; Some "05-Mar-24"; Some "06-Mar-24"; Some "07-Mar-24";
          Some "08-Mar-24"; Some "11-Mar-24"; Some "11-Mar-24"; Some
          "12-Mar-24"; Some "13-Mar-24"]%string);
     ("open"%string, ColFloat [Fin 99; Fin 104; Fin 109; Fin 103; Fin 108; Fin
           102; Fin 107; Fin 101; Fin 106; Fin 100; Fin 105; Fin 99; Fin 104;
           Fin 109; Fin 103; Fin 108; Fin 102; Fin 107; Fin 101; Fin 106; Fin
           100; Fin 105; Fin 99; Fin 104; Fin 109; Fin 103; Fin 108; Fin 102;
           Fin 107; Fin 101; Fin 106; Fin 100; Fin 105; Fin 99; Fin 104; Fin
           109; Fin 103; Fin 108; Fin 102; Fin 107; Fin 101; Fin 106; Fin 100;
           Fin 105; Fin 99; Fin 104; Fin 109; Fin 103; Fin 108; Fin 102; Fin
           107; Fin 101; Fin 106]%Q);
     ("high"%string, ColFloat [Fin 115; Fin 118; Fin 121; Fin 117; Fin 120;
           Fin 116; Fin 119; Fin 115; Fin 118; Fin 121; Fin 117; Fin 120; Fin
           116; Fin 119; Fin 115; Fin 118; Fin 121; Fin 117; Fin 120; Fin 116;
           Fin 119; Fin 115; Fin 118; Fin 121; Fin 117; Fin 120; Fin 116; Fin
           119; Fin 115; Fin 118; Fin 121; Fin 117; Fin 120; Fin 116; Fin 119;
           Fin 115; Fin 118; Fin 121; Fin 117; Fin 120; Fin 116; Fin 119; Fin
           115; Fin 118; Fin 121; Fin 117; Fin 120; Fin 116; Fin 119; Fin 115;
           Fin 118; Fin 121; Fin 117]%Q);
     ("low"%string, ColFloat [Fin 90; Fin 93; Fin 91; Fin 94; Fin 92; Fin 90;
           Fin 93; Fin 91; Fin 94; Fin 92; Fin 90; Fin 93; Fin 91; Fin 94; Fin
           92; Fin 90; Fin 93; Fin 91; Fin 94; Fin 92; Fin 90; Fin 93; Fin 91;
           Fin 94; Fin 92; Fin 90; Fin 93; Fin 91; Fin 94; Fin 92; Fin 90; Fin
           93; Fin 91; Fin 94; Fin 92; Fin 90; Fin 93; Fin 91; Fin 94; Fin 92;
           Fin 90; Fin 93; Fin 91; Fin 94; Fin 92; Fin 90; Fin 93; Fin 91; Fin
           94; Fin 92; Fin 90; Fin 93; Fin 91]%Q);
     ("close"%string, ColFloat [Fin 100; Fin 107; Fin 101; Fin 108; Fin 102;
           Fin 109; Fin 103; Fin 110; Fin 104; Fin 111; Fin 105; Fin 112; Fin
           106; Fin 100; Fin 107; Fin 101; Fin 108; Fin 102; Fin 109; Fin 103;
           Fin 110; Fin 104; Fin 111; Fin 105; Fin 112; Fin 106; Fin 100; Fin
           107; Fin 101; Fin 108; Fin 102; Fin 109; Fin 103; Fin 110; Fin 104;
           Fin 111; Fin 105; Fin 112; Fin 106; Fin 100; Fin 107; Fin 101; Fin
           108; Fin 102; Fin 109; Fin 103; Fin 110; Fin 104; Fin 111; Fin 105;
           Fin 112; Fin 106; Fin 100]%Q);
     ("volume"%string, ColFloat [Fin 1000; Fin 1017; Fin 1034; Fin 1051; Fin
           1068; Fin 1085; Fin 1001; Fin 1018; Fin 1035; Fin 1052; Fin 1069;
           Fin 1086; Fin 1002; Fin 1019; Fin 1036; Fin 1053; Fin 1070; Fin
           1087; Fin 1003; Fin 1020; Fin 1037; Fin 1054; Fin 1071; Fin 1088;
           Fin 1004; Fin 1021; Fin 1038; Fin 1055; Fin 1072; Fin 1089; Fin
           1005; Fin 1022; Fin 1039; Fin 1056; Fin 1073; Fin 1090; Fin 1006;
           Fin 1023; Fin 1040; Fin 1057; Fin 1074; Fin 1091; Fin 1007; Fin
           1024; Fin 1041; Fin 1058; Fin 1075; Fin 1092; Fin 1008; Fin 1025;
           Fin 1042; Fin 1059; Fin 1076]%Q);
     ("BuySignal"%string, ColFloat [Fin 0; Fin 1; Fin 0; Fin 1; Fin 0; Fin 1;
           Fin 0; Fin 1; Fin 0; Fin 1; Fin 0; Fin 1; Fin 0; Fin 1; Fin 0; Fin
           1; Fin 0; Fin 1; Fin 0; Fin 1; Fin 0; Fin 1; Fin 0; Fin 1; Fin 0;
           Fin 1; Fin 0; Fin 1; Fin 0; Fin 1; Fin 0; Fin 1; Fin 0; Fin 1; Fin
           0; Fin 1; Fin 0; Fin 1; Fin 0; Fin 1; Fin 0; Fin 1; Fin 0; Fin 1;
           Fin 0; Fin 1; Fin 0; Fin 1; Fin 0; Fin 1; Fin 0; Fin 1; Fin 0]%Q)].

(** A table of 51 rows whose first row has no date; the other rows are the
    trading days from 2 January to 11 March 2024, in order. *)
Definition undated_frame : DataFrame :=
  mkdf (seq 0 51)
    [("Date"%string, ColStr (None :: [Some "02-Jan-24"; Some "03-Jan-24"; Some
          "04-Jan-24"; Some "05-Jan-24"; Some "08-Jan-24"; Some "09-Jan-24";
          Some "10-Jan-24"; Some "11-Jan-24"; Some "12-Jan-24"; Some
          "15-Jan-24"; Some "16-Jan-24"; Some "17-Jan-24"; Some "18-Jan-24";
          Some "19-Jan-24"; Some "22-Jan-24"; Some "23-Jan-24"; Some
          "24-Jan-24"; Some "25-Jan-24"; Some "26-Jan-24"; Some "29-Jan-24";
          Some "30-Jan-24"; Some "31-Jan-24"; Some "01-Feb-24"; Some
          "02-Feb-24"; Some "05-Feb-24"; Some "06-Feb-24"; Some "07-Feb-24";
          Some "08-Feb-24"; Some "09-Feb-24"; Some "12-Feb-24"; Some
          "13-Feb-24"; Some "14-Feb-24"; Some "15-Feb-24"; Some "16-Feb-24";
          Some "19-Feb-24"; Some "20-Feb-24"; Some "21-Feb-24"; Some
          "22-Feb-24"; Some "23-Feb-24"; Some "26-Feb-24"; Some "27-Feb-24";
          Some "28-Feb-24"; Some "29-Feb-24"; Some "01-Mar-24"; Some
          "04-Mar-24"; Some "05-Mar-24"; Some "06-Mar-24"; Some "07-Mar-24";
          Some "08-Mar-24"; Some "11-Mar-24"]%string));
     ("open"%string, ColFloat (repeat (Fin 10) 51));
     ("high"%string, ColFloat (repeat (Fin 14) 51));
     ("low"%string, ColFloat (repeat (Fin 8) 51));
     ("close"%string,
        ColFloat (Fin 13 :: repeat (Fin 10) 47 ++ [Fin 9; Fin 11; Fin 12]));
     ("volume"%string, ColFloat (repeat (Fin 1000) 51));
     ("BuySignal"%string, ColFloat (repeat (Fin 1) 51))].

(** A table of two rows, given in reverse date order, that has no [volume]
    column. *)
Definition no_volume_frame : DataFrame :=
  mkdf [0; 1]
    [("Date"%string, ColStr [Some "03-Jan-24"; Some "02-Jan-24"]%string);
     ("open"%string, ColFloat [Fin 10; Fin 11]);
     ("high"%string, ColFloat [Fin 12; Fin 12]);
     ("low"%string, ColFloat [Fin 9; Fin 10]);
     ("close"%string, ColFloat [Fin 11; Fin 10])].

(** A table of three trading days; no share is traded on the second. *)
Definition zero_volume_frame : DataFrame :=
  mkdf [0; 1; 2]
    [("Date"%string,
        ColStr [Some "02-Jan-24"; Some "03-Jan-24"; Some "04-Jan-24"]%string);
     ("open"%string, ColFloat [Fin 10; Fin 11; Fin 12]);
     ("high"%string, ColFloat [Fin 12; Fin 13; Fin 14]);
     ("low"%string, ColFloat [Fin 9; Fin 10; Fin 11]);
     ("close"%string, ColFloat [Fin 11; Fin 12; Fin 13]);
     ("volume"%string, ColFloat [Fin 1000; Fin 0; Fin 500]);
     ("BuySignal"%string, ColFloat [Fin 0; Fin 1; Fin 0])].

(* ================================================================== *)
(** * Properties *)

Unset Implicit Arguments.

(** ** The operations on small inputs *)

Example strptime_matches :
  strptime "02-Jan-24" = Some (mkdate 2024 1 2)
  /\ strptime "7-mar-99" = Some (mkdate 1999 3 7).
Proof. split; reflexivity. Qed.

Example strptime_rejects :
  strptime "31-Feb-24" = None /\ strptime "2024-01-02" = None.
Proof. split; reflexivity. Qed.

Example first_of_january_2024_is_a_monday :
  dayofweek (mkdate 2024 1 1) = 0%Z /\ quarter (mkdate 2024 11 3) = 4%Z.
Proof. split; reflexivity. Qed.

Example division_by_zero :
  fdiv (Fin 1) (Fin 0) = Inf false /\ fdiv (Fin 0) (Fin 0) = NaN.
Proof. split; reflexivity. Qed.

Example shift_rows :
  shift 1 [Fin 1; Fin 2; Fin 3] = [NaN; Fin 1; Fin 2]
  /\ shift (-1) [Fin 1; Fin 2; Fin 3] = [Fin 2; Fin 3; NaN].
Proof. split; reflexivity. Qed.

Example rolling_mean_rows :
  rolling mean_agg 3 [Fin 1; Fin 2; Fin 3; Fin 6]
  = [NaN; NaN; Fin 2; Fin (11 # 3)].
Proof. reflexivity. Qed.

Example rolling_mean_skips_nothing :
  rolling mean_agg 2 [Fin 1; NaN; Fin 3; Fin 5] = [NaN; NaN; NaN; Fin 4].
Proof. reflexivity. Qed.

Example ewm_mean_rows :
  ewm_mean 12 [Fin 1; Fin 2] = [Fin 1; Fin (37 # 24)].
Proof. reflexivity. Qed.

Example pct_change_rows :
  pct_change [Fin 2; Fin 3; Fin 0; Fin 0; Fin 1]
  = [NaN; Fin (1 # 2); Fin (-1); NaN; Inf false].
Proof. reflexivity. Qed.

Example sort_by_date :
  argsort key_leb [Some (mkdate 2024 1 3); None; Some (mkdate 2023 12 29)]
  = [2; 0; 1].
Proof. reflexivity. Qed.

(** ** The result monad *)

Lemma bind_Ok {A B} (a : A) (k : A -> result B) : bind (Ok a) k = k a.
Proof. reflexivity. Qed.

(** ** Lookup and assignment *)

Lemma lookup_assign_eq k v cols : lookup k (assign_col k v cols) = Some v.
Proof.
  induction cols as [|[n c] t IH]; simpl.
  - now rewrite String.eqb_refl.
  - destruct (String.eqb k n) eqn:E; simpl; rewrite E; auto.
Qed.

Lemma lookup_assign_neq k k' v cols :
  k <> k' -> lookup k (assign_col k' v cols) = lookup k cols.
Proof.
  intros Hne. induction cols as [|[n c] t IH]; simpl.
  - apply String.eqb_neq in Hne. now rewrite Hne.
  - destruct (String.eqb k' n) eqn:E; simpl.
    + apply String.eqb_eq in E. subst n.
      apply String.eqb_neq in Hne. now rewrite Hne.
    + now rewrite IH.
Qed.

Lemma df_get_set_eq k v d : df_get k (df_set k v d) = Ok v.
Proof. unfold df_get, df_set; simpl. now rewrite lookup_assign_eq. Qed.

Lemma df_get_set_neq k k' v d :
  k <> k' -> df_get k (df_set k' v d) = df_get k d.
Proof.
  intros. unfold df_get, df_set; simpl. now rewrite lookup_assign_neq.
Qed.

Lemma assign_col_In k v cols n c :
  In (n, c) (assign_col k v cols) -> In (n, c) cols \/ (n = k /\ c = v).
Proof.
  induction cols as [|[n0 c0] t IH]; simpl.
  - intros [H|[]]. inversion H; auto.
  - destruct (String.eqb k n0) eqn:E; simpl.
    + apply String.eqb_eq in E. subst n0.
      intros [H|H]; [inversion H; auto | auto].
    + intros [H|H]; [auto | destruct (IH H) as [?|?]; auto].
Qed.

Lemma lookup_In n c cols : lookup n cols = Some c -> In (n, c) cols.
Proof.
  induction cols as [|[n0 c0] t IH]; simpl; [discriminate|].
  destruct (String.eqb n n0) eqn:E.
  - apply String.eqb_eq in E. intros H; inversion H; subst; auto.
  - auto.
Qed.

Lemma df_get_In n c d : df_get n d = Ok c -> In (n, c) (columns d).
Proof.
  unfold df_get. destruct (lookup n (columns d)) eqn:E; [|discriminate].
  intros H; inversion H; subst. now apply lookup_In.
Qed.

(** ** Running a list of statements *)

Lemma exec_inv s d d' :
  exec s d = Ok d' -> exists c, snd s d = Ok c /\ d' = df_set (fst s) c d.
Proof.
  unfold exec. destruct (snd s d) as [c|e]; simpl; [|discriminate].
  intros H; inversion H; eauto.
Qed.

Lemma run_app p q d : run (p ++ q) d = (d' <- run p d ;; run q d').
Proof.
  revert d. induction p as [|s p IH]; intros d; simpl; auto.
  destruct (exec s d); simpl; auto.
Qed.

Lemma run_index p : forall d E, run p d = Ok E -> index E = index d.
Proof.
  induction p as [|s p IH]; simpl; intros d E H.
  - now inversion H.
  - destruct (exec s d) as [d'|] eqn:Ex; simpl in H; [|discriminate].
    apply exec_inv in Ex. destruct Ex as (c & _ & ->).
    now rewrite (IH _ _ H).
Qed.

(** A label that no statement assigns keeps its column. *)
Lemma run_untouched k p : forall d E,
  run p d = Ok E -> ~ In k (map fst p) -> df_get k E = df_get k d.
Proof.
  induction p as [|s p IH]; simpl; intros d E H Hk.
  - now inversion H.
  - destruct (exec s d) as [d'|] eqn:Ex; simpl in H; [|discriminate].
    apply exec_inv in Ex. destruct Ex as (c & _ & ->).
    rewrite (IH _ _ H) by tauto.
    apply df_get_set_neq. intros ->. tauto.
Qed.

(** Every column of the final frame is a column of the initial frame or the
    value of a label that the statements assign. *)
Lemma run_columns p : forall d E,
  NoDup (map fst p) -> run p d = Ok E ->
  forall n c, In (n, c) (columns E) ->
    In (n, c) (columns d) \/ (In n (map fst p) /\ df_get n E = Ok c).
Proof.
  induction p as [|s p IH]; simpl; intros d E Hnd H n c Hin.
  - inversion H; subst; auto.
  - destruct (exec s d) as [d'|] eqn:Ex; simpl in H; [|discriminate].
    apply exec_inv in Ex. destruct Ex as (v & _ & ->).
    inversion Hnd as [|? ? Hnotin Hnd']; subst.
    destruct (IH _ _ Hnd' H n c Hin) as [Hc|[Hn Hg]].
    + simpl in Hc. apply assign_col_In in Hc. destruct Hc as [Hc|[-> ->]]; auto.
      right. split; auto.
      rewrite (run_untouched _ _ _ _ H Hnotin). apply df_get_set_eq.
    + right. auto.
Qed.

Lemma respects_col N n : In n N -> respects N (col n).
Proof. intros Hn d d' H. unfold col. auto. Qed.

Lemma respects_ebin N op e1 e2 :
  respects N e1 -> respects N e2 -> respects N (ebin op e1 e2).
Proof.
  intros H1 H2 d d' H. unfold ebin. now rewrite (H1 _ _ H), (H2 _ _ H).
Qed.

Lemma respects_eun N op e : respects N e -> respects N (eun op e).
Proof. intros H1 d d' H. unfold eun. now rewrite (H1 _ _ H). Qed.

Lemma agree_set N k v d d' :
  agree N d d' -> agree (k :: N) (df_set k v d) (df_set k v d').
Proof.
  intros H n Hn. destruct (string_dec n k) as [->|Hne].
  - now rewrite !df_get_set_eq.
  - rewrite !df_get_set_neq by auto. apply H. destruct Hn; congruence.
Qed.

Lemma run_agree p : forall N d d' E',
  wellread N p -> agree N d d' -> run p d' = Ok E' ->
  exists E, run p d = Ok E /\ agree (map fst p) E E'.
Proof.
  induction p as [|s p IH]; simpl; intros N d d' E' Hw Ha H.
  - exists d. split; auto. intros n [].
  - destruct Hw as [Hr Hw].
    destruct (exec s d') as [d1'|] eqn:Ex; simpl in H; [|discriminate].
    apply exec_inv in Ex. destruct Ex as (v & Hv & ->).
    unfold exec. rewrite (Hr _ _ Ha), Hv. simpl.
    destruct (IH _ _ _ _ Hw (agree_set N (fst s) v d d' Ha) H) as (E & HE & HA).
    exists E. split; auto.
    intros n [<-|Hn]; [|auto].
    destruct (in_dec string_dec (fst s) (map fst p)) as [Hi|Hi]; [auto|].
    rewrite (run_untouched _ _ _ _ HE Hi), (run_untouched _ _ _ _ H Hi).
    now rewrite !df_get_set_eq.
Qed.

(** ** Selection of rows and sorting *)

Lemma take_Forall {A} (P : A -> Prop) idx (l : list A) :
  Forall P l -> Forall P (take idx l).
Proof.
  intros H. unfold take. induction idx as [|i idx IH]; simpl; [constructor|].
  apply Forall_app. split; auto.
  destruct (nth_error l i) eqn:E; [|constructor].
  constructor; [|constructor].
  rewrite Forall_forall in H. apply H. eapply nth_error_In; eauto.
Qed.

Lemma take_length {A} idx (l : list A) :
  Forall (fun i => i < length l) idx -> length (take idx l) = length idx.
Proof.
  unfold take. induction 1 as [|i idx Hi _ IH]; simpl; auto.
  rewrite length_app, IH.
  apply nth_error_Some in Hi. destruct (nth_error l i); simpl; congruence.
Qed.

Lemma take_seq {A} (l : list A) : take (seq 0 (length l)) l = l.
Proof.
  unfold take.
  assert (G : forall k, flat_map
            (fun i => match nth_error l i with Some x => [x] | None => [] end)
            (seq k (length l - k)) = skipn k l).
  { intros k. remember (length l - k) as m eqn:Hm. revert k Hm.
    induction m as [|m IH]; intros k Hm; simpl.
    - symmetry. apply skipn_all2. lia.
    - assert (Hk : k < length l) by lia.
      destruct (nth_error l k) as [x|] eqn:E.
      2:{ apply nth_error_None in E. lia. }
      rewrite IH by lia. simpl.
      clear - E. revert l E. induction k; intros [|y l] E; simpl in *;
        try discriminate; [inversion E; auto | auto]. }
  specialize (G 0). now rewrite Nat.sub_0_r in G.
Qed.

Lemma take_Permutation {A} idx (l : list A) :
  Permutation idx (seq 0 (length l)) -> Permutation (take idx l) l.
Proof.
  intros H. rewrite <- (take_seq l) at 2. unfold take.
  now apply Permutation_flat_map.
Qed.

Lemma perm_seq_bound idx n :
  Permutation idx (seq 0 n) -> Forall (fun i => i < n) idx.
Proof.
  intros H. apply Forall_forall. intros i Hi.
  apply (Permutation_in _ H) in Hi. apply in_seq in Hi. lia.
Qed.

Section SortFacts.
Context {K P : Type} (leb : K -> K -> bool).

Lemma insert_by_perm (x : K * P) l : Permutation (insert_by leb x l) (x :: l).
Proof.
  induction l as [|y t IH]; simpl; auto.
  destruct (leb (fst x) (fst y)); auto.
  rewrite IH. apply perm_swap.
Qed.

Lemma isort_perm (l : list (K * P)) : Permutation (isort leb l) l.
Proof.
  induction l as [|x t IH]; simpl; auto.
  rewrite insert_by_perm. auto.
Qed.
End SortFacts.

Lemma map_snd_combine_seq {K} (keys : list K) k :
  map snd (combine keys (seq k (length keys))) = seq k (length keys).
Proof.
  revert k. induction keys as [|x t IH]; intros k; simpl; auto.
  now rewrite IH.
Qed.

Lemma argsort_perm {K} (leb : K -> K -> bool) keys :
  Permutation (argsort leb keys) (seq 0 (length keys)).
Proof.
  unfold argsort. rewrite <- (map_snd_combine_seq keys 0) at 2.
  apply Permutation_map, isort_perm.
Qed.

Lemma argsort_length {K} (leb : K -> K -> bool) keys :
  length (argsort leb keys) = length keys.
Proof.
  rewrite (Permutation_length (argsort_perm leb keys)). apply length_seq.
Qed.

(** ** Columns under selection *)

Lemma lookup_map_take idx n cols :
  lookup n (map (fun nc => (fst nc, col_take idx (snd nc))) cols)
  = option_map (col_take idx) (lookup n cols).
Proof.
  induction cols as [|[k c] t IH]; simpl; auto.
  destruct (String.eqb n k); auto.
Qed.

Lemma df_get_take idx n d c :
  df_get n d = Ok c -> df_get n (df_take idx d) = Ok (col_take idx c).
Proof.
  unfold df_get, df_take; simpl. rewrite lookup_map_take.
  destruct (lookup n (columns d)); simpl; [|discriminate].
  intros H; inversion H; auto.
Qed.

Lemma df_get_take_err idx n d e :
  df_get n d = Err e -> df_get n (df_take idx d) = Err e.
Proof.
  unfold df_get, df_take; simpl. rewrite lookup_map_take.
  destruct (lookup n (columns d)); simpl; [discriminate|auto].
Qed.

Lemma df_get_reset n d : df_get n (reset_index d) = df_get n d.
Proof. reflexivity. Qed.

Lemma col_take_length idx c :
  Forall (fun i => i < col_length c) idx ->
  col_length (col_take idx c) = length idx.
Proof. destruct c; simpl; apply take_length. Qed.

(** ** Normalization of a well typed table *)

Lemma wfb_wf d : wfb d = true -> wf d.
Proof.
  unfold wfb, wf. rewrite forallb_forall, Forall_forall.
  intros H x Hx. apply Nat.eqb_eq. auto.
Qed.

Lemma wf_get d n c : wf d -> df_get n d = Ok c -> col_length c = nrows d.
Proof.
  intros Hw Hg. apply df_get_In in Hg. unfold wf in Hw.
  rewrite Forall_forall in Hw. apply (Hw _ Hg).
Qed.

Lemma mapM_parse l :
  forallb parses l = true ->
  exists ds, mapM parse_cell l = Ok ds /\ length ds = length l
             /\ forallb (fun o => match o with Some _ => true | None => false end) ds = true.
Proof.
  induction l as [|x t IH]; simpl; intros H.
  - exists []. auto.
  - apply andb_prop in H. destruct H as [Hx Ht].
    destruct (IH Ht) as (ds & -> & Hl & Hs).
    destruct x as [s|]; simpl in *; [|discriminate].
    destruct (strptime s) as [dt|]; [|discriminate].
    exists (Some dt :: ds). simpl. auto.
Qed.

Lemma has_float_get P n d :
  has_float P n d = true ->
  exists l, df_get n d = Ok (ColFloat l) /\ forallb P l = true.
Proof.
  unfold has_float. destruct (df_get n d) as [[l| | |]|]; try discriminate.
  eauto.
Qed.

Lemma has_dates_get d :
  has_dates d = true ->
  exists l, df_get "Date" d = Ok (ColStr l) /\ forallb parses l = true.
Proof.
  unfold has_dates. destruct (df_get "Date" d) as [[| |l|]|]; try discriminate.
  eauto.
Qed.

Lemma normalize_ok d l :
  wf d -> df_get "Date" d = Ok (ColStr l) -> forallb parses l = true ->
  exists ds,
    mapM parse_cell l = Ok ds /\ length ds = nrows d
    /\ forallb (fun o => match o with Some _ => true | None => false end) ds = true
    /\ normalize d
       = Ok (reset_index (df_take (argsort key_leb ds)
                                  (df_set "Date" (ColDate ds) d))).
Proof.
  intros Hw Hg Hp. destruct (mapM_parse l Hp) as (ds & Hm & Hl & Hs).
  exists ds. repeat split; auto.
  - rewrite Hl. apply (wf_get d _ _ Hw Hg).
  - unfold normalize, exec, eun, col; simpl. rewrite Hg; simpl.
    rewrite Hm; simpl. unfold sort_values.
    rewrite df_get_set_eq. reflexivity.
Qed.

Lemma forallb_take {A} (P : A -> bool) idx l :
  forallb P l = true -> forallb P (take idx l) = true.
Proof.
  rewrite !forallb_forall. intros H x Hx.
  assert (F : Forall (fun x => P x = true) (take idx l)).
  { apply take_Forall. now apply Forall_forall. }
  rewrite Forall_forall in F. auto.
Qed.

(** The chronological series of a column is the column re-ordered by the
    sorting permutation. *)
Lemma chronological_take d l0 n f :
  wf d -> df_get "Date" d = Ok (ColStr l0) -> forallb parses l0 = true ->
  n <> "Date"%string -> df_get n d = Ok (ColFloat f) ->
  exists ds, mapM parse_cell l0 = Ok ds /\
    chronological n d = take (argsort key_leb ds) f.
Proof.
  intros Hw Hg Hp Hn Hf.
  destruct (normalize_ok d l0 Hw Hg Hp) as (ds & Hm & _ & _ & HN).
  exists ds. split; auto. unfold chronological. rewrite HN.
  rewrite df_get_reset.
  rewrite (df_get_take _ n _ (ColFloat f)) by (now rewrite df_get_set_neq).
  reflexivity.
Qed.

(** ** The feature program on a normalized table *)

Lemma In_existsb n N : existsb (String.eqb n) N = true -> In n N.
Proof.
  intros H. apply existsb_exists in H. destruct H as (x & Hx & E).
  apply String.eqb_eq in E. now subst.
Qed.

Ltac solve_respects :=
  unfold esub, eadd, emul, ediv, emul_s, esub_s, emap, lag, bb_std;
  repeat first
    [ apply respects_ebin
    | apply respects_eun
    | apply respects_col; apply In_existsb; vm_compute; reflexivity ].

Lemma feature_program_wellread : wellread base_labels feature_program.
Proof.
  cbv [feature_program price_features moving_averages indicators lag_features
       level_features time_features trend_features target_features
       next_day_return_stmt buy_signal_stmt
       flat_map app windows ema_windows lag_periods roc_periods wellread
       fst snd].
  repeat (split; [solve_respects|]). exact I.
Qed.

Lemma feature_program_names_nodup : NoDup (map fst feature_program).
Proof.
  assert (G : forall l : list string,
             (fix nd (l : list string) : bool :=
                match l with
                | [] => true
                | x :: t => negb (existsb (String.eqb x) t) && nd t
                end) l = true -> NoDup l).
  { induction l as [|x t IH]; intros H; [constructor|].
    apply andb_prop in H. destruct H as [H1 H2]. constructor; auto.
    intros Hin. apply negb_true_iff in H1.
    assert (existsb (String.eqb x) t = true); [|congruence].
    apply existsb_exists. exists x. split; auto. apply String.eqb_refl. }
  apply G. vm_compute. reflexivity.
Qed.

Lemma run_base dts o h l c v bs :
  run feature_program (base_frame dts o h l c v bs)
  = features_closed dts o h l c v bs.
Proof. reflexivity. Qed.

Section WellTyped.
Variable d : DataFrame.
Hypothesis Hwt : well_typed d = true.

Lemma wt_wf : wf d.
Proof.
  unfold well_typed in Hwt. apply andb_prop in Hwt. destruct Hwt as [H _].
  apply andb_prop in H. destruct H as [H _]. now apply wfb_wf.
Qed.

Lemma wt_dates :
  exists l, df_get "Date" d = Ok (ColStr l) /\ forallb parses l = true.
Proof.
  unfold well_typed in Hwt. apply andb_prop in Hwt. destruct Hwt as [H _].
  apply andb_prop in H. destruct H as [_ H]. now apply has_dates_get.
Qed.

Lemma wt_float n :
  In n numeric_labels -> exists f, df_get n d = Ok (ColFloat f).
Proof.
  intros Hn. unfold well_typed in Hwt. apply andb_prop in Hwt.
  destruct Hwt as [_ H]. rewrite forallb_forall in H.
  destruct (has_float_get _ _ _ (H _ Hn)) as (f & Hf & _). eauto.
Qed.

Lemma numeric_not_date n : In n numeric_labels -> n <> "Date"%string.
Proof.
  intros Hn ->. simpl in Hn.
  repeat (destruct Hn as [Hn|Hn]; [discriminate|]). destruct Hn.
Qed.

(** The sorting permutation of the table. *)
Lemma wt_normalize :
  exists ds,
    length ds = nrows d
    /\ forallb (fun o => match o with Some _ => true | None => false end) ds = true
    /\ normalize d
       = Ok (reset_index (df_take (argsort key_leb ds)
                                  (df_set "Date" (ColDate ds) d)))
    /\ chronological_dates d = take (argsort key_leb ds) ds
    /\ forall n f, In n numeric_labels -> df_get n d = Ok (ColFloat f) ->
         chronological n d = take (argsort key_leb ds) f.
Proof.
  destruct wt_dates as (l & Hg & Hp).
  destruct (normalize_ok d l wt_wf Hg Hp) as (ds & Hm & Hl & Hs & HN).
  exists ds. repeat split; auto.
  - unfold chronological_dates. rewrite HN, df_get_reset.
    rewrite (df_get_take _ _ _ (ColDate ds)) by apply df_get_set_eq.
    reflexivity.
  - intros n f Hn Hf.
    destruct (chronological_take d l n f wt_wf Hg Hp (numeric_not_date n Hn) Hf)
      as (ds' & Hm' & ->).
    congruence.
Qed.

Lemma chronological_length n :
  In n numeric_labels -> length (chronological n d) = nrows d.
Proof.
  intros Hn. destruct wt_normalize as (ds & Hl & _ & _ & _ & Hc).
  destruct (wt_float n Hn) as (f & Hf).
  rewrite (Hc n f Hn Hf), take_length, argsort_length; auto.
  pose proof (wf_get d n _ wt_wf Hf) as Hlen. simpl in Hlen.
  rewrite Hlen, <- Hl.
  apply perm_seq_bound. apply argsort_perm.
Qed.

Lemma chronological_forallb P n :
  In n numeric_labels -> has_float P n d = true ->
  forallb P (chronological n d) = true.
Proof.
  intros Hn HP. destruct wt_normalize as (ds & _ & _ & _ & _ & Hc).
  destruct (has_float_get _ _ _ HP) as (f & Hf & HPf).
  rewrite (Hc n f Hn Hf). now apply forallb_take.
Qed.

Lemma chronological_get n S :
  In n numeric_labels -> normalize d = Ok S ->
  df_get n S = Ok (ColFloat (chronological n d)).
Proof.
  intros Hn HS. destruct wt_normalize as (ds & _ & _ & HN & _ & Hc).
  destruct (wt_float n Hn) as (f & Hf).
  rewrite (Hc n f Hn Hf).
  rewrite HN in HS. inversion HS; subst S. rewrite df_get_reset.
  rewrite (df_get_take _ n _ (ColFloat f)); [reflexivity|].
  rewrite df_get_set_neq; auto using numeric_not_date.
Qed.

Lemma chronological_dates_get S :
  normalize d = Ok S ->
  df_get "Date" S = Ok (ColDate (chronological_dates d)).
Proof.
  intros HS. destruct wt_normalize as (ds & _ & _ & HN & Hd & _).
  rewrite Hd. rewrite HN in HS. inversion HS; subst S.
  rewrite df_get_reset.
  rewrite (df_get_take _ _ _ (ColDate ds)) by apply df_get_set_eq.
  reflexivity.
Qed.

Lemma normalize_index S : normalize d = Ok S -> index S = seq 0 (nrows d).
Proof.
  intros HS. destruct wt_normalize as (ds & Hl & _ & HN & _ & _).
  rewrite HN in HS. inversion HS; subst S. simpl. f_equal.
  unfold nrows; simpl. rewrite take_length, argsort_length; auto.
  fold (nrows d). rewrite <- Hl. apply perm_seq_bound, argsort_perm.
Qed.

Lemma normalize_agree S :
  normalize d = Ok S ->
  agree base_labels S
    (base_frame (chronological_dates d)
       (chronological "open" d) (chronological "high" d)
       (chronological "low" d) (chronological "close" d)
       (chronological "volume" d) (chronological "BuySignal" d)).
Proof.
  intros HS n Hn. simpl in Hn.
  destruct Hn as [<-|Hn].
  { now rewrite (chronological_dates_get S HS). }
  repeat (destruct Hn as [<-|Hn];
          [ rewrite (chronological_get _ S) by (simpl; tauto || auto);
            reflexivity |]).
  destruct Hn.
Qed.

(** The pipeline before pruning succeeds, and its feature columns are
    those of the closed form. *)
Lemma engineer_closed :
  exists E E',
    engineer d = Ok E /\ closed_frame d = Ok E'
    /\ index E = seq 0 (nrows d)
    /\ agree (map fst feature_program) E E'
    /\ (forall n c, In (n, c) (columns E) ->
          (exists S, normalize d = Ok S /\ In (n, c) (columns S))
          \/ (In n (map fst feature_program) /\ df_get n E' = Ok c)).
Proof.
  destruct wt_normalize as (ds & _ & _ & HN & _ & _).
  set (S := reset_index _) in HN.
  assert (HE' : exists E', closed_frame d = Ok E').
  { unfold closed_frame, features_closed. eexists. reflexivity. }
  destruct HE' as (E' & HE').
  pose proof HE' as Hrun. unfold closed_frame in Hrun.
  rewrite <- run_base in Hrun.
  destruct (run_agree _ _ S _ _ feature_program_wellread
              (normalize_agree S HN) Hrun) as (E & HE & HA).
  exists E, E'. repeat split; auto.
  - unfold engineer. rewrite HN. exact HE.
  - rewrite (run_index _ _ _ HE). now apply normalize_index.
  - intros n c Hin.
    destruct (run_columns _ _ _ feature_program_names_nodup HE n c Hin)
      as [H|[H1 H2]].
    + left. eauto.
    + right. split; auto. now rewrite <- (HA n H1).
Qed.
End WellTyped.

Lemma engineer_ok d :
  well_typed d = true ->
  exists E, engineer d = Ok E /\ index E = seq 0 (nrows d).
Proof.
  intros H. destruct (engineer_closed d H) as (E & E' & HE & _ & Hi & _).
  eauto.
Qed.

(** A feature column of the engineered table is the closed-form column. *)
Lemma engineer_get d E n :
  well_typed d = true -> engineer d = Ok E ->
  existsb (String.eqb n) (map fst feature_program) = true ->
  df_get n E = closed_col n d.
Proof.
  intros H HE Hn.
  destruct (engineer_closed d H) as (E0 & E' & HE0 & HE' & _ & HA & _).
  rewrite HE in HE0. inversion HE0; subst E0.
  unfold closed_col. rewrite HE'. simpl. apply HA. now apply In_existsb.
Qed.

(** ** Rows of the series operations *)

Lemma map2_length {A B C} (f : A -> B -> C) a b :
  length (map2 f a b) = Nat.min (length a) (length b).
Proof.
  revert b. induction a as [|x a IH]; intros [|y b]; simpl; auto.
Qed.

Lemma map2_nth {A B C} (f : A -> B -> C) a b i da db dc :
  i < length a -> i < length b ->
  nth i (map2 f a b) dc = f (nth i a da) (nth i b db).
Proof.
  revert b i. induction a as [|x a IH]; intros [|y b] [|i]; simpl;
    intros Ha Hb; try lia; auto.
  apply IH; lia.
Qed.

Lemma nth_map_in {A B} (f : A -> B) l i da db :
  i < length l -> nth i (map f l) db = f (nth i l da).
Proof.
  revert i. induction l as [|x l IH]; intros [|i]; simpl; intros H;
    try lia; auto.
  apply IH. lia.
Qed.

Lemma rolling_length agg w l : length (rolling agg w l) = length l.
Proof. unfold rolling. now rewrite length_map, length_seq. Qed.

Lemma rolling_nth agg w l i :
  i < length l ->
  nth i (rolling agg w l) NaN
  = if i + 1 <? w then NaN else agg (window w i l).
Proof.
  intros Hi. unfold rolling.
  rewrite (nth_map_in _ _ _ 0) by (now rewrite length_seq).
  rewrite seq_nth by auto. reflexivity.
Qed.

(** The window that ends at row [i] holds rows [i - w + 1] to [i]. *)
Lemma window_rows {A} w i (l : list A) dflt :
  i < length l -> w <= i + 1 ->
  window w i l = map (fun k => nth k l dflt) (seq (i + 1 - w) w).
Proof.
  intros Hi Hw. unfold window.
  apply (nth_ext _ _ dflt dflt).
  - rewrite length_firstn, length_skipn, length_map, length_seq. lia.
  - intros k Hk. rewrite length_firstn, length_skipn in Hk.
    rewrite nth_firstn. replace (k <? w) with true by (symmetry; apply Nat.ltb_lt; lia).
    rewrite nth_skipn.
    rewrite (nth_map_in _ _ _ 0) by (rewrite length_seq; lia).
    rewrite seq_nth by lia. reflexivity.
Qed.

Lemma shift_length k l : length (shift k l) = length l.
Proof.
  unfold shift. destruct (0 <=? k)%Z.
  - rewrite length_app, repeat_length, length_firstn. lia.
  - rewrite length_app, repeat_length, length_skipn. lia.
Qed.

Lemma shift_nth_lag k l i :
  i < length l ->
  nth i (shift (Z.of_nat k) l) NaN = if i <? k then NaN else nth (i - k) l NaN.
Proof.
  intros Hi. unfold shift.
  replace (0 <=? Z.of_nat k)%Z with true by (symmetry; apply Z.leb_le; lia).
  rewrite Nat2Z.id.
  destruct (i <? k) eqn:E.
  - apply Nat.ltb_lt in E. rewrite app_nth1 by (rewrite repeat_length; lia).
    apply nth_repeat.
  - apply Nat.ltb_ge in E. rewrite app_nth2 by (rewrite repeat_length; lia).
    rewrite repeat_length.
    replace (Nat.min k (length l)) with k by lia.
    rewrite nth_firstn.
    replace (i - k <? length l - k) with true
      by (symmetry; apply Nat.ltb_lt; lia).
    reflexivity.
Qed.

Lemma shift_nth_lead l i :
  i < length l ->
  nth i (shift (-1) l) NaN = if i + 1 <? length l then nth (i + 1) l NaN else NaN.
Proof.
  intros Hi. unfold shift.
  change (0 <=? -1)%Z with false. change (Z.to_nat (- -1)) with 1. cbv iota zeta.
  replace (Nat.min 1 (length l)) with 1 by lia.
  destruct (i + 1 <? length l) eqn:E.
  - apply Nat.ltb_lt in E.
    rewrite app_nth1 by (rewrite length_skipn; lia).
    rewrite nth_skipn. f_equal. lia.
  - apply Nat.ltb_ge in E.
    rewrite app_nth2 by (rewrite length_skipn; lia).
    rewrite length_skipn. replace (i - (length l - 1)) with 0 by lia.
    reflexivity.
Qed.

(** ** Arithmetic on finite cells *)

Lemma Qzero_b_iff q : Qzero_b q = true <-> (q == 0)%Q.
Proof.
  unfold Qzero_b, Qeq. simpl. rewrite Z.eqb_eq. lia.
Qed.

Lemma Qzero_b_false q : Qzero_b q = false <-> ~ (q == 0)%Q.
Proof.
  rewrite <- Qzero_b_iff. destruct (Qzero_b q); split; congruence.
Qed.

Lemma Qlt_b_iff a b : Qlt_b a b = true <-> (a < b)%Q.
Proof.
  unfold Qlt_b. rewrite negb_true_iff. split.
  - intros H. apply Qnot_le_lt. intros Hle.
    apply Qle_bool_iff in Hle. congruence.
  - intros H. destruct (Qle_bool b a) eqn:E; auto.
    apply Qle_bool_iff in E. exfalso. apply (Qlt_not_le _ _ H E).
Qed.

Lemma forallb_finb l :
  forallb finb l = true -> exists qs, l = map Fin qs.
Proof.
  induction l as [|x t IH]; simpl; intros H.
  - exists []. reflexivity.
  - apply andb_prop in H. destruct H as [Hx Ht].
    destruct (IH Ht) as (qs & ->). destruct x as [| |q]; try discriminate.
    exists (q :: qs). reflexivity.
Qed.

Lemma forallb_impl {A} (P Q : A -> bool) l :
  (forall x, P x = true -> Q x = true) ->
  forallb P l = true -> forallb Q l = true.
Proof.
  intros H. rewrite !forallb_forall. auto.
Qed.

Lemma posb_finb x : posb x = true -> finb x = true.
Proof. destruct x; simpl; auto. Qed.

Lemma existsb_isna_fin qs : existsb isna (map Fin qs) = false.
Proof. induction qs; simpl; auto. Qed.

Lemma fold_fadd_fin qs : forall a,
  exists s, fold_left fadd (map Fin qs) (Fin a) = Fin s /\ (s == a + Qsum qs)%Q.
Proof.
  induction qs as [|q qs IH]; intros a; simpl.
  - exists a. split; auto. ring.
  - destruct (IH (Qred (a + q))) as (s & Hs & Es).
    exists s. split; auto. rewrite Es, Qred_correct. ring.
Qed.

Lemma fsum_fin qs : exists s, fsum (map Fin qs) = Fin s /\ (s == Qsum qs)%Q.
Proof.
  destruct (fold_fadd_fin qs 0) as (s & Hs & Es).
  exists s. split; auto. rewrite Es. ring.
Qed.

Lemma inject_nat_nonzero n : 0 < n -> Qzero_b (inject_Z (Z.of_nat n)) = false.
Proof. intros H. unfold Qzero_b. simpl. apply Z.eqb_neq. lia. Qed.

(** The rolling mean of a window of finite values is their arithmetic mean. *)
Lemma mean_agg_fin qs :
  qs <> [] ->
  exists m, mean_agg (map Fin qs) = Fin m /\ (m == arith_mean qs)%Q.
Proof.
  intros Hne. unfold mean_agg. rewrite existsb_isna_fin.
  destruct (fsum_fin qs) as (s & -> & Es).
  unfold of_nat, of_Z, fdiv. rewrite length_map.
  rewrite inject_nat_nonzero by (destruct qs; simpl; [congruence|lia]).
  eexists. split; [reflexivity|].
  unfold arith_mean. now rewrite Qred_correct, Es.
Qed.

Lemma map_nth_fin qs rows :
  Forall (fun k => k < length qs) rows ->
  map (fun k => nth k (map Fin qs) NaN) rows
  = map Fin (map (fun k => nth k qs 0%Q) rows).
Proof.
  induction 1 as [|k rows Hk _ IH]; simpl; auto.
  rewrite IH. f_equal. now apply nth_map_in.
Qed.

(** ** Validity *)

Lemma valid_well_typed d : valid_input d = true -> well_typed d = true.
Proof.
  unfold valid_input. intros H.
  do 3 (apply andb_prop in H; destruct H as [H _]). exact H.
Qed.

Lemma valid_prices d n :
  valid_input d = true ->
  In n ["open"; "high"; "low"; "close"]%string -> has_float posb n d = true.
Proof.
  unfold valid_input. intros H Hn.
  apply andb_prop in H. destruct H as [H _].
  apply andb_prop in H. destruct H as [H _].
  apply andb_prop in H. destruct H as [_ H].
  rewrite forallb_forall in H. auto.
Qed.

Lemma valid_close_fin d :
  valid_input d = true ->
  exists qs, chronological "close" d = map Fin qs /\ length qs = nrows d.
Proof.
  intros H.
  pose proof (chronological_forallb d (valid_well_typed d H) posb "close") as P.
  assert (Hin : In "close"%string numeric_labels) by (simpl; tauto).
  assert (Hc : has_float posb "close" d = true)
    by (apply valid_prices; simpl; tauto).
  specialize (P Hin Hc).
  destruct (forallb_finb _ (forallb_impl _ _ _ posb_finb P)) as (qs & Hq).
  exists qs. split; auto.
  rewrite <- (chronological_length d (valid_well_typed d H) "close" Hin).
  now rewrite Hq, length_map.
Qed.

(** ** Simple moving averages *)

Lemma sma_rows qs w i :
  0 < w -> i < length qs ->
  let s := rolling mean_agg w (map Fin qs) in
  (i < w - 1 -> nth i s NaN = NaN) /\
  (w - 1 <= i ->
   exists ws,
     map (fun k => nth k (map Fin qs) NaN) (seq (i + 1 - w) w) = map Fin ws
     /\ nth i s NaN =f= Fin (arith_mean ws)).
Proof.
  intros Hw Hi s. unfold s.
  rewrite rolling_nth by (now rewrite length_map). split.
  - intros H. replace (i + 1 <? w) with true; auto.
    symmetry. apply Nat.ltb_lt. lia.
  - intros H. replace (i + 1 <? w) with false
      by (symmetry; apply Nat.ltb_ge; lia).
    rewrite (window_rows w i _ NaN) by (rewrite ?length_map; lia).
    rewrite map_nth_fin.
    2:{ apply Forall_forall. intros k Hk. apply in_seq in Hk. lia. }
    eexists. split; [reflexivity|].
    destruct (mean_agg_fin (map (fun k => nth k qs 0%Q) (seq (i + 1 - w) w)))
      as (m & -> & Hm).
    + destruct w; [lia|]. simpl. discriminate.
    + exact Hm.
Qed.



(** ** Trend flags *)

Lemma sma_defined qs w i :
  0 < w -> w - 1 <= i -> i < length qs ->
  exists m, nth i (rolling mean_agg w (map Fin qs)) NaN = Fin m.
Proof.
  intros Hw Hlo Hi.
  destruct (sma_rows qs w i Hw Hi) as [_ H].
  destruct (H Hlo) as (ws & _ & Hm).
  destruct (nth i (rolling mean_agg w (map Fin qs)) NaN); simpl in Hm;
    try contradiction. eauto.
Qed.

Lemma sma_undefined l w i :
  i < w - 1 -> i < length l -> nth i (rolling mean_agg w l) NaN = NaN.
Proof.
  intros H Hi. rewrite rolling_nth by auto.
  replace (i + 1 <? w) with true; auto. symmetry. apply Nat.ltb_lt. lia.
Qed.

Lemma fgt_nan_r x : fgt x NaN = false.
Proof. destruct x; reflexivity. Qed.

Lemma flag_fin x m :
  ((m < x)%Q -> flag (Fin x) (Fin m) = 1%Z)
  /\ (~ (m < x)%Q -> flag (Fin x) (Fin m) = 0%Z).
Proof.
  unfold flag, fgt. destruct (Qlt_b m x) eqn:E.
  - apply Qlt_b_iff in E. tauto.
  - split; auto. intros H. apply Qlt_b_iff in H. congruence.
Qed.

(** C5, as the code has it: the trend flags are integers, never undefined;
    a flag is 0 at every row where the SMA it refers to is undefined (rows
    before 4 for trend_5, before 19 for trend_20 and golden_cross), and
    where the SMA is defined the flag is 1 if close > SMA(5), close >
    SMA(20), SMA(5) > SMA(20) respectively, and 0 otherwise. *)
Theorem trend_flags_zero_when_sma_undefined d :
  valid_input d = true ->
  exists E t5 t20 gc s5 s20,
    engineer d = Ok E
    /\ df_get "trend_5" E = Ok (ColInt t5)
    /\ df_get "trend_20" E = Ok (ColInt t20)
    /\ df_get "golden_cross" E = Ok (ColInt gc)
    /\ df_get "sma_5" E = Ok (ColFloat s5)
    /\ df_get "sma_20" E = Ok (ColFloat s20)
    /\ length t5 = nrows d /\ length t20 = nrows d /\ length gc = nrows d
    /\ forall i, i < nrows d ->
         (i < 4 -> nth i s5 NaN = NaN /\ nth i t5 1%Z = 0%Z)
         /\ (i < 19 -> nth i s20 NaN = NaN
                       /\ nth i t20 1%Z = 0%Z /\ nth i gc 1%Z = 0%Z)
         /\ (4 <= i -> exists x m,
               nth i (chronological "close" d) NaN = Fin x
               /\ nth i s5 NaN = Fin m
               /\ ((m < x)%Q -> nth i t5 0%Z = 1%Z)
               /\ (~ (m < x)%Q -> nth i t5 0%Z = 0%Z))
         /\ (19 <= i -> exists x m5 m20,
               nth i (chronological "close" d) NaN = Fin x
               /\ nth i s5 NaN = Fin m5 /\ nth i s20 NaN = Fin m20
               /\ ((m20 < x)%Q -> nth i t20 0%Z = 1%Z)
               /\ (~ (m20 < x)%Q -> nth i t20 0%Z = 0%Z)
               /\ ((m20 < m5)%Q -> nth i gc 0%Z = 1%Z)
               /\ (~ (m20 < m5)%Q -> nth i gc 0%Z = 0%Z)).
Proof.
  intros Hv. pose proof (valid_well_typed d Hv) as Hwt.
  destruct (engineer_ok d Hwt) as (E & HE & Hidx).
  destruct (valid_close_fin d Hv) as (qs & Hc & Hlen).
  set (c := chronological "close" d) in *.
  set (f := fun u v => if fgt u v then 1%Z else 0%Z).
  exists E, (map2 f c (rolling mean_agg 5 c)),
    (map2 f c (rolling mean_agg 20 c)),
    (map2 f (rolling mean_agg 5 c) (rolling mean_agg 20 c)),
    (rolling mean_agg 5 c), (rolling mean_agg 20 c).
  split; [exact HE|].
  do 5 (split; [rewrite (engineer_get d E _ Hwt HE) by (vm_compute; reflexivity);
                reflexivity|]).
  subst c. rewrite !Hc. clear Hc.
  set (c := map Fin qs).
  assert (Lc : length c = nrows d) by (unfold c; rewrite length_map; auto).
  split; [rewrite map2_length, rolling_length; lia|].
  split; [rewrite map2_length, rolling_length; lia|].
  split; [rewrite map2_length, !rolling_length; lia|].
  intros i Hi.
  assert (Hx : nth i c NaN = Fin (nth i qs 0%Q)).
  { apply nth_map_in. lia. }
  assert (N : forall (a b : list float), length a = nrows d ->
              length b = nrows d ->
              forall dz, nth i (map2 f a b) dz = flag (nth i a NaN) (nth i b NaN)).
  { intros a b La Lb dz. unfold f. apply map2_nth; lia. }
  pose proof (rolling_length mean_agg 5 c) as L5.
  pose proof (rolling_length mean_agg 20 c) as L20.
  split; [|split; [|split]].
  - intros H4. rewrite N by lia. rewrite sma_undefined by lia.
    split; auto. unfold flag. now rewrite fgt_nan_r.
  - intros H19. rewrite !N by lia. rewrite sma_undefined by lia.
    split; auto. unfold flag. now rewrite !fgt_nan_r.
  - intros H4. destruct (sma_defined qs 5 i) as (m & Hm); try lia.
    fold c in Hm.
    exists (nth i qs 0%Q), m. rewrite N by lia. rewrite Hx, Hm.
    split; auto. split; auto. apply flag_fin.
  - intros H19. destruct (sma_defined qs 5 i) as (m5 & Hm5); try lia.
    destruct (sma_defined qs 20 i) as (m20 & Hm20); try lia.
    fold c in Hm5, Hm20.
    exists (nth i qs 0%Q), m5, m20. rewrite !N by lia. rewrite Hx, Hm5, Hm20.
    split; auto. split; auto. split; auto.
    split; [apply flag_fin|]. split; [apply flag_fin|].
    split; apply flag_fin.
Qed.

Lemma trend_flags_zero_when_sma_undefined_witness :
  valid_input scenario_frame = true
  /\ exists E t5 s5,
       engineer scenario_frame = Ok E
       /\ df_get "trend_5" E = Ok (ColInt t5)
       /\ df_get "sma_5" E = Ok (ColFloat s5)
       /\ nth 0 s5 NaN = NaN /\ nth 0 t5 1%Z = 0%Z.
Proof.
  assert (Hv : valid_input scenario_frame = true) by (vm_compute; reflexivity).
  split; [exact Hv|].
  destruct (trend_flags_zero_when_sma_undefined scenario_frame Hv)
    as (E & t5 & t20 & gc & s5 & s20 & HE & H5 & _ & _ & Hs & _ & _ & _ & _ & H).
  exists E, t5, s5. repeat split; auto.
  - apply (H 0); [vm_compute|]; lia.
  - apply (H 0); [vm_compute|]; lia.
Defined.

(** C5 as stated fails: at row 0 of the scenario table SMA(5) is undefined,
    yet trend_5 holds the integer 0. *)
Lemma trend_flag_defined_where_sma_undefined :
  exists E t5 s5,
    engineer scenario_frame = Ok E
    /\ df_get "trend_5" E = Ok (ColInt t5)
    /\ df_get "sma_5" E = Ok (ColFloat s5)
    /\ nth 0 s5 (Fin 0) = NaN
    /\ col_notna (ColInt t5) 0 = true
    /\ nth 0 t5 1%Z = 0%Z.
Proof.
  assert (Hwt : well_typed scenario_frame = true) by (vm_compute; reflexivity).
  destruct (engineer_ok scenario_frame Hwt) as (E & HE & _).
  exists E. do 2 eexists.
  split; [exact HE|].
  split; [rewrite (engineer_get _ E _ Hwt HE) by (vm_compute; reflexivity);
          reflexivity|].
  split; [rewrite (engineer_get _ E _ Hwt HE) by (vm_compute; reflexivity);
          reflexivity|].
  repeat split.
Qed.

(** ** Exponentially weighted means *)

Lemma ewm_alpha_span span : (ewm_alpha span == span_alpha span)%Q.
Proof.
  unfold ewm_alpha, span_alpha.
  assert (H : ~ (inject_Z (Z.of_nat span) + 1 == 0)%Q).
  { intros E. assert (L : (0 <= inject_Z (Z.of_nat span))%Q).
    { change 0%Q with (inject_Z 0). rewrite <- Zle_Qle. lia. }
    rewrite <- E in L at 1.
    apply (Qle_not_lt _ _ L). rewrite <- (Qplus_0_r (inject_Z (Z.of_nat span))) at 1.
    apply Qplus_lt_r. reflexivity. }
  field. exact H.
Qed.

Lemma feqb_fin_true a b : feqb (Fin a) (Fin b) = true -> (a == b)%Q.
Proof. simpl. apply Qeq_bool_eq. Qed.

Lemma Qzero_b_pos q : (0 < q)%Q -> Qzero_b q = false.
Proof.
  intros H. apply Qzero_b_false. intros E. rewrite E in H.
  apply (Qlt_irrefl _ H).
Qed.

(** One pass of the loop on finite observations: the running value is the
    ratio of the two Horner states. *)
Lemma ewm_loop_horner f xs : forall y ow N W,
  (0 < f)%Q -> (0 < W)%Q -> (y == N / W)%Q -> (ow == W)%Q ->
  Forall2 (fun a b => a =f= Fin b)
          (ewm_loop f (Fin y) ow (map Fin xs)) (horner f N W xs).
Proof.
  induction xs as [|x t IH]; intros y ow N W Hf HW Hy How;
    cbn [map ewm_loop horner isna].
  - constructor.
  - set (ow1 := Qred (ow * f)).
    assert (E1 : (ow1 == f * W)%Q).
    { unfold ow1. rewrite Qred_correct, How. ring. }
    assert (HW' : (0 < f * W + 1)%Q).
    { apply (Qlt_trans _ (f * W)).
      - apply Qmult_lt_0_compat; auto.
      - rewrite <- (Qplus_0_r (f * W)) at 1. apply Qplus_lt_r. reflexivity. }
    assert (Wne : ~ (W == 0)%Q).
    { intros E. rewrite E in HW. apply (Qlt_irrefl _ HW). }
    assert (W'ne : ~ (f * W + 1 == 0)%Q).
    { intros E. rewrite E in HW'. apply (Qlt_irrefl _ HW'). }
    destruct (feqb (Fin y) (Fin x)) eqn:Eq.
    + apply feqb_fin_true in Eq.
      constructor.
      * change (y == (f * N + x) / (f * W + 1))%Q.
        rewrite <- Eq, Hy. field. auto.
      * apply IH; auto.
        -- rewrite <- Eq, Hy. field. auto.
        -- rewrite Qred_correct, E1. reflexivity.
    + assert (Ez : Qzero_b (Qred (ow1 + 1)) = false).
      { apply Qzero_b_pos. rewrite Qred_correct, E1. exact HW'. }
      unfold fdiv, fadd, fmul, fin. rewrite Ez.
      assert (Ev : (Qred (Qred (Qred (ow1 * y) + Qred (1 * x)) / Qred (ow1 + 1))
                    == (f * N + x) / (f * W + 1))%Q).
      { rewrite !Qred_correct, E1, Hy. field. auto. }
      constructor.
      * exact Ev.
      * apply IH; auto.
        rewrite Qred_correct, E1. reflexivity.
Qed.

Lemma Qsum_map_shift (g : nat -> Q) n :
  (Qsum (map g (seq 0 (S n))) == g 0%nat + Qsum (map (fun k => g (S k)) (seq 0 n)))%Q.
Proof.
  simpl. rewrite <- seq_shift, map_map. reflexivity.
Qed.

Lemma Qsum_scale f (g : nat -> Q) l :
  (Qsum (map (fun k => f * g k) l) == f * Qsum (map g l))%Q.
Proof.
  induction l as [|a l IH]; simpl; [ring|]. rewrite IH. ring.
Qed.

Lemma Qsum_ext (g h : nat -> Q) l :
  (forall k, In k l -> (g k == h k)%Q) ->
  (Qsum (map g l) == Qsum (map h l))%Q.
Proof.
  induction l as [|a l IH]; simpl; intros H; [reflexivity|].
  rewrite (H a) by auto. rewrite IH by auto. reflexivity.
Qed.

Lemma Qpower_succ f k : (f ^ Z.of_nat (S k) == f * f ^ Z.of_nat k)%Q.
Proof.
  rewrite Nat2Z.inj_succ.
  replace (Z.succ (Z.of_nat k)) with (1 + Z.of_nat k)%Z by lia.
  rewrite Qpower_plus' by lia. reflexivity.
Qed.

Lemma weighted_sum_0 f xs : (weighted_sum f xs 0%nat == nth 0%nat xs 0)%Q.
Proof. unfold weighted_sum. simpl. ring. Qed.

Lemma weighted_sum_succ f xs i :
  (weighted_sum f xs (S i) == f * weighted_sum f xs i + nth (S i) xs 0)%Q.
Proof.
  unfold weighted_sum. replace (S i + 1) with (S (i + 1)) by lia.
  rewrite Qsum_map_shift. simpl (f ^ Z.of_nat 0)%Q.
  rewrite Nat.sub_0_r.
  rewrite <- Qsum_scale.
  rewrite (Qsum_ext (fun k => f ^ Z.of_nat (S k) * nth (S i - S k) xs 0)%Q
                    (fun k => f * (f ^ Z.of_nat k * nth (i - k) xs 0))%Q).
  - ring.
  - intros k _. rewrite Qpower_succ. simpl (S i - S k). ring.
Qed.

Lemma weight_total_0 f : (weight_total f 0%nat == 1)%Q.
Proof. unfold weight_total. simpl. ring. Qed.

Lemma weight_total_succ f i :
  (weight_total f (S i) == f * weight_total f i + 1)%Q.
Proof.
  unfold weight_total. replace (S i + 1) with (S (i + 1)) by lia.
  rewrite Qsum_map_shift. simpl (f ^ Z.of_nat 0)%Q.
  rewrite <- Qsum_scale.
  rewrite (Qsum_ext (fun k => f ^ Z.of_nat (S k))%Q
                    (fun k => f * f ^ Z.of_nat k)%Q).
  - ring.
  - intros k _. apply Qpower_succ.
Qed.

Lemma skipn_cons_inv {A} n (l : list A) x t d :
  skipn n l = x :: t -> nth n l d = x /\ skipn (S n) l = t.
Proof.
  revert l. induction n as [|n IH]; intros [|y l] H; simpl in *;
    try discriminate.
  - inversion H; auto.
  - apply (IH l H).
Qed.

Lemma horner_nth f qs : forall t i N W,
  skipn (S i) qs = t ->
  (N == weighted_sum f qs i)%Q -> (W == weight_total f i)%Q ->
  forall j, j < length t ->
    (nth j (horner f N W t) 0
     == weighted_sum f qs (S i + j) / weight_total f (S i + j))%Q.
Proof.
  induction t as [|x t IH]; intros i N W Hs HN HW j Hj; simpl in Hj; [lia|].
  destruct (skipn_cons_inv _ _ _ _ 0%Q Hs) as [Hx Ht].
  assert (EN : (f * N + x == weighted_sum f qs (S i))%Q).
  { rewrite weighted_sum_succ, HN, Hx. reflexivity. }
  assert (EW : (f * W + 1 == weight_total f (S i))%Q).
  { rewrite weight_total_succ, HW. reflexivity. }
  destruct j as [|j]; cbn [horner nth].
  - rewrite Nat.add_0_r, EN, EW. reflexivity.
  - rewrite (IH (S i) _ _ Ht EN EW j) by lia.
    replace (S (S i) + j) with (S i + S j) by lia. reflexivity.
Qed.

Lemma Forall2_nth_rel {A B} (R : A -> B -> Prop) l1 l2 da db :
  Forall2 R l1 l2 ->
  length l1 = length l2
  /\ forall j, j < length l1 -> R (nth j l1 da) (nth j l2 db).
Proof.
  induction 1 as [|a b l1 l2 Hab _ [IHl IH]]; simpl.
  - split; auto. intros j Hj. lia.
  - split; [lia|]. intros [|j] Hj; auto. apply IH. lia.
Qed.

Lemma horner_length f xs : forall N W, length (horner f N W xs) = length xs.
Proof. induction xs; intros; simpl; auto. Qed.

Lemma ewm_mean_length span l : length (ewm_mean span l) = length l.
Proof.
  unfold ewm_mean. destruct l as [|x0 rest]; auto. simpl. f_equal.
  generalize (1 - ewm_alpha span)%Q as f. generalize 1%Q as ow.
  generalize x0 as w.
  induction rest as [|x t IH]; intros w ow f; simpl; auto.
  destruct (isna w), (isna x); simpl; now rewrite IH.
Qed.

Lemma weighted_sum_comp f f' xs i :
  (f == f')%Q -> (weighted_sum f xs i == weighted_sum f' xs i)%Q.
Proof.
  intros E. unfold weighted_sum. apply Qsum_ext. intros k _. now rewrite E.
Qed.

Lemma weight_total_comp f f' i :
  (f == f')%Q -> (weight_total f i == weight_total f' i)%Q.
Proof.
  intros E. unfold weight_total. apply Qsum_ext. intros k _. now rewrite E.
Qed.

(** On finite observations [ewm(span).mean()] is the adjusted weighted
    mean with [alpha = 2 / (span + 1)], defined from row 0. *)
Lemma ewm_mean_adjusted span qs i :
  (0 < 1 - ewm_alpha span)%Q -> i < length qs ->
  exists y,
    nth i (ewm_mean span (map Fin qs)) NaN = Fin y
    /\ (y == ema_adjusted (span_alpha span) qs i)%Q.
Proof.
  intros Hf Hi. set (f := (1 - ewm_alpha span)%Q) in *.
  assert (Ef : (f == 1 - span_alpha span)%Q)
    by (unfold f; now rewrite ewm_alpha_span).
  enough (G : exists y, nth i (ewm_mean span (map Fin qs)) NaN = Fin y
                        /\ (y == weighted_sum f qs i / weight_total f i)%Q).
  { destruct G as (y & Hy & Ey). exists y. split; auto.
    unfold ema_adjusted.
    rewrite <- (weighted_sum_comp _ _ qs i Ef), <- (weight_total_comp _ _ i Ef).
    exact Ey. }
  destruct qs as [|x0 rest]; simpl in Hi; [lia|].
  cbn [map ewm_mean]. fold f.
  destruct i as [|i].
  - exists x0. split; [reflexivity|].
    rewrite weighted_sum_0, weight_total_0. simpl. field.
  - cbn [nth].
    assert (F : Forall2 (fun a b => a =f= Fin b)
                  (ewm_loop f (Fin x0) 1 (map Fin rest)) (horner f x0 1 rest)).
    { apply ewm_loop_horner; auto; try reflexivity. field. }
    destruct (Forall2_nth_rel _ _ _ NaN 0%Q F) as [Hl Hn].
    rewrite horner_length in Hl.
    specialize (Hn i ltac:(lia)).
    destruct (nth i (ewm_loop f (Fin x0) 1 (map Fin rest)) NaN) as [| |y];
      simpl in Hn; try contradiction.
    exists y. split; [reflexivity|].
    rewrite Hn.
    rewrite (horner_nth f (x0 :: rest) rest 0 x0 1); try lia.
    + reflexivity.
    + reflexivity.
    + rewrite weighted_sum_0. reflexivity.
    + rewrite weight_total_0. reflexivity.
Qed.

Lemma map_Fin_inj a b : map Fin a = map Fin b -> a = b.
Proof.
  revert b. induction a as [|x a IH]; intros [|y b] H; simpl in H;
    try discriminate; auto.
  inversion H; subst. f_equal. auto.
Qed.

(** C6, as the code has it: for span 12 and 26 the EMA column is defined at
    every row from row 0, its first value is the first close, and its value
    at row i is the adjusted exponentially weighted mean
    sum_k (1-alpha)^k close_(i-k) / sum_k (1-alpha)^k over k = 0..i, with
    alpha = 2/(span+1); it is not the recursion alpha*close_i +
    (1-alpha)*EMA_(i-1). *)
Theorem ema_is_adjusted_weighted_mean d :
  valid_input d = true ->
  exists E qs,
    engineer d = Ok E
    /\ chronological "close" d = map Fin qs
    /\ forall span, In span ema_windows ->
       exists e,
         df_get (fname "ema_" span) E = Ok (ColFloat e)
         /\ length e = nrows d
         /\ (forall i, i < nrows d ->
               exists y, nth i e NaN = Fin y
                         /\ (y == ema_adjusted (span_alpha span) qs i)%Q)
         /\ (0 < nrows d -> nth 0 e NaN = Fin (nth 0 qs 0%Q)).
Proof.
  intros Hv. pose proof (valid_well_typed d Hv) as Hwt.
  destruct (engineer_ok d Hwt) as (E & HE & Hidx).
  destruct (valid_close_fin d Hv) as (qs & Hc & Hlen).
  exists E, qs. split; [exact HE|]. split; [exact Hc|].
  intros span Hs.
  exists (ewm_mean span (chronological "close" d)).
  assert (Hpos : (0 < 1 - ewm_alpha span)%Q).
  { simpl in Hs. destruct Hs as [<-|[<-|[]]]; vm_compute; reflexivity. }
  split.
  { simpl in Hs. destruct Hs as [<-|[<-|[]]];
      (rewrite (engineer_get d E _ Hwt HE) by (vm_compute; reflexivity));
      reflexivity. }
  rewrite Hc. split; [now rewrite ewm_mean_length, length_map|].
  split.
  - intros i Hi. apply ewm_mean_adjusted; auto. lia.
  - intros Hn. destruct qs as [|x0 rest]; simpl in Hlen; [lia|]. reflexivity.
Qed.

Lemma ema_is_adjusted_weighted_mean_witness :
  valid_input scenario_frame = true
  /\ exists E e,
       engineer scenario_frame = Ok E
       /\ df_get "ema_12" E = Ok (ColFloat e)
       /\ exists y, nth 1 e NaN = Fin y
                    /\ (y == (11 + (11 # 13) * 10) / (1 + (11 # 13)))%Q.
Proof.
  assert (Hv : valid_input scenario_frame = true) by (vm_compute; reflexivity).
  split; [exact Hv|].
  destruct (ema_is_adjusted_weighted_mean scenario_frame Hv)
    as (E & qs & HE & Hc & H).
  destruct (H 12 ltac:(simpl; auto)) as (e & He & _ & Hrow & _).
  exists E, e. split; [exact HE|]. split; [exact He|].
  destruct (Hrow 1 ltac:(vm_compute; lia)) as (y & Hy & Ey).
  exists y. split; [exact Hy|]. rewrite Ey.
  assert (Hq : qs = map inject_Z [10; 11; 12; 11; 10; 9; 10; 11; 12; 13;
                                  14; 15; 16; 17; 18; 19; 20; 21; 22; 23]%Z).
  { assert (Hc' : chronological "close" scenario_frame = scenario_closes)
      by (vm_compute; reflexivity).
    rewrite Hc' in Hc. unfold scenario_closes, of_Z in Hc.
    rewrite <- map_map in Hc. symmetry. now apply map_Fin_inj. }
  subst qs. vm_compute. reflexivity.
Defined.

(** C6 as stated fails: on the scenario table EMA(12) at row 1 is 253/24,
    while the recursion of the specification gives 132/13. *)
Lemma ema_differs_from_recursive_mean :
  exists E e qs,
    engineer scenario_frame = Ok E
    /\ df_get "ema_12" E = Ok (ColFloat e)
    /\ chronological "close" scenario_frame = map Fin qs
    /\ nth 1 e NaN = Fin (253 # 24)
    /\ (nth 1 (ema_recursive (span_alpha 12) qs) 0 == 132 # 13)%Q
    /\ ~ (253 # 24 == 132 # 13)%Q.
Proof.
  assert (Hwt : well_typed scenario_frame = true) by (vm_compute; reflexivity).
  destruct (engineer_ok scenario_frame Hwt) as (E & HE & _).
  exists E, (ewm_mean 12 scenario_closes),
    (map inject_Z [10; 11; 12; 11; 10; 9; 10; 11; 12; 13;
                   14; 15; 16; 17; 18; 19; 20; 21; 22; 23]%Z).
  split; [exact HE|].
  split; [rewrite (engineer_get _ E _ Hwt HE) by (vm_compute; reflexivity);
          vm_compute; reflexivity|].
  split; [vm_compute; reflexivity|].
  split; [vm_compute; reflexivity|].
  split; [vm_compute; reflexivity|].
  intros H. vm_compute in H. discriminate.
Qed.

(** ** The relative strength index *)

Lemma diff_length l : length (diff l) = length l.
Proof. unfold diff. rewrite map2_length, shift_length. lia. Qed.

Lemma where_length cond l other :
  length cond = length l -> length (where_ cond l other) = length l.
Proof. intros H. unfold where_. rewrite map2_length. lia. Qed.

Lemma rsi_gain_length w l : length (rsi_gain w l) = length l.
Proof.
  unfold rsi_gain. rewrite rolling_length, where_length.
  - apply diff_length.
  - now rewrite length_map.
Qed.

Lemma rsi_loss_length w l : length (rsi_loss w l) = length l.
Proof.
  unfold rsi_loss. rewrite rolling_length, length_map, where_length.
  - apply diff_length.
  - now rewrite length_map.
Qed.

Lemma calculate_rsi_length w l : length (calculate_rsi w l) = length l.
Proof.
  unfold calculate_rsi. rewrite length_map, map2_length.
  rewrite rsi_gain_length, rsi_loss_length. lia.
Qed.

Lemma calculate_rsi_nth w l i :
  i < length l ->
  nth i (calculate_rsi w l) NaN
  = rsi_of (fdiv (nth i (rsi_gain w l) NaN) (nth i (rsi_loss w l) NaN)).
Proof.
  intros Hi. unfold calculate_rsi.
  rewrite (nth_map_in _ _ _ NaN)
    by (rewrite map2_length, rsi_gain_length, rsi_loss_length; lia).
  f_equal. apply map2_nth; rewrite ?rsi_gain_length, ?rsi_loss_length; auto.
Qed.

(** The value of the RSI when the mean loss is zero: IEEE division gives an
    infinite ratio and the index 100 unless the mean gain is zero too. *)
Lemma rsi_of_zero_loss g l :
  (l == 0)%Q ->
  (~ (g == 0)%Q -> rsi_of (fdiv (Fin g) (Fin l)) = Fin 100)
  /\ ((g == 0)%Q -> rsi_of (fdiv (Fin g) (Fin l)) = NaN).
Proof.
  intros Hl. apply Qzero_b_iff in Hl. unfold fdiv. rewrite Hl. split.
  - intros Hg. apply Qzero_b_false in Hg. rewrite Hg.
    destruct (Qneg_b g); reflexivity.
  - intros Hg. apply Qzero_b_iff in Hg. rewrite Hg. reflexivity.
Qed.

(** C4, as the code has it: at a row where the rolling mean of losses is 0
    and the rolling mean of gains is defined, the RSI is 100 when the mean
    gain is not 0 (the ratio is infinite), and undefined only when the mean
    gain is 0 as well. *)
Theorem rsi_with_zero_mean_loss d :
  valid_input d = true ->
  exists E r,
    engineer d = Ok E
    /\ df_get "rsi" E = Ok (ColFloat r)
    /\ forall i g l,
         i < nrows d ->
         nth i (rsi_gain 14 (chronological "close" d)) NaN = Fin g ->
         nth i (rsi_loss 14 (chronological "close" d)) NaN = Fin l ->
         (l == 0)%Q ->
         (~ (g == 0)%Q -> nth i r NaN = Fin 100)
         /\ ((g == 0)%Q -> nth i r NaN = NaN).
Proof.
  intros Hv. pose proof (valid_well_typed d Hv) as Hwt.
  destruct (engineer_ok d Hwt) as (E & HE & Hidx).
  exists E, (calculate_rsi 14 (chronological "close" d)).
  split; [exact HE|]. split.
  { rewrite (engineer_get d E _ Hwt HE) by (vm_compute; reflexivity).
    reflexivity. }
  intros i g l Hi Hg Hl Hz.
  rewrite calculate_rsi_nth, Hg, Hl.
  - now apply rsi_of_zero_loss.
  - rewrite (chronological_length d Hwt); simpl; auto.
Qed.

Lemma rsi_with_zero_mean_loss_witness :
  valid_input scenario_frame = true
  /\ nth 19 (rsi_gain 14 (chronological "close" scenario_frame)) NaN = Fin 1
  /\ nth 19 (rsi_loss 14 (chronological "close" scenario_frame)) NaN = Fin 0
  /\ exists E r,
       engineer scenario_frame = Ok E
       /\ df_get "rsi" E = Ok (ColFloat r)
       /\ nth 19 r NaN = Fin 100.
Proof.
  assert (Hv : valid_input scenario_frame = true) by (vm_compute; reflexivity).
  assert (Hg : nth 19 (rsi_gain 14 (chronological "close" scenario_frame)) NaN
               = Fin 1) by (vm_compute; reflexivity).
  assert (Hl : nth 19 (rsi_loss 14 (chronological "close" scenario_frame)) NaN
               = Fin 0) by (vm_compute; reflexivity).
  split; [exact Hv|]. split; [exact Hg|]. split; [exact Hl|].
  destruct (rsi_with_zero_mean_loss scenario_frame Hv) as (E & r & HE & Hr & H).
  exists E, r. split; [exact HE|]. split; [exact Hr|].
  apply (H 19 1%Q 0%Q);
    [ vm_compute; lia | exact Hg | exact Hl | reflexivity
    | intros C; vm_compute in C; discriminate ].
Defined.

(** C4 as stated fails: at row 19 of the scenario table the 14 last price
    changes are all gains, the mean loss is 0, the mean gain is defined, and
    the RSI is 100, not undefined. *)
Lemma rsi_is_100_when_mean_loss_is_zero :
  exists E r,
    engineer scenario_frame = Ok E
    /\ df_get "rsi" E = Ok (ColFloat r)
    /\ nth 19 (rsi_loss 14 (chronological "close" scenario_frame)) NaN = Fin 0
    /\ nth 19 (rsi_gain 14 (chronological "close" scenario_frame)) NaN = Fin 1
    /\ nth 19 r NaN = Fin 100
    /\ isna (nth 19 r NaN) = false.
Proof.
  assert (Hwt : well_typed scenario_frame = true) by (vm_compute; reflexivity).
  destruct (engineer_ok scenario_frame Hwt) as (E & HE & _).
  exists E, (calculate_rsi 14 scenario_closes).
  split; [exact HE|].
  split; [rewrite (engineer_get _ E _ Hwt HE) by (vm_compute; reflexivity);
          vm_compute; reflexivity|].
  repeat split; vm_compute; reflexivity.
Qed.

(** ** Finite and positive rows *)

Lemma rows_fin (l : list float) rows :
  (forall j, In j rows -> exists q, nth j l NaN = Fin q) ->
  exists ws, map (fun j => nth j l NaN) rows = map Fin ws
             /\ length ws = length rows.
Proof.
  induction rows as [|j rows IH]; intros H.
  - exists []. auto.
  - destruct IH as (ws & Hws & Hl); [intros; apply H; simpl; auto|].
    destruct (H j) as (q & Hq); [simpl; auto|].
    exists (q :: ws). simpl. rewrite Hq, Hws, Hl. auto.
Qed.

Lemma rows_pos (l : list float) rows :
  (forall j, In j rows -> exists q, nth j l NaN = Fin q /\ (0 < q)%Q) ->
  exists ws, map (fun j => nth j l NaN) rows = map Fin ws
             /\ length ws = length rows /\ Forall (fun q => (0 < q)%Q) ws.
Proof.
  induction rows as [|j rows IH]; intros H.
  - exists []. auto.
  - destruct IH as (ws & Hws & Hl & Hp); [intros; apply H; simpl; auto|].
    destruct (H j) as (q & Hq & Pq); [simpl; auto|].
    exists (q :: ws). simpl. rewrite Hq, Hws, Hl. auto.
Qed.

Section Rows.
Variable n : nat.

Lemma pos_fin k l : pos_from n k l -> fin_from n k l.
Proof.
  intros [Hl H]. split; auto. intros j Hj Hn.
  destruct (H j Hj Hn) as (q & Hq & _). eauto.
Qed.

Lemma forallb_pos_from l :
  forallb posb l = true -> length l = n -> pos_from n 0 l.
Proof.
  intros H Hl. split; auto. intros j _ Hj.
  rewrite forallb_forall in H.
  assert (Hin : In (nth j l NaN) l) by (apply nth_In; lia).
  specialize (H _ Hin). destruct (nth j l NaN) as [| |q]; try discriminate.
  exists q. split; auto. now apply Qlt_b_iff.
Qed.

Lemma forallb_fin_from l :
  forallb finb l = true -> length l = n -> fin_from n 0 l.
Proof.
  intros H Hl. split; auto. intros j _ Hj.
  rewrite forallb_forall in H.
  assert (Hin : In (nth j l NaN) l) by (apply nth_In; lia).
  specialize (H _ Hin). destruct (nth j l NaN) as [| |q]; try discriminate.
  eauto.
Qed.

Lemma fin_map2 op k1 k2 a b :
  (forall x y, exists z, op (Fin x) (Fin y) = Fin z) ->
  fin_from n k1 a -> fin_from n k2 b ->
  fin_from n (Nat.max k1 k2) (map2 op a b).
Proof.
  intros Hop [La Ha] [Lb Hb]. split; [rewrite map2_length; lia|].
  intros j Hj Hn. rewrite (map2_nth op a b j NaN NaN) by lia.
  destruct (Ha j) as (x & ->); try lia.
  destruct (Hb j) as (y & ->); try lia.
  apply Hop.
Qed.

Lemma fadd_fin x y : exists z, fadd (Fin x) (Fin y) = Fin z.
Proof. eexists. reflexivity. Qed.

Lemma fsub_fin x y : exists z, fsub (Fin x) (Fin y) = Fin z.
Proof. eexists. reflexivity. Qed.

Lemma fmul_fin x y : exists z, fmul (Fin x) (Fin y) = Fin z.
Proof. eexists. reflexivity. Qed.

Lemma fdiv_fin_pos x y :
  (0 < y)%Q -> fdiv (Fin x) (Fin y) = Fin (Qred (x / y)).
Proof. intros H. unfold fdiv. now rewrite (Qzero_b_pos y H). Qed.

Lemma fin_div k1 k2 a b :
  fin_from n k1 a -> pos_from n k2 b ->
  fin_from n (Nat.max k1 k2) (map2 fdiv a b).
Proof.
  intros [La Ha] [Lb Hb]. split; [rewrite map2_length; lia|].
  intros j Hj Hn. rewrite (map2_nth fdiv a b j NaN NaN) by lia.
  destruct (Ha j) as (x & ->); try lia.
  destruct (Hb j) as (y & -> & Hy); try lia.
  rewrite fdiv_fin_pos by auto. eauto.
Qed.

Lemma fin_map g k a :
  (forall x, exists z, g (Fin x) = Fin z) ->
  fin_from n k a -> fin_from n k (map g a).
Proof.
  intros Hg [La Ha]. split; [now rewrite length_map|].
  intros j Hj Hn. rewrite (nth_map_in g a j NaN) by lia.
  destruct (Ha j Hj Hn) as (x & ->). apply Hg.
Qed.

Lemma fin_shift p k l :
  fin_from n k l -> fin_from n (k + p) (shift (Z.of_nat p) l).
Proof.
  intros [Hl H]. split; [now rewrite shift_length|].
  intros j Hj Hn. rewrite shift_nth_lag by lia.
  replace (j <? p) with false by (symmetry; apply Nat.ltb_ge; lia).
  apply H; lia.
Qed.

Lemma pos_shift p k l :
  pos_from n k l -> pos_from n (k + p) (shift (Z.of_nat p) l).
Proof.
  intros [Hl H]. split; [now rewrite shift_length|].
  intros j Hj Hn. rewrite shift_nth_lag by lia.
  replace (j <? p) with false by (symmetry; apply Nat.ltb_ge; lia).
  apply H; lia.
Qed.

(** The window at a row past the undefined prefix holds finite values. *)
Lemma window_fin k l w i :
  fin_from n k l -> 0 < w -> k + (w - 1) <= i -> i < n ->
  exists ws, window w i l = map Fin ws /\ length ws = w.
Proof.
  intros [Hl H] Hw Hk Hi.
  rewrite (window_rows w i l NaN) by lia.
  destruct (rows_fin l (seq (i + 1 - w) w)) as (ws & Hws & Hlen).
  - intros j Hj. apply in_seq in Hj. apply H; lia.
  - exists ws. rewrite length_seq in Hlen. auto.
Qed.

Lemma window_pos k l w i :
  pos_from n k l -> 0 < w -> k + (w - 1) <= i -> i < n ->
  exists ws, window w i l = map Fin ws /\ length ws = w
             /\ Forall (fun q => (0 < q)%Q) ws.
Proof.
  intros [Hl H] Hw Hk Hi.
  rewrite (window_rows w i l NaN) by lia.
  destruct (rows_pos l (seq (i + 1 - w) w)) as (ws & Hws & Hlen & Hp).
  - intros j Hj. apply in_seq in Hj. apply H; lia.
  - exists ws. rewrite length_seq in Hlen. auto.
Qed.

Lemma rolling_from agg k l w :
  0 < w -> length l = n ->
  (forall i, k + (w - 1) <= i -> i < n -> exists q, agg (window w i l) = Fin q) ->
  fin_from n (k + (w - 1)) (rolling agg w l).
Proof.
  intros Hw Hl H. split; [now rewrite rolling_length|].
  intros j Hj Hn. rewrite rolling_nth by lia.
  replace (j + 1 <? w) with false by (symmetry; apply Nat.ltb_ge; lia).
  now apply H.
Qed.

Lemma fin_rolling_mean k l w :
  0 < w -> fin_from n k l -> fin_from n (k + (w - 1)) (rolling mean_agg w l).
Proof.
  intros Hw Hf. apply rolling_from; auto; [apply Hf|].
  intros i Hi Hn. destruct (window_fin k l w i Hf Hw Hi Hn) as (ws & -> & Hlen).
  destruct (mean_agg_fin ws) as (m & -> & _); eauto.
  intros ->. simpl in Hlen. lia.
Qed.
End Rows.

Lemma Qsum_nonneg ts : Forall (fun q => (0 <= q)%Q) ts -> (0 <= Qsum ts)%Q.
Proof.
  induction 1 as [|t ts Ht _ IH]; simpl; [apply Qle_refl|].
  rewrite <- (Qplus_0_r 0). now apply Qplus_le_compat.
Qed.

Lemma Qsum_pos_exists ts :
  Forall (fun q => (0 <= q)%Q) ts -> Exists (fun q => (0 < q)%Q) ts ->
  (0 < Qsum ts)%Q.
Proof.
  induction 1 as [|t ts Ht Hts IH]; intros He; inversion He; subst; simpl.
  - rewrite <- (Qplus_0_r 0). apply Qplus_lt_le_compat; auto.
    now apply Qsum_nonneg.
  - rewrite Qplus_comm. rewrite <- (Qplus_0_r 0).
    apply Qplus_lt_le_compat; auto.
Qed.

Lemma Qsum_zero_all ts :
  Forall (fun q => (0 <= q)%Q) ts -> (Qsum ts == 0)%Q ->
  Forall (fun q => (q == 0)%Q) ts.
Proof.
  intros Hn Hz. apply Forall_forall. intros q Hq.
  destruct (Qlt_le_dec 0 q) as [Hlt|Hle].
  - exfalso. assert (L : (0 < Qsum ts)%Q).
    { apply Qsum_pos_exists; auto. apply Exists_exists. eauto. }
    rewrite Hz in L. apply (Qlt_irrefl _ L).
  - rewrite Forall_forall in Hn. apply Qle_antisym; auto.
Qed.

Lemma Qsum_all_zero ts :
  Forall (fun q => (q == 0)%Q) ts -> (Qsum ts == 0)%Q.
Proof.
  induction 1 as [|t ts Ht _ IH]; simpl; [reflexivity|].
  rewrite Ht, IH. ring.
Qed.

Lemma inject_nat_pos w : 0 < w -> (0 < inject_Z (Z.of_nat w))%Q.
Proof.
  intros H. change 0%Q with (inject_Z 0). rewrite <- Zlt_Qlt. lia.
Qed.

Lemma arith_mean_pos ws :
  ws <> [] -> Forall (fun q => (0 < q)%Q) ws -> (0 < arith_mean ws)%Q.
Proof.
  intros Hne Hp. unfold arith_mean. apply Qlt_shift_div_l.
  - apply inject_nat_pos. destruct ws; simpl; [congruence|lia].
  - rewrite Qmult_0_l. apply Qsum_pos_exists.
    + eapply Forall_impl; [|exact Hp]. intros q. apply Qlt_le_weak.
    + destruct ws as [|q ws]; [congruence|]. inversion Hp; subst.
      now constructor.
Qed.

Section RowsMore.
Variable n : nat.

Lemma pos_rolling_mean k l w :
  0 < w -> pos_from n k l -> pos_from n (k + (w - 1)) (rolling mean_agg w l).
Proof.
  intros Hw Hp. split; [rewrite rolling_length; apply Hp|].
  intros j Hj Hn. rewrite rolling_nth by (destruct Hp; lia).
  replace (j + 1 <? w) with false by (symmetry; apply Nat.ltb_ge; lia).
  destruct (window_pos n k l w j Hp Hw Hj Hn) as (ws & -> & Hlen & Hpos).
  assert (Hne : ws <> []) by (intros ->; simpl in Hlen; lia).
  destruct (mean_agg_fin ws Hne) as (m & -> & Hm).
  exists m. split; auto. rewrite Hm. now apply arith_mean_pos.
Qed.

Lemma fold_fmax_fin ws : forall a,
  exists z, fold_left fmax (map Fin ws) (Fin a) = Fin z.
Proof.
  induction ws as [|x ws IH]; intros a; simpl; [eauto|].
  unfold fmax at 2. destruct (fgt (Fin x) (Fin a)); apply IH.
Qed.

Lemma fold_fmin_fin ws : forall a,
  exists z, fold_left fmin (map Fin ws) (Fin a) = Fin z.
Proof.
  induction ws as [|x ws IH]; intros a; simpl; [eauto|].
  unfold fmin at 2. destruct (flt (Fin x) (Fin a)); apply IH.
Qed.

Lemma fin_rolling_max k l w :
  0 < w -> fin_from n k l -> fin_from n (k + (w - 1)) (rolling max_agg w l).
Proof.
  intros Hw Hf. apply rolling_from; auto; [apply Hf|].
  intros i Hi Hn. destruct (window_fin n k l w i Hf Hw Hi Hn) as (ws & -> & Hlen).
  destruct ws as [|x ws]; [simpl in Hlen; lia|].
  unfold max_agg. cbn [map]. rewrite <- (map_cons Fin x ws), existsb_isna_fin.
  cbn [map]. apply fold_fmax_fin.
Qed.

Lemma fin_rolling_min k l w :
  0 < w -> fin_from n k l -> fin_from n (k + (w - 1)) (rolling min_agg w l).
Proof.
  intros Hw Hf. apply rolling_from; auto; [apply Hf|].
  intros i Hi Hn. destruct (window_fin n k l w i Hf Hw Hi Hn) as (ws & -> & Hlen).
  destruct ws as [|x ws]; [simpl in Hlen; lia|].
  unfold min_agg. cbn [map]. rewrite <- (map_cons Fin x ws), existsb_isna_fin.
  cbn [map]. apply fold_fmin_fin.
Qed.

Lemma fin_from_0_map l : fin_from n 0 l -> exists qs, l = map Fin qs.
Proof.
  intros [Hl H]. apply forallb_finb. apply forallb_forall. intros x Hx.
  destruct (In_nth _ _ NaN Hx) as (j & Hj & <-).
  destruct (H j) as (q & ->); try lia. reflexivity.
Qed.

Lemma fin_ewm span l :
  (0 < 1 - ewm_alpha span)%Q ->
  fin_from n 0 l -> fin_from n 0 (ewm_mean span l).
Proof.
  intros Hs Hf. destruct (fin_from_0_map l Hf) as (qs & ->).
  destruct Hf as [Hl _]. split; [now rewrite ewm_mean_length|].
  intros j _ Hj. rewrite length_map in Hl.
  destruct (ewm_mean_adjusted span qs j Hs) as (y & Hy & _); [lia|]. eauto.
Qed.

Lemma ffill_from_fin qs last : ffill_from last (map Fin qs) = map Fin qs.
Proof.
  revert last. induction qs as [|q qs IH]; intros last; simpl; auto.
  now rewrite IH.
Qed.

Lemma fin_pct_change l : pos_from n 0 l -> fin_from n 1 (pct_change l).
Proof.
  intros Hp. pose proof (pos_fin n 0 l Hp) as Hf.
  destruct (fin_from_0_map l Hf) as (qs & ->).
  unfold pct_change, ffill. rewrite ffill_from_fin.
  destruct Hp as [Hl Hp].
  split; [rewrite map2_length, shift_length; lia|].
  intros j Hj Hn.
  rewrite (map2_nth _ _ _ j NaN NaN) by (rewrite ?shift_length; lia).
  change 1%Z with (Z.of_nat 1). rewrite shift_nth_lag by lia.
  replace (j <? 1) with false by (symmetry; apply Nat.ltb_ge; lia).
  destruct (Hp j) as (x & -> & _); try lia.
  destruct (Hp (j - 1)) as (y & -> & Hy); try lia.
  rewrite fdiv_fin_pos by auto. eexists. reflexivity.
Qed.
End RowsMore.

(** ** Gains, losses and their rolling means *)

Lemma rsi_gain_unfold w s : rsi_gain w s = rolling mean_agg w (gains_of s).
Proof. reflexivity. Qed.

Lemma rsi_loss_unfold w s : rsi_loss w s = rolling mean_agg w (losses_of s).
Proof. reflexivity. Qed.

Lemma gains_length s : length (gains_of s) = length s.
Proof.
  unfold gains_of. rewrite where_length; [apply diff_length|].
  now rewrite length_map.
Qed.

Lemma losses_length s : length (losses_of s) = length s.
Proof.
  unfold losses_of. rewrite length_map, where_length; [apply diff_length|].
  now rewrite length_map.
Qed.

Lemma diff_nth_fin qs j :
  j < length qs ->
  nth j (diff (map Fin qs)) NaN
  = if j <? 1 then NaN else Fin (Qred (nth j qs 0 + Qred (- nth (j - 1) qs 0)))%Q.
Proof.
  intros Hj. unfold diff.
  rewrite (map2_nth fsub _ _ j NaN NaN)
    by (rewrite ?shift_length, length_map; lia).
  change 1%Z with (Z.of_nat 1).
  rewrite shift_nth_lag by (rewrite length_map; lia).
  rewrite (nth_map_in Fin qs j 0%Q) by lia.
  destruct (j <? 1) eqn:E; [reflexivity|].
  apply Nat.ltb_ge in E.
  rewrite (nth_map_in Fin qs (j - 1) 0%Q) by lia. reflexivity.
Qed.

Lemma gains_nth qs j :
  j < length qs ->
  exists u, nth j (gains_of (map Fin qs)) NaN = Fin u /\ (0 <= u)%Q
    /\ ((u == 0)%Q <-> (j = 0 \/ (nth j qs 0 <= nth (j - 1) qs 0)%Q)).
Proof.
  intros Hj. unfold gains_of, where_.
  rewrite (map2_nth _ _ _ j false NaN)
    by (rewrite ?length_map, diff_length, length_map; lia).
  rewrite (nth_map_in _ _ j NaN) by (rewrite diff_length, length_map; lia).
  rewrite diff_nth_fin by auto.
  destruct (j <? 1) eqn:E.
  - apply Nat.ltb_lt in E. exists 0%Q. simpl. split; [reflexivity|].
    split; [apply Qle_refl|]. split; [intros; lia|reflexivity].
  - apply Nat.ltb_ge in E.
    set (d := Qred (nth j qs 0 + Qred (- nth (j - 1) qs 0))%Q).
    assert (Ed : (d == nth j qs 0 - nth (j - 1) qs 0)%Q).
    { unfold d. rewrite !Qred_correct. reflexivity. }
    unfold fgt, of_Z. destruct (Qlt_b (inject_Z 0) d) eqn:L.
    + apply Qlt_b_iff in L. change (inject_Z 0) with 0%Q in L.
      exists d. split; auto. split; [now apply Qlt_le_weak|].
      split.
      * intros Z. rewrite Z in L. exfalso. apply (Qlt_irrefl _ L).
      * intros [H0|Hle]; [lia|]. exfalso. rewrite Ed in L.
        apply (Qlt_not_le _ _ L).
        apply (Qplus_le_l _ _ (nth (j - 1) qs 0%Q)). ring_simplify. exact Hle.
    + exists 0%Q. split; [reflexivity|]. split; [apply Qle_refl|].
      split; [|reflexivity]. intros _. right.
      assert (N : ~ (0 < d)%Q).
      { intros H. apply Qlt_b_iff in H. change 0%Q with (inject_Z 0) in H.
        congruence. }
      apply Qnot_lt_le in N. rewrite Ed in N.
      apply (Qplus_le_l _ _ (nth (j - 1) qs 0%Q)) in N. ring_simplify in N.
      exact N.
Qed.

Lemma losses_nth qs j :
  j < length qs ->
  exists u, nth j (losses_of (map Fin qs)) NaN = Fin u /\ (0 <= u)%Q
    /\ ((u == 0)%Q <-> (j = 0 \/ (nth (j - 1) qs 0 <= nth j qs 0)%Q)).
Proof.
  intros Hj. unfold losses_of, where_.
  rewrite (nth_map_in fopp _ j NaN)
    by (rewrite map2_length, length_map, diff_length, length_map; lia).
  rewrite (map2_nth _ _ _ j false NaN)
    by (rewrite ?length_map, diff_length, length_map; lia).
  rewrite (nth_map_in _ _ j NaN) by (rewrite diff_length, length_map; lia).
  rewrite diff_nth_fin by auto.
  destruct (j <? 1) eqn:E.
  - apply Nat.ltb_lt in E. eexists. simpl. split; [reflexivity|].
    split; [vm_compute; discriminate|].
    split; [intros; lia|intros; vm_compute; reflexivity].
  - apply Nat.ltb_ge in E.
    set (d := Qred (nth j qs 0 + Qred (- nth (j - 1) qs 0))%Q).
    assert (Ed : (d == nth j qs 0 - nth (j - 1) qs 0)%Q).
    { unfold d. rewrite !Qred_correct. reflexivity. }
    unfold flt, fgt, of_Z. destruct (Qlt_b d (inject_Z 0)) eqn:L.
    + apply Qlt_b_iff in L. change (inject_Z 0) with 0%Q in L.
      exists (Qred (- d)). split; [reflexivity|].
      assert (P : (0 < - d)%Q).
      { apply (Qplus_lt_l _ _ d). ring_simplify. exact L. }
      rewrite Qred_correct.
      split; [now apply Qlt_le_weak|]. split.
      * intros Z. rewrite Z in P. exfalso. apply (Qlt_irrefl _ P).
      * intros [H0|Hle]; [lia|]. exfalso. rewrite Ed in L.
        apply (Qlt_not_le _ _ L).
        apply (Qplus_le_l _ _ (nth (j - 1) qs 0%Q)). ring_simplify. exact Hle.
    + eexists. split; [reflexivity|].
      split; [vm_compute; discriminate|].
      split; [|intros; vm_compute; reflexivity]. intros _. right.
      assert (N : ~ (d < 0)%Q).
      { intros H. apply Qlt_b_iff in H. change 0%Q with (inject_Z 0) in H.
        congruence. }
      apply Qnot_lt_le in N. rewrite Ed in N.
      apply (Qplus_le_l _ _ (nth (j - 1) qs 0%Q)) in N. ring_simplify in N.
      exact N.
Qed.

Lemma rows_nonneg (l : list float) rows :
  (forall j, In j rows -> exists u, nth j l NaN = Fin u /\ (0 <= u)%Q) ->
  exists ws,
    map (fun j => nth j l NaN) rows = map Fin ws
    /\ length ws = length rows
    /\ Forall (fun q => (0 <= q)%Q) ws
    /\ (Forall (fun q => (q == 0)%Q) ws
        <-> forall j, In j rows -> exists u, nth j l NaN = Fin u /\ (u == 0)%Q).
Proof.
  induction rows as [|j rows IH]; intros H.
  - exists []. repeat split; auto. intros _ j [].
  - destruct IH as (ws & Hws & Hl & Hn & Hz); [intros; apply H; simpl; auto|].
    destruct (H j) as (u & Hu & Pu); [simpl; auto|].
    exists (u :: ws). simpl. rewrite Hu, Hws, Hl.
    split; auto. split; auto. split; [constructor; auto|].
    split.
    + intros F. inversion F; subst. intros k [<-|Hk].
      * eauto.
      * now apply Hz.
    + intros G. constructor.
      * destruct (G j) as (u' & Hu' & Zu'); auto.
        rewrite Hu in Hu'. inversion Hu'; subst. exact Zu'.
      * apply Hz. intros k Hk. apply G. auto.
Qed.

(** The rolling mean of a non-negative series is non-negative, and it is
    zero exactly when every row of its window is zero. *)
Lemma mean_nonneg_rows l w i :
  0 < w -> w - 1 <= i -> i < length l ->
  (forall j, j < length l -> exists u, nth j l NaN = Fin u /\ (0 <= u)%Q) ->
  exists m,
    nth i (rolling mean_agg w l) NaN = Fin m /\ (0 <= m)%Q
    /\ ((m == 0)%Q
        <-> forall j, i + 1 - w <= j -> j <= i ->
              exists u, nth j l NaN = Fin u /\ (u == 0)%Q).
Proof.
  intros Hw Hlo Hi H.
  rewrite rolling_nth by auto.
  replace (i + 1 <? w) with false by (symmetry; apply Nat.ltb_ge; lia).
  rewrite (window_rows w i l NaN) by lia.
  destruct (rows_nonneg l (seq (i + 1 - w) w)) as (ws & -> & Hl & Hn & Hz).
  { intros j Hj. apply in_seq in Hj. apply H. lia. }
  rewrite length_seq in Hl.
  assert (Hne : ws <> []) by (intros ->; simpl in Hl; lia).
  destruct (mean_agg_fin ws Hne) as (m & -> & Hm).
  exists m. split; [reflexivity|].
  assert (Pw : (0 < inject_Z (Z.of_nat (length ws)))%Q)
    by (apply inject_nat_pos; lia).
  assert (Nw : ~ (inject_Z (Z.of_nat (length ws)) == 0)%Q).
  { intros E. rewrite E in Pw. apply (Qlt_irrefl _ Pw). }
  split.
  - rewrite Hm. unfold arith_mean. apply Qle_shift_div_l; auto.
    rewrite Qmult_0_l. now apply Qsum_nonneg.
  - rewrite Hm. unfold arith_mean. split.
    + intros Z j Hj1 Hj2. apply Hz; [|apply in_seq; lia].
      apply Qsum_zero_all; auto.
      rewrite <- (Qmult_div_r (Qsum ws) (inject_Z (Z.of_nat (length ws)))) by auto.
      rewrite Z. ring.
    + intros G.
      assert (F : Forall (fun q => (q == 0)%Q) ws).
      { apply Hz. intros j Hj. apply in_seq in Hj. apply G; lia. }
      rewrite (Qsum_all_zero ws F). field. auto.
Qed.

Lemma rsi_of_fin g l :
  (0 <= g)%Q -> (0 < l)%Q -> exists q, rsi_of (fdiv (Fin g) (Fin l)) = Fin q.
Proof.
  intros Hg Hl. rewrite fdiv_fin_pos by auto.
  set (r := Qred (g / l)).
  assert (E : rsi_of (Fin r)
              = fsub (Fin 100) (fdiv (Fin 100) (Fin (Qred (1 + r)))))
    by reflexivity.
  rewrite E, fdiv_fin_pos.
  - eexists. reflexivity.
  - unfold r. rewrite !Qred_correct.
    apply (Qlt_le_trans _ 1); [reflexivity|].
    rewrite <- (Qplus_0_r 1) at 1.
    apply Qplus_le_r. apply Qle_shift_div_l; auto. now rewrite Qmult_0_l.
Qed.

(** The rows of the RSI of a finite close series. *)
Lemma rsi_rows qs i :
  i < length qs ->
  let r := calculate_rsi 14 (map Fin qs) in
  (i < 13 -> nth i r NaN = NaN)
  /\ (13 <= i ->
      ((exists j, i - 13 <= j /\ j <= i /\ price_changed qs j) ->
       exists q, nth i r NaN = Fin q)
      /\ ((forall j, i - 13 <= j -> j <= i -> ~ price_changed qs j) ->
          nth i r NaN = NaN)).
Proof.
  intros Hi r. unfold r.
  rewrite calculate_rsi_nth by (now rewrite length_map).
  rewrite rsi_gain_unfold, rsi_loss_unfold. split.
  - intros H13.
    rewrite (rolling_nth mean_agg 14 (gains_of _))
      by (now rewrite gains_length, length_map).
    replace (i + 1 <? 14) with true by (symmetry; apply Nat.ltb_lt; lia).
    reflexivity.
  - intros H13.
    destruct (mean_nonneg_rows (gains_of (map Fin qs)) 14 i)
      as (mg & -> & Pg & Zg); try lia.
    { rewrite gains_length, length_map. lia. }
    { intros j Hj. rewrite gains_length, length_map in Hj.
      destruct (gains_nth qs j Hj) as (u & Hu & Pu & _). eauto. }
    destruct (mean_nonneg_rows (losses_of (map Fin qs)) 14 i)
      as (ml & -> & Pl & Zl); try lia.
    { rewrite losses_length, length_map. lia. }
    { intros j Hj. rewrite losses_length, length_map in Hj.
      destruct (losses_nth qs j Hj) as (u & Hu & Pu & _). eauto. }
    replace (i + 1 - 14) with (i - 13) in * by lia.
    split.
    + intros (j & Hj1 & Hj2 & Hj3 & Hne).
      destruct (Qeq_dec ml 0) as [El|Nl].
      * assert (Ng : ~ (mg == 0)%Q).
        { intros Eg.
          destruct (proj1 Zg Eg j Hj1 Hj2) as (u & Hu & Zu).
          destruct (proj1 Zl El j Hj1 Hj2) as (v & Hv & Zv).
          destruct (gains_nth qs j ltac:(lia)) as (u' & Hu' & _ & Iu).
          destruct (losses_nth qs j ltac:(lia)) as (v' & Hv' & _ & Iv).
          rewrite Hu in Hu'. inversion Hu'; subst u'.
          rewrite Hv in Hv'. inversion Hv'; subst v'.
          destruct (proj1 Iu Zu) as [?|L1]; [lia|].
          destruct (proj1 Iv Zv) as [?|L2]; [lia|].
          apply Hne. now apply Qle_antisym. }
        exists 100%Q. now apply rsi_of_zero_loss.
      * apply rsi_of_fin; auto.
        destruct (Qlt_le_dec 0 ml) as [?|Le]; auto.
        exfalso. apply Nl. now apply Qle_antisym.
    + intros Hflat.
      assert (Eg : (mg == 0)%Q).
      { apply Zg. intros j Hj1 Hj2.
        destruct (gains_nth qs j ltac:(lia)) as (u & Hu & _ & Iu).
        exists u. split; auto. apply Iu.
        destruct (Nat.eq_dec j 0) as [?|Hj0]; auto. right.
        destruct (Qeq_dec (nth j qs 0%Q) (nth (j - 1) qs 0%Q)) as [E|N].
        - rewrite E. apply Qle_refl.
        - exfalso. apply (Hflat j Hj1 Hj2). split; [lia|auto]. }
      assert (El : (ml == 0)%Q).
      { apply Zl. intros j Hj1 Hj2.
        destruct (losses_nth qs j ltac:(lia)) as (u & Hu & _ & Iu).
        exists u. split; auto. apply Iu.
        destruct (Nat.eq_dec j 0) as [?|Hj0]; auto. right.
        destruct (Qeq_dec (nth j qs 0%Q) (nth (j - 1) qs 0%Q)) as [E|N].
        - rewrite E. apply Qle_refl.
        - exfalso. apply (Hflat j Hj1 Hj2). split; [lia|auto]. }
      now apply rsi_of_zero_loss.
Qed.

(** C3, as the code has it: the RSI is undefined at rows 0 to 12; at a row
    i >= 13 it is defined when the close changed at one of the rows i-13..i
    and undefined when it did not; the MACD signal is an exponential mean of
    the MACD with no minimum number of periods, so it is defined at every
    row from row 0. *)
Theorem rsi_first_defined_row_and_macd_signal d :
  valid_input d = true ->
  exists E r ms qs,
    engineer d = Ok E
    /\ chronological "close" d = map Fin qs
    /\ df_get "rsi" E = Ok (ColFloat r)
    /\ df_get "macd_signal" E = Ok (ColFloat ms)
    /\ length r = nrows d /\ length ms = nrows d
    /\ forall i, i < nrows d ->
         (i < 13 -> nth i r NaN = NaN)
         /\ (13 <= i ->
             (nth i r NaN = NaN
              <-> forall j, i - 13 <= j -> j <= i -> ~ price_changed qs j))
         /\ (13 <= i ->
             (exists j, i - 13 <= j /\ j <= i /\ price_changed qs j) ->
             exists q, nth i r NaN = Fin q)
         /\ (exists y, nth i ms NaN = Fin y).
Proof.
  intros Hv. pose proof (valid_well_typed d Hv) as Hwt.
  destruct (engineer_ok d Hwt) as (E & HE & Hidx).
  destruct (valid_close_fin d Hv) as (qs & Hc & Hlen).
  exists E, (calculate_rsi 14 (chronological "close" d)),
    (ewm_mean 9 (map2 fsub (ewm_mean 12 (chronological "close" d))
                           (ewm_mean 26 (chronological "close" d)))), qs.
  split; [exact HE|]. split; [exact Hc|].
  do 2 (split; [rewrite (engineer_get d E _ Hwt HE) by (vm_compute; reflexivity);
                reflexivity|]).
  rewrite Hc.
  assert (Fc : fin_from (nrows d) 0 (map Fin qs)).
  { split; [now rewrite length_map|]. intros j _ Hj.
    exists (nth j qs 0%Q). apply nth_map_in. lia. }
  assert (Fm : fin_from (nrows d) 0
                 (ewm_mean 9 (map2 fsub (ewm_mean 12 (map Fin qs))
                                        (ewm_mean 26 (map Fin qs))))).
  { apply fin_ewm; [vm_compute; reflexivity|].
    apply (fin_map2 (nrows d) fsub 0 0); [apply fsub_fin| |];
      (apply fin_ewm; [vm_compute; reflexivity|exact Fc]). }
  split; [now rewrite calculate_rsi_length, length_map|].
  split; [apply Fm|].
  intros i Hi.
  destruct (rsi_rows qs i ltac:(lia)) as [R1 R2].
  split; [exact R1|]. split; [|split].
  - intros H13. destruct (R2 H13) as [Rc Rf]. split; [|exact Rf].
    intros Hnan j Hj1 Hj2 Hch.
    destruct Rc as (q & Hq); [eauto|]. rewrite Hq in Hnan. discriminate.
  - intros H13. apply (R2 H13).
  - apply Fm; lia.
Qed.

Lemma rsi_first_defined_row_and_macd_signal_witness :
  valid_input scenario_frame = true
  /\ exists E r ms,
       engineer scenario_frame = Ok E
       /\ df_get "rsi" E = Ok (ColFloat r)
       /\ df_get "macd_signal" E = Ok (ColFloat ms)
       /\ nth 12 r NaN = NaN
       /\ exists y, nth 0 ms NaN = Fin y.
Proof.
  assert (Hv : valid_input scenario_frame = true) by (vm_compute; reflexivity).
  split; [exact Hv|].
  destruct (rsi_first_defined_row_and_macd_signal scenario_frame Hv)
    as (E & r & ms & qs & HE & _ & Hr & Hm & _ & _ & H).
  exists E, r, ms. split; [exact HE|]. split; [exact Hr|]. split; [exact Hm|].
  destruct (H 12 ltac:(vm_compute; lia)) as (H1 & _ & _ & _).
  destruct (H 0 ltac:(vm_compute; lia)) as (_ & _ & _ & H4).
  split; [apply H1; lia|exact H4].
Defined.

(** C3 as stated fails twice: on the scenario table the MACD signal is
    defined (it is 0) at row 0, and on a table whose close never moves the
    RSI is still undefined at rows 13 and 14. *)
Lemma macd_signal_defined_at_row_0 :
  (exists E ms,
     engineer scenario_frame = Ok E
     /\ df_get "macd_signal" E = Ok (ColFloat ms)
     /\ nth 0 ms NaN = Fin 0)
  /\ (valid_input flat_frame = true
      /\ exists E r,
           engineer flat_frame = Ok E
           /\ df_get "rsi" E = Ok (ColFloat r)
           /\ nth 13 r (Fin 0) = NaN /\ nth 14 r (Fin 0) = NaN).
Proof.
  split.
  - assert (Hwt : well_typed scenario_frame = true) by (vm_compute; reflexivity).
    destruct (engineer_ok scenario_frame Hwt) as (E & HE & _).
    exists E. eexists. split; [exact HE|].
    split; [rewrite (engineer_get _ E _ Hwt HE) by (vm_compute; reflexivity);
            reflexivity|].
    reflexivity.
  - split; [vm_compute; reflexivity|].
    assert (Hwt : well_typed flat_frame = true) by (vm_compute; reflexivity).
    destruct (engineer_ok flat_frame Hwt) as (E & HE & _).
    exists E. eexists. split; [exact HE|].
    split; [rewrite (engineer_get _ E _ Hwt HE) by (vm_compute; reflexivity);
            reflexivity|].
    split; vm_compute; reflexivity.
Qed.

(** ** Normalization of an arbitrary table *)

Lemma to_datetime_inv c c' :
  to_datetime c = Ok c' -> exists ds, c' = ColDate ds.
Proof.
  destruct c as [l|l|l|l]; simpl.
  - destruct (forallb isna l); [|discriminate]. intros H; inversion H; eauto.
  - destruct l; [|discriminate]. intros H; inversion H; eauto.
  - destruct (mapM parse_cell l); simpl; [|discriminate].
    intros H; inversion H; eauto.
  - intros H; inversion H; eauto.
Qed.

Lemma normalize_inv d S :
  normalize d = Ok S ->
  exists c ds,
    df_get "Date" d = Ok c /\ to_datetime c = Ok (ColDate ds)
    /\ S = reset_index (df_take (argsort key_leb ds)
                                (df_set "Date" (ColDate ds) d)).
Proof.
  unfold normalize, exec, eun, col. simpl.
  destruct (df_get "Date" d) as [c|e] eqn:Hg; simpl; [|discriminate].
  destruct (to_datetime c) as [c'|e] eqn:Ht; simpl; [|discriminate].
  destruct (to_datetime_inv _ _ Ht) as (ds & ->).
  unfold sort_values. rewrite df_get_set_eq. simpl.
  intros H; inversion H. eauto.
Qed.

(** A column that the input lacks is still missing after normalization. *)
Lemma normalize_missing d S n e :
  normalize d = Ok S -> n <> "Date"%string ->
  df_get n d = Err e -> df_get n S = Err e.
Proof.
  intros HS Hn He. destruct (normalize_inv d S HS) as (c & ds & _ & _ & ->).
  rewrite df_get_reset. apply df_get_take_err.
  now rewrite df_get_set_neq.
Qed.

Lemma feature_program_split :
  feature_program = program_before_buy_signal ++ [buy_signal_stmt].
Proof. reflexivity. Qed.

Lemma not_assigned n (p : list stmt) :
  existsb (String.eqb n) (map fst p) = false -> ~ In n (map fst p).
Proof.
  intros H Hin. assert (existsb (String.eqb n) (map fst p) = true); [|congruence].
  apply existsb_exists. exists n. split; auto. apply String.eqb_refl.
Qed.

(** A base column of the engineered table is the chronological series. *)
Lemma engineer_get_base d E n :
  well_typed d = true -> engineer d = Ok E -> In n numeric_labels ->
  df_get n E = Ok (ColFloat (chronological n d)).
Proof.
  intros Hwt HE Hn. unfold engineer in HE.
  destruct (normalize d) as [S|] eqn:HS; [|discriminate HE].
  rewrite bind_Ok in HE.
  rewrite (run_untouched n _ _ _ HE).
  - now apply chronological_get.
  - apply not_assigned. simpl in Hn.
    repeat (destruct Hn as [<-|Hn]; [vm_compute; reflexivity|]). destruct Hn.
Qed.

(** ** The buy-signal strength *)

Lemma exec_buy_signal_missing d :
  df_get "BuySignal" d = Err (KeyError "BuySignal") ->
  exec buy_signal_stmt d = Err (KeyError "BuySignal").
Proof.
  intros H. unfold exec, buy_signal_stmt, emul, ebin, col. simpl.
  now rewrite H.
Qed.

(** C9: on an input that has no buy-signal column the statement that
    computes buy_signal_strength fails with the missing-column error (the
    KeyError of the column lookup, which is the SchemaError of the
    specification) and the pipeline returns no table; on an input that has
    the column, buy_signal_strength at each row is buy_signal times
    price_change_pct. *)
Theorem buy_signal_strength_needs_label :
  (forall d,
     df_get "BuySignal" d = Err (KeyError "BuySignal") ->
     (exists e, create_enhanced_stock_data d = Err e)
     /\ (forall S d',
           normalize d = Ok S -> run program_before_buy_signal S = Ok d' ->
           exec buy_signal_stmt d' = Err (KeyError "BuySignal")
           /\ create_enhanced_stock_data d = Err (KeyError "BuySignal")))
  /\ (forall d,
        valid_input d = true ->
        exists E s bs pct,
          engineer d = Ok E
          /\ df_get "buy_signal_strength" E = Ok (ColFloat s)
          /\ df_get "BuySignal" E = Ok (ColFloat bs)
          /\ df_get "price_change_pct" E = Ok (ColFloat pct)
          /\ length s = nrows d
          /\ forall i, i < nrows d ->
               nth i s NaN = fmul (nth i bs NaN) (nth i pct NaN)).
Proof.
  split.
  - intros d Hd.
    assert (G : forall S d',
               normalize d = Ok S -> run program_before_buy_signal S = Ok d' ->
               exec buy_signal_stmt d' = Err (KeyError "BuySignal")
               /\ create_enhanced_stock_data d = Err (KeyError "BuySignal")).
    { intros S d' HS Hrun.
      assert (Hm : df_get "BuySignal" d' = Err (KeyError "BuySignal")).
      { rewrite (run_untouched "BuySignal" _ _ _ Hrun)
          by (apply not_assigned; vm_compute; reflexivity).
        apply (normalize_missing d S); auto. discriminate. }
      pose proof (exec_buy_signal_missing d' Hm) as Hex.
      split; [exact Hex|].
      unfold create_enhanced_stock_data, engineer. rewrite HS, bind_Ok.
      rewrite feature_program_split, run_app, Hrun, bind_Ok.
      change (run [buy_signal_stmt] d')
        with (d2 <- exec buy_signal_stmt d' ;; Ok d2).
      rewrite Hex. reflexivity. }
    split; [|exact G].
    destruct (normalize d) as [S|e] eqn:HS.
    + destruct (run program_before_buy_signal S) as [d'|e] eqn:Hrun.
      * exists (KeyError "BuySignal"). now apply (G S d').
      * exists e. unfold create_enhanced_stock_data, engineer.
        rewrite HS, bind_Ok.
        rewrite feature_program_split, run_app, Hrun. reflexivity.
    + exists e. unfold create_enhanced_stock_data, engineer. rewrite HS.
      reflexivity.
  - intros d Hv. pose proof (valid_well_typed d Hv) as Hwt.
    destruct (engineer_ok d Hwt) as (E & HE & Hidx).
    set (pct := map (fun x => fmul x (of_Z 100))
                 (map2 fdiv (map2 fsub (chronological "close" d)
                                       (chronological "open" d))
                            (chronological "open" d))).
    exists E, (map2 fmul (chronological "BuySignal" d) pct),
      (chronological "BuySignal" d), pct.
    split; [exact HE|].
    split; [rewrite (engineer_get d E _ Hwt HE) by (vm_compute; reflexivity);
            reflexivity|].
    split; [apply engineer_get_base; simpl; auto 10|].
    split; [rewrite (engineer_get d E _ Hwt HE) by (vm_compute; reflexivity);
            reflexivity|].
    assert (Lb : length (chronological "BuySignal" d) = nrows d)
      by (apply chronological_length; simpl; auto 10).
    assert (Lp : length pct = nrows d).
    { unfold pct. rewrite length_map, !map2_length.
      rewrite !(chronological_length d Hwt) by (simpl; auto 10). lia. }
    split; [rewrite map2_length; lia|].
    intros i Hi. apply map2_nth; lia.
Qed.

Lemma buy_signal_strength_needs_label_witness :
  df_get "BuySignal" no_label_frame = Err (KeyError "BuySignal")
  /\ create_enhanced_stock_data no_label_frame = Err (KeyError "BuySignal")
  /\ valid_input scenario_frame = true
  /\ exists E s,
       engineer scenario_frame = Ok E
       /\ df_get "buy_signal_strength" E = Ok (ColFloat s)
       /\ length s = 20.
Proof.
  destruct buy_signal_strength_needs_label as [A B].
  assert (H0 : df_get "BuySignal" no_label_frame = Err (KeyError "BuySignal"))
    by reflexivity.
  split; [exact H0|]. split.
  - destruct (A no_label_frame H0) as [_ G].
    destruct (normalize no_label_frame) as [S|e] eqn:HS;
      [|vm_compute in HS; discriminate].
    destruct (run program_before_buy_signal S) as [d'|e] eqn:Hrun.
    + apply (G S d' eq_refl Hrun).
    + exfalso. vm_compute in HS. inversion HS; subst S.
      vm_compute in Hrun. discriminate.
  - assert (Hv : valid_input scenario_frame = true) by (vm_compute; reflexivity).
    split; [exact Hv|].
    destruct (B scenario_frame Hv) as (E & s & bs & pct & HE & Hs & _ & _ & Hl & _).
    exists E, s. split; [exact HE|]. split; [exact Hs|exact Hl].
Defined.

(** ** Pruning *)

Lemma take_In {A} rows (l : list A) x :
  In x (take rows l) -> exists r, In r rows /\ nth_error l r = Some x.
Proof.
  unfold take. intros H. apply in_flat_map in H. destruct H as (r & Hr & Hx).
  exists r. split; auto.
  destruct (nth_error l r); simpl in Hx; [|contradiction].
  destruct Hx as [->|[]]. reflexivity.
Qed.

Lemma take_seq_id rows n :
  Forall (fun r => r < n) rows -> take rows (seq 0 n) = rows.
Proof.
  unfold take. induction 1 as [|r rows Hr _ IH]; simpl; auto.
  rewrite IH.
  assert (E : nth_error (seq 0 n) r = Some r).
  { rewrite (nth_error_nth' _ 0) by (now rewrite length_seq).
    now rewrite seq_nth. }
  now rewrite E.
Qed.

Lemma filter_seq_bound (f : nat -> bool) n :
  Forall (fun r => r < n) (filter f (seq 0 n)).
Proof.
  apply Forall_forall. intros r Hr. apply filter_In in Hr.
  destruct Hr as [Hr _]. apply in_seq in Hr. lia.
Qed.

Lemma columns_take_In rows d name c :
  In (name, c) (columns (df_take rows d)) ->
  exists c0, In (name, c0) (columns d) /\ c = col_take rows c0.
Proof.
  unfold df_take. simpl. intros H. apply in_map_iff in H.
  destruct H as ([n0 c0] & E & Hin). simpl in E. inversion E; subst.
  eauto.
Qed.

(** Every cell of a column selected at rows without missing cells is
    present. *)
Lemma col_take_notna rows c0 i :
  (forall r, In r rows -> col_notna c0 r = true) ->
  col_notna (col_take rows c0) i = true.
Proof.
  intros H. destruct c0 as [l|l|l|l]; simpl in *; auto.
  - destruct (nth_error (take rows l) i) as [x|] eqn:E; auto.
    apply nth_error_In in E. apply take_In in E.
    destruct E as (r & Hr & Hx). specialize (H r Hr). now rewrite Hx in H.
  - unfold present in *.
    destruct (nth_error (take rows l) i) as [x|] eqn:E; auto.
    apply nth_error_In in E. apply take_In in E.
    destruct E as (r & Hr & Hx). specialize (H r Hr). now rewrite Hx in H.
  - unfold present in *.
    destruct (nth_error (take rows l) i) as [x|] eqn:E; auto.
    apply nth_error_In in E. apply take_In in E.
    destruct E as (r & Hr & Hx). specialize (H r Hr). now rewrite Hx in H.
Qed.

Lemma dropna_defined d name c i :
  In (name, c) (columns (dropna d)) -> col_notna c i = true.
Proof.
  unfold dropna. intros H. apply columns_take_In in H.
  destruct H as (c0 & Hin & ->). apply col_take_notna.
  intros r Hr. apply filter_In in Hr. destruct Hr as [_ Hr].
  unfold row_notna in Hr. rewrite forallb_forall in Hr.
  apply (Hr (name, c0) Hin).
Qed.

Lemma dropna_index d :
  index d = seq 0 (nrows d) ->
  index (dropna d) = filter (row_notna d) (seq 0 (nrows d)).
Proof.
  intros H. unfold dropna, df_take. cbn [index]. rewrite H at 1.
  apply take_seq_id, filter_seq_bound.
Qed.

(** A row with a missing cell is not in the pruned table. *)
Lemma dropna_drops d name c r :
  index d = seq 0 (nrows d) ->
  df_get name d = Ok c -> col_notna c r = false -> ~ In r (index (dropna d)).
Proof.
  intros Hi Hg Hc Hin. rewrite dropna_index in Hin by auto.
  apply filter_In in Hin. destruct Hin as [_ Hr].
  unfold row_notna in Hr. rewrite forallb_forall in Hr.
  specialize (Hr (name, c) (df_get_In _ _ _ Hg)). simpl in Hr. congruence.
Qed.

Lemma mapM_length {A B} (f : A -> result B) l ys :
  mapM f l = Ok ys -> length ys = length l.
Proof.
  revert ys. induction l as [|x t IH]; simpl; intros ys H.
  - inversion H. reflexivity.
  - destruct (f x); simpl in H; [|discriminate].
    destruct (mapM f t); simpl in H; [|discriminate].
    inversion H. simpl. f_equal. now apply IH.
Qed.

Lemma to_datetime_length c ds :
  to_datetime c = Ok (ColDate ds) -> length ds = col_length c.
Proof.
  destruct c as [l|l|l|l]; simpl.
  - destruct (forallb isna l); [|discriminate]. intros H; inversion H.
    now rewrite length_map.
  - destruct l; [|discriminate]. intros H; inversion H. reflexivity.
  - destruct (mapM parse_cell l) eqn:E; simpl; [|discriminate].
    intros H; inversion H; subst. now apply mapM_length in E.
  - intros H; inversion H. reflexivity.
Qed.

Lemma numeric_length c a : numeric c = Ok a -> length a = col_length c.
Proof.
  destruct c; simpl; intros H; inversion H; auto. now rewrite length_map.
Qed.

(** The normalized table of a well formed table: its labels are 0..n-1 and
    every input column other than the dates is the input column reordered. *)
Lemma normalize_wf d S :
  wf d -> normalize d = Ok S ->
  index S = seq 0 (nrows d)
  /\ forall n c, n <> "Date"%string -> df_get n S = Ok c ->
       col_length c = nrows d.
Proof.
  intros Hw HS. destruct (normalize_inv d S HS) as (c0 & ds & Hg & Ht & ->).
  assert (Hl : length ds = nrows d).
  { rewrite (to_datetime_length _ _ Ht). apply (wf_get d _ _ Hw Hg). }
  assert (Hb : Forall (fun i => i < nrows d) (argsort key_leb ds)).
  { rewrite <- Hl. apply perm_seq_bound, argsort_perm. }
  split.
  - unfold reset_index, nrows. cbn [index df_take df_set]. f_equal.
    rewrite take_length, argsort_length; auto.
  - intros n c Hn Hc. rewrite df_get_reset in Hc.
    destruct (df_get n (df_set "Date" (ColDate ds) d)) as [c1|e] eqn:E.
    + rewrite (df_get_take _ _ _ _ E) in Hc. inversion Hc; subst c.
      rewrite df_get_set_neq in E by auto.
      pose proof (wf_get d _ _ Hw E) as L.
      rewrite col_take_length, argsort_length; auto.
      now rewrite L.
    + rewrite (df_get_take_err _ _ _ _ E) in Hc. discriminate.
Qed.

Lemma feature_program_split_targets :
  feature_program
  = (price_features ++ moving_averages ++ indicators ++ lag_features
     ++ level_features ++ time_features ++ trend_features)
    ++ [next_day_return_stmt; buy_signal_stmt].
Proof.
  unfold feature_program, target_features.
  now rewrite <- !app_assoc.
Qed.

Lemma exec_next_day_return d d' :
  exec next_day_return_stmt d = Ok d' ->
  exists c a,
    df_get "close" d = Ok c /\ numeric c = Ok a
    /\ d' = df_set "next_day_return"
              (ColFloat (map (fun x => fsub x (of_Z 1))
                             (map2 fdiv (shift (-1) a) a))) d.
Proof.
  intros H. apply exec_inv in H. destruct H as (v & Hv & ->).
  unfold next_day_return_stmt in *. cbn [fst snd] in *.
  unfold esub_s, ediv, emap, eun, ebin, col in Hv.
  destruct (df_get "close" d) as [c|] eqn:Hc; [|discriminate Hv].
  cbn [bind] in Hv. unfold col_lift, col_binop in Hv.
  destruct (numeric c) as [a|] eqn:Ha; [|discriminate Hv].
  cbn [bind numeric] in Hv. inversion Hv. eauto.
Qed.

(** In every table the pipeline engineers, the last row of next_day_return
    is undefined. *)
Lemma engineer_next_day_return d E :
  wf d -> engineer d = Ok E ->
  index E = seq 0 (nrows d)
  /\ exists l,
       df_get "next_day_return" E = Ok (ColFloat l)
       /\ length l = nrows d
       /\ (0 < nrows d -> nth_error l (nrows d - 1) = Some NaN).
Proof.
  intros Hw HE. unfold engineer in HE.
  destruct (normalize d) as [S|] eqn:HS; [|discriminate HE].
  rewrite bind_Ok in HE.
  destruct (normalize_wf d S Hw HS) as [Hidx Hlen].
  split; [rewrite (run_index _ _ _ HE); exact Hidx|].
  rewrite feature_program_split_targets, run_app in HE.
  destruct (run _ S) as [d1|] eqn:H1; [|discriminate HE].
  rewrite bind_Ok in HE.
  change (run [next_day_return_stmt; buy_signal_stmt] d1)
    with (d2 <- exec next_day_return_stmt d1 ;;
          d3 <- exec buy_signal_stmt d2 ;; Ok d3) in HE.
  destruct (exec next_day_return_stmt d1) as [d2|] eqn:H2; [|discriminate HE].
  rewrite bind_Ok in HE.
  destruct (exec buy_signal_stmt d2) as [d3|] eqn:H3; [|discriminate HE].
  rewrite bind_Ok in HE. inversion HE; subst d3.
  apply exec_inv in H3. destruct H3 as (v3 & _ & ->).
  destruct (exec_next_day_return d1 d2 H2) as (c & a & Hc & Ha & ->).
  rewrite (run_untouched "close" _ _ _ H1) in Hc
    by (apply not_assigned; vm_compute; reflexivity).
  pose proof (Hlen "close"%string c ltac:(discriminate) Hc) as Lc.
  rewrite <- (numeric_length _ _ Ha) in Lc.
  eexists. split.
  { cbn [fst]. rewrite df_get_set_neq by discriminate. apply df_get_set_eq. }
  split.
  { rewrite length_map, map2_length, shift_length. lia. }
  intros Hn.
  rewrite (nth_error_nth' _ NaN)
    by (rewrite length_map, map2_length, shift_length; lia).
  f_equal.
  rewrite (nth_map_in _ _ _ NaN) by (rewrite map2_length, shift_length; lia).
  rewrite (map2_nth fdiv _ _ _ NaN NaN) by (rewrite ?shift_length; lia).
  rewrite shift_nth_lead by lia.
  replace (nrows d - 1 + 1 <? length a) with false
    by (symmetry; apply Nat.ltb_ge; lia).
  reflexivity.
Qed.

Lemma create_inv d out :
  create_enhanced_stock_data d = Ok out ->
  exists E, engineer d = Ok E /\ out = dropna E.
Proof.
  unfold create_enhanced_stock_data.
  destruct (engineer d) as [E|] eqn:HE; [|discriminate].
  rewrite bind_Ok. intros H; inversion H. eauto.
Qed.

(** ** Sorting is independent of the input order *)

Section SortUnique.
Context {K P : Type} (leb : K -> K -> bool).
Hypothesis leb_total : forall a b, leb a b = true \/ leb b a = true.
Hypothesis leb_trans :
  forall a b c, leb a b = true -> leb b c = true -> leb a c = true.
Hypothesis leb_antisym : forall a b, leb a b = true -> leb b a = true -> a = b.

Lemma insert_by_sorted x l :
  StronglySorted (key_le (P:=P) leb) l -> StronglySorted (key_le (P:=P) leb) (insert_by leb x l).
Proof.
  induction 1 as [|y t Ht IH Hy]; simpl.
  - repeat constructor.
  - destruct (leb (fst x) (fst y)) eqn:E.
    + constructor; [constructor; auto|].
      constructor; [exact E|].
      eapply Forall_impl; [|exact Hy]. intros z Hz.
      unfold key_le in *. eapply leb_trans; eauto.
    + constructor; auto.
      assert (Hyx : key_le leb y x).
      { unfold key_le. destruct (leb_total (fst x) (fst y)); congruence. }
      apply Forall_forall. intros z Hz.
      apply (Permutation_in _ (insert_by_perm leb x t)) in Hz.
      destruct Hz as [<-|Hz]; auto.
      rewrite Forall_forall in Hy. auto.
Qed.

Lemma isort_sorted l : StronglySorted (key_le (P:=P) leb) (isort leb l).
Proof.
  induction l as [|x t IH]; simpl; [constructor|].
  now apply insert_by_sorted.
Qed.

Lemma keys_injective (l : list (K * P)) x y :
  NoDup (map fst l) -> In x l -> In y l -> fst x = fst y -> x = y.
Proof.
  induction l as [|z t IH]; simpl; intros Hnd Hx Hy E; [contradiction|].
  inversion Hnd as [|? ? Hz Hnd']; subst.
  destruct Hx as [->|Hx], Hy as [->|Hy]; auto.
  - exfalso. apply Hz. rewrite E. now apply in_map.
  - exfalso. apply Hz. rewrite <- E. now apply in_map.
Qed.

(** Two sorted lists with the same rows and pairwise distinct keys are the
    same list. *)
Lemma sorted_unique l1 : forall l2,
  StronglySorted (key_le (P:=P) leb) l1 -> StronglySorted (key_le (P:=P) leb) l2 ->
  Permutation l1 l2 -> NoDup (map fst l1) -> l1 = l2.
Proof.
  induction l1 as [|a t1 IH]; intros l2 S1 S2 Hp Hnd.
  - apply Permutation_nil in Hp. now subst.
  - destruct l2 as [|b t2].
    { symmetry in Hp. apply Permutation_nil in Hp. discriminate. }
    inversion S1 as [|? ? S1' F1]; subst.
    inversion S2 as [|? ? S2' F2]; subst.
    rewrite Forall_forall in F1, F2.
    assert (Hab : a = b).
    { assert (Ia : In a (b :: t2)) by (apply (Permutation_in _ Hp); simpl; auto).
      assert (Ib : In b (a :: t1))
        by (apply (Permutation_in _ (Permutation_sym Hp)); simpl; auto).
      destruct Ia as [->|Ia]; auto.
      destruct Ib as [->|Ib]; auto.
      apply (keys_injective (a :: t1)); simpl; auto.
      apply leb_antisym; [apply (F1 _ Ib)|apply (F2 _ Ia)]. }
    subst b. f_equal.
    apply IH; auto.
    + now apply Permutation_cons_inv in Hp.
    + now inversion Hnd.
Qed.

Lemma isort_permutation_invariant (l1 l2 : list (K * P)) :
  Permutation l1 l2 -> NoDup (map fst l1) -> isort leb l1 = isort leb l2.
Proof.
  intros Hp Hnd. apply sorted_unique; try apply isort_sorted.
  - rewrite (isort_perm leb l1), Hp. symmetry. apply isort_perm.
  - apply (Permutation_NoDup (l := map fst l1)); auto.
    apply Permutation_map. symmetry. apply isort_perm.
Qed.
End SortUnique.

Lemma insert_by_payload {K P Q} (leb : K -> K -> bool) (f : P -> Q) x l :
  insert_by leb (fst x, f (snd x)) (map (fun p => (fst p, f (snd p))) l)
  = map (fun p => (fst p, f (snd p))) (insert_by leb x l).
Proof.
  induction l as [|y t IH]; simpl; auto.
  destruct (leb (fst x) (fst y)); simpl; auto. now rewrite IH.
Qed.

(** The sort looks at the keys only. *)
Lemma isort_payload {K P Q} (leb : K -> K -> bool) (f : P -> Q) l :
  isort leb (map (fun p => (fst p, f (snd p))) l)
  = map (fun p => (fst p, f (snd p))) (isort leb l).
Proof.
  induction l as [|x t IH]; simpl; auto.
  rewrite IH. apply insert_by_payload.
Qed.

Lemma take_as_map {A} idx (l : list A) dflt :
  Forall (fun i => i < length l) idx ->
  take idx l = map (fun i => nth i l dflt) idx.
Proof.
  unfold take. induction 1 as [|i idx Hi _ IH]; simpl; auto.
  rewrite IH. rewrite (nth_error_nth' _ dflt Hi). reflexivity.
Qed.

Lemma combine_seq_payload {K A} (keys : list K) (l : list A) dflt :
  length l = length keys ->
  combine keys l
  = map (fun p => (fst p, nth (snd p) l dflt))
        (combine keys (seq 0 (length keys))).
Proof.
  intros Hl.
  assert (G : forall k (keys : list K) (t : list A),
             length t = length keys ->
             (forall j, j < length t -> nth (k + j) l dflt = nth j t dflt) ->
             combine keys t
             = map (fun p => (fst p, nth (snd p) l dflt))
                   (combine keys (seq k (length keys)))).
  { clear. intros k keys. revert k.
    induction keys as [|x keys IH]; intros k [|y t] Hlen Hn; simpl in *;
      try discriminate; auto.
    f_equal.
    - f_equal. specialize (Hn 0 ltac:(lia)). rewrite Nat.add_0_r in Hn.
      simpl in Hn. auto.
    - apply IH; [lia|]. intros j Hj.
      specialize (Hn (S j) ltac:(lia)). simpl in Hn.
      replace (S k + j) with (k + S j) by lia. exact Hn. }
  apply G; auto.
Qed.

(** Sorting a column by the keys is sorting the rows (key, cell). *)
Lemma take_argsort {K A} (leb : K -> K -> bool) (keys : list K) (l : list A) :
  length l = length keys ->
  take (argsort leb keys) l = map snd (isort leb (combine keys l)).
Proof.
  intros Hl. destruct l as [|d0 l'] eqn:El.
  { destruct keys; [reflexivity|discriminate]. }
  rewrite <- El in *. clear El l'.
  rewrite (take_as_map _ _ d0).
  2:{ rewrite Hl. apply perm_seq_bound, argsort_perm. }
  unfold argsort. rewrite map_map.
  rewrite (combine_seq_payload keys l d0 Hl).
  pose proof (isort_payload leb (fun i => nth i l d0)
                (combine keys (seq 0 (length keys)))) as E.
  cbv beta in E. rewrite E, map_map. reflexivity.
Qed.

Lemma take_combine {A B} idx (a : list A) (b : list B) :
  length a = length b ->
  take idx (combine a b) = combine (take idx a) (take idx b).
Proof.
  intros Hl. unfold take. induction idx as [|i idx IH]; simpl; auto.
  rewrite IH.
  assert (E : nth_error (combine a b) i
              = match nth_error a i, nth_error b i with
                | Some x, Some y => Some (x, y)
                | _, _ => None
                end).
  { clear - Hl. revert b i Hl. induction a as [|x a IH]; intros [|y b] i Hl;
      simpl in *; try discriminate.
    - destruct i; reflexivity.
    - destruct i; simpl; auto. }
  rewrite E.
  destruct (nth_error a i) as [x|] eqn:Ea, (nth_error b i) as [y|] eqn:Eb;
    simpl; auto.
  - exfalso. apply nth_error_None in Eb.
    assert (i < length a) by (apply nth_error_Some; congruence). lia.
  - exfalso. apply nth_error_None in Ea.
    assert (i < length b) by (apply nth_error_Some; congruence). lia.
Qed.

Lemma map_fst_combine {A B} (a : list A) (b : list B) :
  length a = length b -> map fst (combine a b) = a.
Proof.
  revert b. induction a as [|x a IH]; intros [|y b] H; simpl in *;
    try discriminate; auto.
  f_equal. apply IH. lia.
Qed.

(** Rows given in another order sort to the same rows when the keys are
    pairwise distinct. *)
Lemma sort_take_invariant {K A} (leb : K -> K -> bool)
  (keys : list K) (l : list A) sigma :
  (forall a b, leb a b = true \/ leb b a = true) ->
  (forall a b c, leb a b = true -> leb b c = true -> leb a c = true) ->
  (forall a b, leb a b = true -> leb b a = true -> a = b) ->
  length l = length keys ->
  Permutation sigma (seq 0 (length keys)) -> NoDup keys ->
  take (argsort leb (take sigma keys)) (take sigma l)
  = take (argsort leb keys) l.
Proof.
  intros Htot Htr Has Hl Hp Hnd.
  pose proof (perm_seq_bound _ _ Hp) as Hb.
  assert (Lk : length (take sigma keys) = length sigma)
    by (apply take_length; auto).
  assert (Ll : length (take sigma l) = length sigma)
    by (apply take_length; now rewrite Hl).
  rewrite !take_argsort by congruence.
  rewrite <- take_combine by auto.
  f_equal. apply isort_permutation_invariant; auto.
  - apply take_Permutation. rewrite length_combine, Hl, Nat.min_id. exact Hp.
  - apply (Permutation_NoDup (l := map fst (combine keys l))).
    + apply Permutation_map. symmetry. apply take_Permutation.
      rewrite length_combine, Hl, Nat.min_id. exact Hp.
    + now rewrite map_fst_combine.
Qed.

(** ** The order on dates *)

Lemma date_leb_spec a b :
  date_leb a b = true
  <-> (year a < year b
       \/ (year a = year b
           /\ (month a < month b \/ (month a = month b /\ day a <= day b))))%Z.
Proof.
  unfold date_leb.
  rewrite !orb_true_iff, !andb_true_iff, !orb_true_iff, !andb_true_iff.
  rewrite !Z.ltb_lt, !Z.eqb_eq, Z.leb_le. tauto.
Qed.

Lemma key_leb_total a b : key_leb a b = true \/ key_leb b a = true.
Proof.
  destruct a as [a|], b as [b|]; simpl; auto.
  rewrite !date_leb_spec. lia.
Qed.

Lemma key_leb_trans a b c :
  key_leb a b = true -> key_leb b c = true -> key_leb a c = true.
Proof.
  destruct a as [a|], b as [b|], c as [c|]; simpl; auto; try discriminate.
  rewrite !date_leb_spec. lia.
Qed.

Lemma key_leb_antisym a b :
  key_leb a b = true -> key_leb b a = true -> a = b.
Proof.
  destruct a as [a|], b as [b|]; simpl; auto; try discriminate.
  rewrite !date_leb_spec. intros H1 H2.
  destruct a as [ya ma da], b as [yb mb db]; simpl in *.
  assert (ya = yb /\ ma = mb /\ da = db) as (-> & -> & ->) by lia.
  reflexivity.
Qed.

Lemma key_leb_refl a : key_leb a a = true.
Proof. destruct (key_leb_total a a); auto. Qed.

Lemma distinct_keys_NoDup l : distinct_keys l = true -> NoDup l.
Proof.
  induction l as [|x t IH]; simpl; intros H; [constructor|].
  apply andb_prop in H. destruct H as [Hx Ht]. constructor; auto.
  intros Hin. apply negb_true_iff in Hx.
  assert (E : existsb (fun y => key_leb x y && key_leb y x) t = true).
  { apply existsb_exists. exists x. split; auto.
    now rewrite key_leb_refl. }
  congruence.
Qed.

(** ** Reordered input *)

Lemma assign_col_map_take sigma k c cols :
  assign_col k (col_take sigma c)
    (map (fun nc => (fst nc, col_take sigma (snd nc))) cols)
  = map (fun nc => (fst nc, col_take sigma (snd nc))) (assign_col k c cols).
Proof.
  induction cols as [|[n0 c0] t IH]; simpl; auto.
  destruct (String.eqb k n0); simpl; auto. now rewrite IH.
Qed.

Lemma mapM_take {A B} (f : A -> result B) l ys sigma :
  mapM f l = Ok ys -> mapM f (take sigma l) = Ok (take sigma ys).
Proof.
  intros H.
  assert (N : forall i, match nth_error l i with
                        | Some x => exists y, f x = Ok y /\ nth_error ys i = Some y
                        | None => nth_error ys i = None
                        end).
  { clear sigma. revert ys H. induction l as [|x t IH]; intros ys H i; simpl in H.
    - inversion H. destruct i; reflexivity.
    - destruct (f x) as [y|] eqn:Ey; simpl in H; [|discriminate].
      destruct (mapM f t) as [ys'|] eqn:Et; simpl in H; [|discriminate].
      inversion H; subst. destruct i; simpl; eauto.
      apply (IH ys' eq_refl). }
  unfold take. induction sigma as [|i sigma IH]; simpl; auto.
  specialize (N i). destruct (nth_error l i) as [x|].
  - destruct N as (y & Hy & ->). simpl. rewrite Hy. simpl.
    rewrite IH. reflexivity.
  - rewrite N. simpl. exact IH.
Qed.

Lemma has_dates_parsed d :
  has_dates d = true ->
  exists l, df_get "Date" d = Ok (ColStr l)
            /\ mapM parse_cell l = Ok (parsed_dates d).
Proof.
  intros H. destruct (has_dates_get d H) as (l & Hg & Hp).
  destruct (mapM_parse l Hp) as (ds & Hm & _).
  exists l. split; auto. unfold parsed_dates. rewrite Hg. simpl.
  now rewrite Hm.
Qed.

Lemma col_take_sorted sigma ds c :
  col_length c = length ds ->
  Permutation sigma (seq 0 (length ds)) -> NoDup ds ->
  col_take (argsort key_leb (take sigma ds)) (col_take sigma c)
  = col_take (argsort key_leb ds) c.
Proof.
  intros Hl Hp Hnd.
  destruct c as [l|l|l|l]; simpl in *; f_equal;
    apply sort_take_invariant; auto using key_leb_total, key_leb_antisym;
    apply key_leb_trans.
Qed.

(** Normalization does not depend on the order of the input rows when the
    dates are pairwise distinct. *)
Lemma normalize_reorder d sigma :
  wf d -> has_dates d = true -> NoDup (parsed_dates d) ->
  Permutation sigma (seq 0 (nrows d)) ->
  normalize (reorder sigma d) = normalize d.
Proof.
  intros Hw Hd Hnd Hp.
  destruct (has_dates_parsed d Hd) as (l & Hg & Hm).
  set (ds := parsed_dates d) in *.
  assert (Ll : length ds = nrows d).
  { rewrite (mapM_length _ _ _ Hm). apply (wf_get d _ _ Hw Hg). }
  pose proof (perm_seq_bound _ _ Hp) as Hb.
  assert (N1 : normalize d
               = Ok (reset_index (df_take (argsort key_leb ds)
                                          (df_set "Date" (ColDate ds) d)))).
  { unfold normalize, exec, eun, col. cbn [fst snd]. rewrite Hg, bind_Ok.
    unfold to_datetime. rewrite Hm, !bind_Ok.
    unfold sort_values. now rewrite df_get_set_eq, !bind_Ok. }
  assert (N2 : normalize (reorder sigma d)
               = Ok (reset_index
                       (df_take (argsort key_leb (take sigma ds))
                          (df_set "Date" (ColDate (take sigma ds))
                                  (reorder sigma d))))).
  { unfold normalize, exec, eun, col. cbn [fst snd].
    unfold reorder at 1. rewrite df_get_reset.
    rewrite (df_get_take _ _ _ _ Hg), bind_Ok.
    unfold col_take, to_datetime. rewrite (mapM_take _ _ _ sigma Hm), !bind_Ok.
    unfold sort_values. now rewrite df_get_set_eq, !bind_Ok. }
  rewrite N1, N2. f_equal.
  unfold reset_index, nrows, df_take, df_set, reorder, reset_index.
  cbn [index columns]. f_equal.
  - f_equal. fold (nrows d).
    assert (Ls : length sigma = nrows d).
    { apply Permutation_length in Hp. now rewrite Hp, length_seq. }
    assert (A : length (take sigma (index d)) = nrows d).
    { rewrite take_length; auto. }
    assert (B : length (take sigma ds) = nrows d).
    { rewrite take_length; auto. now rewrite Ll. }
    change (nrows (df_take sigma d)) with (length (take sigma (index d))).
    rewrite A.
    rewrite take_length.
    2:{ rewrite length_seq, <- B. apply perm_seq_bound, argsort_perm. }
    rewrite take_length.
    2:{ fold (nrows d). rewrite <- Ll. apply perm_seq_bound, argsort_perm. }
    now rewrite !argsort_length, B, Ll.
  - change (ColDate (take sigma ds)) with (col_take sigma (ColDate ds)).
    unfold df_take. cbn [columns].
    rewrite assign_col_map_take, map_map. cbn [fst snd].
    apply map_ext_in. intros [n0 c0] Hin. cbn [fst snd]. f_equal.
    apply col_take_sorted; auto; [|now rewrite Ll].
    apply assign_col_In in Hin. destruct Hin as [Hin|[_ ->]].
    + unfold wf in Hw. rewrite Forall_forall in Hw.
      rewrite Ll. apply (Hw _ Hin).
    + reflexivity.
Qed.

(** C8: for records with pairwise distinct dates, any two orders of the
    input rows give the same output table, because normalization sorts the
    rows by date before any feature is computed. *)
Theorem output_independent_of_row_order d sigma1 sigma2 :
  wfb d = true -> has_dates d = true -> NoDup (parsed_dates d) ->
  Permutation sigma1 (seq 0 (nrows d)) ->
  Permutation sigma2 (seq 0 (nrows d)) ->
  normalize (reorder sigma1 d) = normalize (reorder sigma2 d)
  /\ create_enhanced_stock_data (reorder sigma1 d)
     = create_enhanced_stock_data (reorder sigma2 d).
Proof.
  intros Hw Hd Hnd H1 H2. apply wfb_wf in Hw.
  assert (E : normalize (reorder sigma1 d) = normalize (reorder sigma2 d)).
  { now rewrite !normalize_reorder. }
  split; [exact E|].
  unfold create_enhanced_stock_data, engineer. now rewrite E.
Qed.

Lemma output_independent_of_row_order_witness :
  wfb dense_frame = true
  /\ has_dates dense_frame = true
  /\ NoDup (parsed_dates dense_frame)
  /\ Permutation (rev (seq 0 52)) (seq 0 (nrows dense_frame))
  /\ create_enhanced_stock_data (reorder (rev (seq 0 52)) dense_frame)
     = create_enhanced_stock_data (reorder (seq 0 52) dense_frame).
Proof.
  assert (Hw : wfb dense_frame = true) by (vm_compute; reflexivity).
  assert (Hd : has_dates dense_frame = true) by (vm_compute; reflexivity).
  assert (Hn : NoDup (parsed_dates dense_frame))
    by (apply distinct_keys_NoDup; vm_compute; reflexivity).
  assert (H1 : Permutation (rev (seq 0 52)) (seq 0 (nrows dense_frame)))
    by (apply Permutation_sym, Permutation_rev).
  assert (H2 : Permutation (seq 0 52) (seq 0 (nrows dense_frame)))
    by apply Permutation_refl.
  repeat (split; [assumption|]).
  apply (output_independent_of_row_order dense_frame _ _ Hw Hd Hn H1 H2).
Defined.

(** ** Rolling standard deviation *)

Lemma Qneg_b_nonneg q : (0 <= q)%Q -> Qneg_b q = false.
Proof.
  unfold Qneg_b, Qle. simpl. intros H. apply Z.ltb_ge. lia.
Qed.

Lemma Qsqrt_nonneg q : (0 <= Qsqrt q)%Q.
Proof.
  unfold Qsqrt, Qle. simpl. rewrite Z.mul_1_r. apply Z.sqrt_nonneg.
Qed.

Lemma Qsqrt_pos q : (0 < q)%Q -> (0 < Qsqrt q)%Q.
Proof.
  unfold Qsqrt, Qlt. simpl. rewrite !Z.mul_1_r. intros H.
  apply Z.sqrt_pos. nia.
Qed.

Lemma Qsquare_nonneg x : (0 <= x * x)%Q.
Proof.
  destruct (Qlt_le_dec x 0) as [H|H].
  - setoid_replace (x * x)%Q with ((- x) * (- x))%Q by ring.
    apply Qmult_le_0_compat; apply (Qplus_le_l _ _ x); ring_simplify;
      now apply Qlt_le_weak.
  - now apply Qmult_le_0_compat.
Qed.

Lemma Qsquare_pos x : ~ (x == 0)%Q -> (0 < x * x)%Q.
Proof.
  intros Hx. destruct (Qlt_le_dec 0 (x * x)) as [H|H]; auto.
  exfalso. apply Hx.
  assert (E : (x * x == 0)%Q) by (apply Qle_antisym; auto; apply Qsquare_nonneg).
  apply Qmult_integral in E. tauto.
Qed.

(** The sample variance of a window of finite values is finite and
    non-negative, and positive when two of the values differ. *)
Lemma var_agg_fin ws :
  2 <= length ws ->
  exists v, var_agg (map Fin ws) = Fin v /\ (0 <= v)%Q
    /\ ((exists a b, In a ws /\ In b ws /\ ~ (a == b)%Q) -> (0 < v)%Q).
Proof.
  intros Hlen. unfold var_agg. rewrite existsb_isna_fin.
  replace (length (map Fin ws) <=? 1) with false
    by (symmetry; apply Nat.leb_gt; rewrite length_map; lia).
  assert (Hne : ws <> []) by (intros ->; simpl in Hlen; lia).
  destruct (mean_agg_fin ws Hne) as (m & Hm & Em).
  unfold mean_agg in Hm. rewrite existsb_isna_fin in Hm. rewrite Hm.
  set (sq := fun x => Qred (Qred (x + Qred (- m)) * Qred (x + Qred (- m)))%Q).
  assert (Emap : map (fun x => fmul (fsub x (Fin m)) (fsub x (Fin m))) (map Fin ws)
                 = map Fin (map sq ws)).
  { rewrite !map_map. apply map_ext. intros x. reflexivity. }
  rewrite Emap.
  destruct (fsum_fin (map sq ws)) as (s & -> & Es).
  assert (Esq : forall x, (sq x == (x - m) * (x - m))%Q).
  { intros x. unfold sq. rewrite !Qred_correct. ring. }
  assert (Hnn : Forall (fun q => (0 <= q)%Q) (map sq ws)).
  { apply Forall_forall. intros q Hq. apply in_map_iff in Hq.
    destruct Hq as (x & <- & _). rewrite Esq. apply Qsquare_nonneg. }
  assert (Pl : (0 < inject_Z (Z.of_nat (length (map Fin ws) - 1)))%Q).
  { apply inject_nat_pos. rewrite length_map. lia. }
  unfold of_nat, of_Z. rewrite fdiv_fin_pos by exact Pl.
  eexists. split; [reflexivity|]. rewrite Qred_correct, Es. split.
  - apply Qle_shift_div_l; auto. rewrite Qmult_0_l. now apply Qsum_nonneg.
  - intros (a & b & Ha & Hb & Hab).
    apply Qlt_shift_div_l; auto. rewrite Qmult_0_l.
    apply Qsum_pos_exists; auto.
    apply Exists_exists.
    destruct (Qeq_dec a m) as [Eam|Nam].
    + exists (sq b). split; [now apply in_map|].
      rewrite Esq. apply Qsquare_pos. intros Z. apply Hab.
      rewrite Eam. symmetry.
      apply (Qplus_inj_r _ _ (- m)). rewrite Qplus_opp_r.
      exact Z.
    + exists (sq a). split; [now apply in_map|].
      rewrite Esq. apply Qsquare_pos. intros Z. apply Nam.
      apply (Qplus_inj_r _ _ (- m)). rewrite Qplus_opp_r. exact Z.
Qed.

Lemma std_agg_fin ws :
  2 <= length ws ->
  exists sd, std_agg (map Fin ws) = Fin sd /\ (0 <= sd)%Q
    /\ ((exists a b, In a ws /\ In b ws /\ ~ (a == b)%Q) -> (0 < sd)%Q).
Proof.
  intros Hlen. destruct (var_agg_fin ws Hlen) as (v & Hv & Pv & Sv).
  unfold std_agg. rewrite Hv. unfold fsqrt. rewrite (Qneg_b_nonneg v Pv).
  eexists. split; [reflexivity|]. rewrite Qred_correct. split.
  - apply Qsqrt_nonneg.
  - intros H. apply Qsqrt_pos. auto.
Qed.

Lemma fin_rolling_std n k l w :
  2 <= w -> fin_from n k l -> fin_from n (k + (w - 1)) (rolling std_agg w l).
Proof.
  intros Hw Hf. apply rolling_from; auto; [lia|apply Hf|].
  intros i Hi Hn.
  destruct (window_fin n k l w i Hf ltac:(lia) Hi Hn) as (ws & -> & Hlen).
  destruct (std_agg_fin ws) as (sd & -> & _); [lia|]. eauto.
Qed.

(** ** The rows that survive pruning *)

Lemma fin_shift_Z n z k l :
  (0 <= z)%Z -> fin_from n k l -> fin_from n (k + Z.to_nat z) (shift z l).
Proof.
  intros Hz H. rewrite <- (Z2Nat.id z Hz) at 2. now apply fin_shift.
Qed.

Lemma pos_shift_Z n z k l :
  (0 <= z)%Z -> pos_from n k l -> pos_from n (k + Z.to_nat z) (shift z l).
Proof.
  intros Hz H. rewrite <- (Z2Nat.id z Hz) at 2. now apply pos_shift.
Qed.

Lemma fin_ewm_any n span k l :
  (0 < 1 - ewm_alpha span)%Q -> fin_from n k l -> k = 0 ->
  fin_from n 0 (ewm_mean span l).
Proof. intros Hs H ->. now apply fin_ewm. Qed.

Lemma notna_of_nth l r q :
  r < length l -> nth r l NaN = Fin q -> col_notna (ColFloat l) r = true.
Proof.
  intros Hr Hq. simpl. rewrite (nth_error_nth' _ NaN Hr), Hq. reflexivity.
Qed.

Lemma fin_from_notna n k l r :
  fin_from n k l -> k <= r -> r < n -> col_notna (ColFloat l) r = true.
Proof.
  intros [Hl H] Hk Hr. destruct (H r Hk Hr) as (q & Hq).
  apply (notna_of_nth l r q); auto. lia.
Qed.

Lemma dates_present dts r :
  forallb (fun o : option date =>
             match o with Some _ => true | None => false end) dts = true ->
  col_notna (ColDate dts) r = true.
Proof.
  intros H. simpl. unfold present.
  destruct (nth_error dts r) as [[x|]|] eqn:E; auto.
  apply nth_error_In in E. rewrite forallb_forall in H.
  apply (H _ E).
Qed.

Ltac pos_tac :=
  lazymatch goal with
  | |- pos_from _ _ (rolling mean_agg _ _) =>
      eapply pos_rolling_mean; [lia | pos_tac]
  | |- pos_from _ _ (shift _ _) => eapply pos_shift_Z; [lia | pos_tac]
  | |- pos_from _ _ _ => eassumption
  end.

Ltac fin_tac :=
  lazymatch goal with
  | |- fin_from _ _ (map2 fdiv _ _) => eapply fin_div; [fin_tac | pos_tac]
  | |- fin_from _ _ (map2 fsub _ _) =>
      eapply fin_map2; [exact fsub_fin | fin_tac | fin_tac]
  | |- fin_from _ _ (map2 fadd _ _) =>
      eapply fin_map2; [exact fadd_fin | fin_tac | fin_tac]
  | |- fin_from _ _ (map2 fmul _ _) =>
      eapply fin_map2; [exact fmul_fin | fin_tac | fin_tac]
  | |- fin_from _ _ (map _ _) =>
      eapply fin_map; [intros; eexists; reflexivity | fin_tac]
  | |- fin_from _ _ (rolling mean_agg _ _) =>
      eapply fin_rolling_mean; [lia | fin_tac]
  | |- fin_from _ _ (rolling std_agg _ _) =>
      eapply fin_rolling_std; [lia | fin_tac]
  | |- fin_from _ _ (rolling max_agg _ _) =>
      eapply fin_rolling_max; [lia | fin_tac]
  | |- fin_from _ _ (rolling min_agg _ _) =>
      eapply fin_rolling_min; [lia | fin_tac]
  | |- fin_from _ _ (shift _ _) => eapply fin_shift_Z; [lia | fin_tac]
  | |- fin_from _ _ (ewm_mean _ _) =>
      eapply fin_ewm_any; [vm_compute; reflexivity | fin_tac | reflexivity]
  | |- fin_from _ _ (pct_change _) => eapply fin_pct_change; eassumption
  | |- fin_from _ _ _ => first [eassumption | eapply pos_fin; eassumption]
  end.

Section DenseRow.
Variables (n r : nat) (o h l c v bs : list float).
Variables (dts : list (option date)) (qs : list Q).
Hypothesis Hr1 : 49 <= r.
Hypothesis Hr2 : r < n.
Hypothesis Ho : pos_from n 0 o.
Hypothesis Hh : pos_from n 0 h.
Hypothesis Hl : pos_from n 0 l.
Hypothesis Hc : pos_from n 0 c.
Hypothesis Hv : pos_from n 0 v.
Hypothesis Hbs : fin_from n 0 bs.
Hypothesis Hd :
  forallb (fun o : option date =>
             match o with Some _ => true | None => false end) dts = true.
Hypothesis Hqs : c = map Fin qs.
Hypothesis Hmove : exists j, r - 13 <= j /\ j <= r /\ price_changed qs j.

Lemma rsi_defined_row : col_notna (ColFloat (calculate_rsi 14 c)) r = true.
Proof.
  assert (Ln : length qs = n).
  { destruct Hc as [L _]. now rewrite Hqs, length_map in L. }
  destruct (rsi_rows qs r ltac:(lia)) as [_ H].
  destruct (H ltac:(lia)) as [Hdef _].
  destruct (Hdef Hmove) as (q & Hq).
  rewrite Hqs. apply (notna_of_nth _ r q); auto.
  rewrite calculate_rsi_length, length_map. lia.
Qed.

Lemma next_day_return_defined_row :
  r + 1 < n ->
  col_notna
    (ColFloat (map (fun x => fsub x (of_Z 1)) (map2 fdiv (shift (-1) c) c))) r
  = true.
Proof.
  intros Hr3. destruct Hc as [Lc Pc].
  destruct (Pc r ltac:(lia) ltac:(lia)) as (x & Hx & Px).
  destruct (Pc (r + 1) ltac:(lia) ltac:(lia)) as (y & Hy & _).
  eapply notna_of_nth.
  - rewrite length_map, map2_length, shift_length. lia.
  - rewrite (nth_map_in _ _ _ NaN) by (rewrite map2_length, shift_length; lia).
    rewrite (map2_nth fdiv _ _ _ NaN NaN) by (rewrite ?shift_length; lia).
    rewrite shift_nth_lead by lia.
    replace (r + 1 <? length c) with true by (symmetry; apply Nat.ltb_lt; lia).
    rewrite Hx, Hy, fdiv_fin_pos by auto. reflexivity.
Qed.

Lemma std_positive_row :
  exists m sd,
    nth r (rolling mean_agg 20 c) NaN = Fin m
    /\ nth r (rolling std_agg 20 c) NaN = Fin sd /\ (0 < sd)%Q.
Proof.
  assert (Fc : fin_from n 0 c) by (now apply pos_fin).
  assert (Ln : length qs = n).
  { destruct Hc as [L _]. now rewrite Hqs, length_map in L. }
  destruct (fin_rolling_mean n 0 c 20 ltac:(lia) Fc) as [_ Hm].
  destruct (Hm r ltac:(simpl; lia) ltac:(lia)) as (m & Em).
  exists m. rewrite Em.
  rewrite rolling_nth by (destruct Fc; lia).
  replace (r + 1 <? 20) with false by (symmetry; apply Nat.ltb_ge; lia).
  rewrite (window_rows 20 r c NaN) by (destruct Fc; lia).
  rewrite Hqs, map_nth_fin.
  2:{ apply Forall_forall. intros k Hk. apply in_seq in Hk. lia. }
  destruct (std_agg_fin (map (fun k => nth k qs 0%Q) (seq (r + 1 - 20) 20)))
    as (sd & -> & _ & Hpos).
  { rewrite length_map, length_seq. lia. }
  exists sd. split; auto. split; auto. apply Hpos.
  destruct Hmove as (j & Hj1 & Hj2 & Hj3 & Hne).
  exists (nth j qs 0%Q), (nth (j - 1) qs 0%Q).
  split; [|split; auto].
  - apply in_map_iff. exists j. split; auto. apply in_seq. lia.
  - apply in_map_iff. exists (j - 1). split; auto. apply in_seq. lia.
Qed.

Lemma bb_position_defined_row :
  let M := rolling mean_agg 20 c in
  let S2 := map (fun x => fmul x (of_Z 2)) (rolling std_agg 20 c) in
  col_notna
    (ColFloat (map2 fdiv (map2 fsub c (map2 fsub M S2))
                 (map2 fsub (map2 fadd M S2) (map2 fsub M S2)))) r
  = true.
Proof.
  intros M S2.
  destruct Hc as [Lc Pc].
  destruct (Pc r ltac:(lia) ltac:(lia)) as (x & Hx & _).
  destruct std_positive_row as (m & sd & Hm & Hsd & Psd).
  assert (LM : length M = n) by (unfold M; now rewrite rolling_length).
  assert (LS : length S2 = n)
    by (unfold S2; now rewrite length_map, rolling_length).
  assert (ES : nth r S2 NaN = Fin (Qred (sd * inject_Z 2))).
  { unfold S2. rewrite (nth_map_in _ _ _ NaN) by (rewrite rolling_length; lia).
    rewrite Hsd. reflexivity. }
  eapply notna_of_nth.
  - rewrite !map2_length. lia.
  - rewrite (map2_nth fdiv _ _ _ NaN NaN) by (rewrite !map2_length; lia).
    rewrite (map2_nth fsub c _ _ NaN NaN) by (rewrite ?map2_length; lia).
    rewrite (map2_nth fsub (map2 fadd M S2) _ _ NaN NaN)
      by (rewrite ?map2_length; lia).
    rewrite (map2_nth fsub M S2 _ NaN NaN) by lia.
    rewrite (map2_nth fadd M S2 _ NaN NaN) by lia.
    fold M in Hm. rewrite Hm, ES, Hx.
    set (t := Qred (sd * inject_Z 2)).
    assert (Pt : (0 < t)%Q).
    { unfold t. rewrite Qred_correct. apply Qmult_lt_0_compat; auto.
      reflexivity. }
    change (fsub (Fin m) (Fin t)) with (Fin (Qred (m + Qred (- t)))).
    change (fadd (Fin m) (Fin t)) with (Fin (Qred (m + t))).
    change (fsub (Fin (Qred (m + t))) (Fin (Qred (m + Qred (- t)))))
      with (Fin (Qred (Qred (m + t) + Qred (- Qred (m + Qred (- t)))))).
    change (fsub (Fin x) (Fin (Qred (m + Qred (- t)))))
      with (Fin (Qred (x + Qred (- Qred (m + Qred (- t)))))).
    rewrite fdiv_fin_pos; [reflexivity|].
    rewrite !Qred_correct.
    setoid_replace (m + t + - (m + - t))%Q with (t + t)%Q by ring.
    rewrite <- (Qplus_0_r 0). apply Qplus_lt_le_compat; auto.
    now apply Qlt_le_weak.
Qed.

Ltac col_tac :=
  lazymatch goal with
  | |- col_notna (ColInt _) _ = true => reflexivity
  | |- col_notna (ColDate _) _ = true => apply dates_present; exact Hd
  | |- col_notna (ColFloat (calculate_rsi _ _)) _ = true =>
      exact rsi_defined_row
  | |- col_notna (ColFloat (map2 fdiv (map2 fsub _ (map2 fsub _ _)) _)) _ = true =>
      exact bb_position_defined_row
  | |- col_notna (ColFloat _) _ = true =>
      eapply fin_from_notna; [fin_tac | cbn; lia | lia]
  end.

Ltac required_col_tac :=
  lazymatch goal with
  | |- ?a <> ?a -> _ => let H := fresh in intros H; exfalso; apply H; reflexivity
  | |- _ => intros _; col_tac
  end.

(** Every column of the closed form other than next_day_return is defined
    at row [r]. *)
Lemma closed_columns_defined_required E' :
  features_closed dts o h l c v bs = Ok E' ->
  Forall (fun nc => fst nc <> "next_day_return"%string ->
                    col_notna (snd nc) r = true) (columns E').
Proof.
  unfold features_closed. rewrite Hd. intros H. injection H as <-.
  cbn [columns].
  repeat (apply Forall_cons; [cbn [fst snd]; required_col_tac|]).
  apply Forall_nil.
Qed.

(** Before the last row, next_day_return is defined too. *)
Lemma closed_columns_defined E' :
  r + 1 < n ->
  features_closed dts o h l c v bs = Ok E' ->
  Forall (fun nc => col_notna (snd nc) r = true) (columns E').
Proof.
  intros Hr3 H. pose proof (closed_columns_defined_required E' H) as F.
  rewrite Forall_forall in *. intros [name col] Hin. cbn [snd].
  destruct (string_dec name "next_day_return") as [->|Hne].
  - assert (U : col = ColFloat (map (fun x => fsub x (of_Z 1))
                                    (map2 fdiv (shift (-1) c) c))).
    { unfold features_closed in H. injection H as <-.
      cbn [columns] in Hin.
      repeat (destruct Hin as [Hin|Hin];
              [inversion Hin; try discriminate; subst; reflexivity|]).
      destruct Hin. }
    rewrite U. now apply next_day_return_defined_row.
  - apply (F (name, col) Hin). exact Hne.
Qed.
End DenseRow.

Lemma moves_b_spec qs i :
  13 <= i -> i < length qs ->
  moves_b (map Fin qs) i = true ->
  exists j, i - 13 <= j /\ j <= i /\ price_changed qs j.
Proof.
  intros H13 Hi H. unfold moves_b in H. apply existsb_exists in H.
  destruct H as (j & Hj & Hb). apply in_seq in Hj.
  apply andb_prop in Hb. destruct Hb as [H1 H2].
  apply Nat.leb_le in H1. apply negb_true_iff in H2.
  destruct (le_lt_dec j i) as [Hle|Hgt].
  - exists j. split; [lia|]. split; [lia|]. split; [lia|].
    rewrite (nth_map_in Fin qs j 0%Q) in H2 by lia.
    rewrite (nth_map_in Fin qs (j - 1) 0%Q) in H2 by lia.
    simpl in H2. intros E. apply Qeq_bool_iff in E. congruence.
  - exfalso. lia.
Qed.

Lemma filter_all_false {A} (f : A -> bool) l :
  (forall x, In x l -> f x = false) -> filter f l = [].
Proof.
  induction l as [|x t IH]; simpl; intros H; auto.
  rewrite (H x) by auto. apply IH. auto.
Qed.

Lemma filter_all_true {A} (f : A -> bool) l :
  (forall x, In x l -> f x = true) -> filter f l = l.
Proof.
  induction l as [|x t IH]; simpl; intros H; auto.
  rewrite (H x) by auto. f_equal. apply IH. auto.
Qed.

(** Filtering 0..n-1 with a test that holds exactly on [a, b). *)
Lemma filter_seq_range (f : nat -> bool) n a b :
  a <= b -> b <= n ->
  (forall r, r < n -> (f r = true <-> a <= r /\ r < b)) ->
  filter f (seq 0 n) = seq a (b - a).
Proof.
  intros Hab Hbn H.
  replace n with (a + ((b - a) + (n - b))) at 1 by lia.
  rewrite !seq_app, !filter_app. simpl (0 + a).
  rewrite filter_all_false, filter_all_true, filter_all_false.
  - now rewrite app_nil_r.
  - intros r Hr. apply in_seq in Hr.
    destruct (f r) eqn:E; auto. apply H in E; lia.
  - intros r Hr. apply in_seq in Hr. apply H; lia.
  - intros r Hr. apply in_seq in Hr.
    destruct (f r) eqn:E; auto. apply H in E; lia.
Qed.

Section Dense.
Variable d : DataFrame.
Hypothesis Hdense : dense_input d = true.

Lemma dense_valid : valid_input d = true.
Proof.
  unfold dense_input in Hdense.
  do 3 (apply andb_prop in Hdense; destruct Hdense as [Hdense _]).
  exact Hdense.
Qed.

Lemma dense_volume : has_float posb "volume" d = true.
Proof.
  unfold dense_input in Hdense.
  do 2 (apply andb_prop in Hdense; destruct Hdense as [Hdense _]).
  apply andb_prop in Hdense. tauto.
Qed.

Lemma dense_complete : complete d = true.
Proof.
  unfold dense_input in Hdense.
  apply andb_prop in Hdense; destruct Hdense as [Hdense _].
  apply andb_prop in Hdense. tauto.
Qed.

Lemma dense_moves : close_moves d = true.
Proof. unfold dense_input in Hdense. apply andb_prop in Hdense. tauto. Qed.

Lemma dense_pos n0 :
  In n0 ["open"; "high"; "low"; "close"; "volume"]%string ->
  pos_from (nrows d) 0 (chronological n0 d).
Proof.
  intros Hin. pose proof (valid_well_typed d dense_valid) as Hwt.
  assert (Hnum : In n0 numeric_labels).
  { simpl in *. tauto. }
  apply forallb_pos_from.
  - apply chronological_forallb; auto.
    simpl in Hin. destruct Hin as [<-|[<-|[<-|[<-|[<-|[]]]]]];
      try (apply valid_prices; [exact dense_valid|simpl; tauto]).
    exact dense_volume.
  - now apply chronological_length.
Qed.

Lemma dense_label : fin_from (nrows d) 0 (chronological "BuySignal" d).
Proof.
  pose proof (valid_well_typed d dense_valid) as Hwt.
  assert (Hnum : In "BuySignal"%string numeric_labels) by (simpl; tauto).
  apply forallb_fin_from.
  - apply chronological_forallb; auto.
    pose proof dense_valid as Hv. unfold valid_input in Hv.
    apply andb_prop in Hv. tauto.
  - now apply chronological_length.
Qed.

Lemma dense_dates :
  forallb (fun o : option date =>
             match o with Some _ => true | None => false end)
          (chronological_dates d) = true.
Proof.
  pose proof (valid_well_typed d dense_valid) as Hwt.
  destruct (wt_normalize d Hwt) as (ds & _ & Hs & _ & -> & _).
  now apply forallb_take.
Qed.

(** The columns of the normalized table have no missing cell. *)
Lemma dense_normalized_defined S name col r :
  normalize d = Ok S -> In (name, col) (columns S) -> col_notna col r = true.
Proof.
  intros HS Hin. pose proof (valid_well_typed d dense_valid) as Hwt.
  destruct (wt_normalize d Hwt) as (ds & Hl & Hs & HN & _ & _).
  rewrite HN in HS. inversion HS; subst S. clear HS.
  unfold reset_index in Hin. cbn [columns] in Hin.
  apply columns_take_In in Hin. destruct Hin as (c0 & Hin & ->).
  apply col_take_notna. intros r' Hr'.
  assert (Hb : r' < nrows d).
  { pose proof (perm_seq_bound _ _ (argsort_perm key_leb ds)) as B.
    rewrite Forall_forall in B. rewrite <- Hl. now apply B. }
  unfold df_set in Hin. cbn [columns] in Hin.
  apply assign_col_In in Hin. destruct Hin as [Hin|[_ ->]].
  - pose proof dense_complete as Hc. unfold complete in Hc.
    rewrite forallb_forall in Hc.
    specialize (Hc r' ltac:(apply in_seq; lia)).
    unfold row_notna in Hc. rewrite forallb_forall in Hc.
    apply (Hc _ Hin).
  - now apply dates_present.
Qed.

(** The rows of the engineered table without an undefined value are the
    rows 49 to n-2; the last row has none in a required column. *)
Lemma dense_rows :
  exists E,
    engineer d = Ok E /\ index E = seq 0 (nrows d)
    /\ (forall r, r < nrows d ->
          (row_notna E r = true <-> 49 <= r /\ r + 1 < nrows d))
    /\ (forall r, 49 <= r -> r < nrows d -> row_required_notna E r = true).
Proof.
  pose proof dense_valid as Hv.
  pose proof (valid_well_typed d Hv) as Hwt.
  destruct (engineer_closed d Hwt) as (E & E' & HE & HE' & Hidx & HA & Hcols).
  destruct (valid_close_fin d Hv) as (qs & Hqs & Lqs).
  exists E. split; [exact HE|]. split; [exact Hidx|].
  assert (Hmove : forall r, 49 <= r -> r < nrows d ->
            exists j, r - 13 <= j /\ j <= r /\ price_changed qs j).
  { intros r H1 H2. pose proof dense_moves as Hm. unfold close_moves in Hm.
    rewrite forallb_forall in Hm.
    specialize (Hm r ltac:(apply in_seq; lia)). rewrite Hqs in Hm.
    apply moves_b_spec; auto; lia. }
  assert (Hreq : forall r name col, 49 <= r -> r < nrows d ->
            In (name, col) (columns E) -> name <> "next_day_return"%string ->
            col_notna col r = true).
  { intros r name col H1 H2 Hin Hne.
    destruct (Hcols name col Hin) as [(S & HS & HinS)|[Hn Hg]].
    - exact (dense_normalized_defined S name col r HS HinS).
    - pose proof (closed_columns_defined_required (nrows d) r
                    (chronological "open" d) (chronological "high" d)
                    (chronological "low" d) (chronological "close" d)
                    (chronological "volume" d) (chronological "BuySignal" d)
                    (chronological_dates d) qs H1 H2
                    (dense_pos "open" ltac:(simpl; tauto))
                    (dense_pos "high" ltac:(simpl; tauto))
                    (dense_pos "low" ltac:(simpl; tauto))
                    (dense_pos "close" ltac:(simpl; tauto))
                    (dense_pos "volume" ltac:(simpl; tauto))
                    dense_label dense_dates Hqs (Hmove r H1 H2) E' HE') as F.
      rewrite Forall_forall in F.
      apply (F (name, col) (df_get_In _ _ _ Hg) Hne). }
  split.
  - intros r Hr. split.
    + intros Hrow. unfold row_notna in Hrow. rewrite forallb_forall in Hrow.
      split.
      * destruct (le_lt_dec 49 r) as [?|Hlt]; auto. exfalso.
        assert (G : df_get "sma_50" E
                    = Ok (ColFloat (rolling mean_agg 50 (chronological "close" d)))).
        { rewrite (engineer_get d E _ Hwt HE) by (vm_compute; reflexivity).
          reflexivity. }
        specialize (Hrow _ (df_get_In _ _ _ G)). cbn [snd col_notna] in Hrow.
        assert (Lc : length (chronological "close" d) = nrows d)
          by (rewrite Hqs, length_map; exact Lqs).
        rewrite (nth_error_nth' _ NaN) in Hrow by (rewrite rolling_length; lia).
        rewrite sma_undefined in Hrow by lia. discriminate.
      * destruct (le_lt_dec (nrows d) (r + 1)) as [Hge|?]; auto. exfalso.
        destruct (engineer_next_day_return d E (wt_wf d Hwt) HE)
          as (_ & l & Hl & _ & Hlast).
        specialize (Hrow _ (df_get_In _ _ _ Hl)). cbn [snd col_notna] in Hrow.
        replace r with (nrows d - 1) in Hrow by lia.
        rewrite (Hlast ltac:(lia)) in Hrow. discriminate.
    + intros [H1 H2]. unfold row_notna. apply forallb_forall.
      intros [name col] Hin. cbn [snd].
      destruct (string_dec name "next_day_return") as [->|Hne].
      2:{ apply (Hreq r name col); auto. }
      destruct (Hcols _ col Hin) as [(S & HS & HinS)|[Hn Hg]].
      * exact (dense_normalized_defined S _ col r HS HinS).
      * pose proof (closed_columns_defined (nrows d) r
                    (chronological "open" d) (chronological "high" d)
                    (chronological "low" d) (chronological "close" d)
                    (chronological "volume" d) (chronological "BuySignal" d)
                    (chronological_dates d) qs H1 ltac:(lia)
                    (dense_pos "open" ltac:(simpl; tauto))
                    (dense_pos "high" ltac:(simpl; tauto))
                    (dense_pos "low" ltac:(simpl; tauto))
                    (dense_pos "close" ltac:(simpl; tauto))
                    (dense_pos "volume" ltac:(simpl; tauto))
                    dense_label dense_dates Hqs (Hmove r H1 ltac:(lia))
                    E' H2 HE') as F.
        rewrite Forall_forall in F.
        apply (F (_, col) (df_get_In _ _ _ Hg)).
  - intros r H1 H2. unfold row_required_notna. apply forallb_forall.
    intros [name col] Hin. apply filter_In in Hin. destruct Hin as [Hin Hq].
    cbn [snd]. apply (Hreq r name col); auto.
    unfold required in Hq. cbn [fst] in Hq. apply negb_true_iff in Hq.
    now apply String.eqb_neq in Hq.
Qed.

(** The output of the pipeline on a dense table: rows 49 to n-2. *)
Lemma dense_output :
  exists E,
    engineer d = Ok E
    /\ create_enhanced_stock_data d = Ok (dropna E)
    /\ index E = seq 0 (nrows d)
    /\ (50 <= nrows d -> index (dropna E) = seq 49 (nrows d - 50))
    /\ (forall r, r < nrows d ->
          (row_notna E r = true <-> 49 <= r /\ r + 1 < nrows d))
    /\ (forall r, 49 <= r -> r < nrows d -> row_required_notna E r = true).
Proof.
  destruct dense_rows as (E & HE & Hidx & Hrows & Hreq).
  exists E. split; [exact HE|]. split.
  { unfold create_enhanced_stock_data. rewrite HE. reflexivity. }
  split; [exact Hidx|]. split; [|split; auto].
  intros Hn.
  assert (Hn' : nrows E = nrows d).
  { unfold nrows at 1. now rewrite Hidx, length_seq. }
  rewrite dropna_index by (now rewrite Hn').
  rewrite Hn'.
  replace (nrows d - 50) with ((nrows d - 1) - 49) by lia.
  apply filter_seq_range; try lia.
  intros r Hr. rewrite (Hrows r Hr). lia.
Qed.
End Dense.

(** C1, as the code has it: on a valid table of n >= 51 rows on which no
    zero denominator creates an extra undefined value, the pruning step
    drops exactly the rows that have an undefined value in some column,
    next_day_return included: the first 49 rows (SMA(50) is undefined) and
    the last row (next_day_return is undefined); the output has n - 50
    rows. *)
Theorem pruning_keeps_n_minus_50_rows d :
  dense_input d = true -> 51 <= nrows d ->
  exists E out,
    engineer d = Ok E
    /\ create_enhanced_stock_data d = Ok out
    /\ (forall r, r < nrows d -> (In r (index out) <-> row_notna E r = true))
    /\ (forall r, r < nrows d ->
          (row_notna E r = true <-> 49 <= r /\ r + 1 < nrows d))
    /\ index out = seq 49 (nrows d - 50)
    /\ nrows out = nrows d - 50.
Proof.
  intros Hd Hn.
  destruct (dense_output d Hd) as (E & HE & Hc & Hidx & Hout & Hrows & _).
  exists E, (dropna E). split; [exact HE|]. split; [exact Hc|].
  specialize (Hout ltac:(lia)).
  split; [|split; [exact Hrows|split; [exact Hout|]]].
  - intros r Hr. rewrite Hout, (Hrows r Hr), in_seq. lia.
  - unfold nrows at 1. now rewrite Hout, length_seq.
Qed.

Lemma pruning_keeps_n_minus_50_rows_witness :
  dense_input dense_frame = true
  /\ 51 <= nrows dense_frame
  /\ exists out,
       create_enhanced_stock_data dense_frame = Ok out
       /\ index out = [49; 50] /\ nrows out = 2.
Proof.
  assert (Hd : dense_input dense_frame = true) by (vm_compute; reflexivity).
  assert (Hn : 51 <= nrows dense_frame) by (vm_compute; lia).
  split; [exact Hd|]. split; [exact Hn|].
  destruct (pruning_keeps_n_minus_50_rows dense_frame Hd Hn)
    as (E & out & _ & Hc & _ & _ & Hi & Hr).
  exists out. split; [exact Hc|]. split; [exact Hi|exact Hr].
Defined.

(** C1 as stated fails: the dense table has 52 rows and the output has 2
    rows, not 52 - 49 = 3; row 51 has no undefined value in any column other
    than next_day_return and is dropped all the same. *)
Lemma output_row_count_is_not_n_minus_49 :
  dense_input dense_frame = true
  /\ nrows dense_frame = 52
  /\ exists E out,
       engineer dense_frame = Ok E
       /\ create_enhanced_stock_data dense_frame = Ok out
       /\ nrows out = 2
       /\ nrows out <> nrows dense_frame - 49
       /\ row_required_notna E 51 = true
       /\ ~ In 51 (index out).
Proof.
  assert (Hd : dense_input dense_frame = true) by (vm_compute; reflexivity).
  split; [exact Hd|]. split; [reflexivity|].
  destruct (dense_output dense_frame Hd) as (E & HE & Hc & _ & Hout & _ & Hreq).
  exists E, (dropna E). split; [exact HE|]. split; [exact Hc|].
  assert (Hi : index (dropna E) = [49; 50]).
  { rewrite Hout by (vm_compute; lia). reflexivity. }
  assert (Hr : nrows (dropna E) = 2) by (unfold nrows; now rewrite Hi).
  split; [exact Hr|]. split.
  - rewrite Hr. vm_compute. discriminate.
  - split.
    + apply Hreq; vm_compute; lia.
    + rewrite Hi. simpl. intros [H|[H|[]]]; discriminate.
Qed.

(** ** Duplicate dates *)

Lemma distinct_keys_false l : distinct_keys l = false -> ~ NoDup l.
Proof.
  induction l as [|x t IH]; simpl; intros H Hnd; [discriminate|].
  inversion Hnd as [|? ? Hx Ht]; subst.
  apply andb_false_iff in H. destruct H as [H|H].
  - apply negb_false_iff in H. apply existsb_exists in H.
    destruct H as (y & Hy & Hb). apply andb_prop in Hb. destruct Hb as [B1 B2].
    rewrite (key_leb_antisym x y B1 B2) in Hx. contradiction.
  - now apply IH.
Qed.

Lemma engineer_get_dates d E :
  well_typed d = true -> engineer d = Ok E ->
  df_get "Date" E = Ok (ColDate (chronological_dates d)).
Proof.
  intros Hwt HE. unfold engineer in HE.
  destruct (normalize d) as [S|] eqn:HS; [|discriminate HE].
  rewrite bind_Ok in HE.
  rewrite (run_untouched "Date" _ _ _ HE)
    by (apply not_assigned; vm_compute; reflexivity).
  now apply chronological_dates_get.
Qed.

Lemma wt_parsed_dates d :
  well_typed d = true ->
  length (parsed_dates d) = nrows d
  /\ chronological_dates d
     = take (argsort key_leb (parsed_dates d)) (parsed_dates d).
Proof.
  intros Hwt. destruct (wt_dates d Hwt) as (l & Hg & Hp).
  destruct (normalize_ok d l (wt_wf d Hwt) Hg Hp) as (ds & Hm & Hl & _ & HN).
  assert (E : parsed_dates d = ds).
  { unfold parsed_dates. rewrite Hg. simpl. now rewrite Hm. }
  rewrite E. split; auto.
  unfold chronological_dates. rewrite HN, df_get_reset.
  rewrite (df_get_take _ _ _ (ColDate ds)) by apply df_get_set_eq.
  reflexivity.
Qed.

(** C2, as the code has it: a table in which two rows carry the same date
    raises no error; normalization keeps every row, so the chronological
    table still holds the date twice, and the features are computed over
    all the rows. *)
Theorem duplicate_dates_are_retained d :
  well_typed d = true -> ~ NoDup (parsed_dates d) ->
  exists E,
    engineer d = Ok E
    /\ create_enhanced_stock_data d = Ok (dropna E)
    /\ nrows E = nrows d
    /\ df_get "Date" E = Ok (ColDate (chronological_dates d))
    /\ Permutation (chronological_dates d) (parsed_dates d)
    /\ ~ NoDup (chronological_dates d).
Proof.
  intros Hwt Hdup. destruct (engineer_ok d Hwt) as (E & HE & Hidx).
  destruct (wt_parsed_dates d Hwt) as [Hl Hc].
  assert (Hp : Permutation (chronological_dates d) (parsed_dates d)).
  { rewrite Hc. apply take_Permutation, argsort_perm. }
  exists E. split; [exact HE|]. split.
  { unfold create_enhanced_stock_data. rewrite HE. reflexivity. }
  split; [unfold nrows at 1; now rewrite Hidx, length_seq|].
  split; [now apply engineer_get_dates|]. split; [exact Hp|].
  intros Hnd. apply Hdup. apply (Permutation_NoDup Hp Hnd).
Qed.

Lemma duplicate_dates_are_retained_witness :
  well_typed duplicate_frame = true
  /\ ~ NoDup (parsed_dates duplicate_frame)
  /\ exists E,
       engineer duplicate_frame = Ok E
       /\ create_enhanced_stock_data duplicate_frame = Ok (dropna E)
       /\ nrows E = 53.
Proof.
  assert (Hwt : well_typed duplicate_frame = true) by (vm_compute; reflexivity).
  assert (Hdup : ~ NoDup (parsed_dates duplicate_frame))
    by (apply distinct_keys_false; vm_compute; reflexivity).
  split; [exact Hwt|]. split; [exact Hdup|].
  destruct (duplicate_dates_are_retained duplicate_frame Hwt Hdup)
    as (E & HE & Hc & Hn & _).
  exists E. split; [exact HE|]. split; [exact Hc|exact Hn].
Defined.

(** C2 as stated fails: rows 49 and 50 of the table carry the same date,
    the pipeline returns a table and no error, and both rows are in the
    output. *)
Lemma duplicate_date_raises_no_error :
  nth_error (parsed_dates duplicate_frame) 49 = Some (Some (mkdate 2024 3 11))
  /\ nth_error (parsed_dates duplicate_frame) 50 = Some (Some (mkdate 2024 3 11))
  /\ exists out dates,
       create_enhanced_stock_data duplicate_frame = Ok out
       /\ index out = [49; 50; 51]
       /\ df_get "Date" out = Ok (ColDate dates)
       /\ nth_error dates 0 = Some (Some (mkdate 2024 3 11))
       /\ nth_error dates 1 = Some (Some (mkdate 2024 3 11)).
Proof.
  split; [vm_compute; reflexivity|]. split; [vm_compute; reflexivity|].
  assert (Hd : dense_input duplicate_frame = true) by (vm_compute; reflexivity).
  assert (Hwt : well_typed duplicate_frame = true) by (vm_compute; reflexivity).
  destruct (dense_output duplicate_frame Hd) as (E & HE & Hc & Hidx & Hout & _).
  specialize (Hout ltac:(vm_compute; lia)).
  assert (Hi : index (dropna E) = [49; 50; 51]) by (rewrite Hout; reflexivity).
  assert (Hrows : filter (row_notna E) (seq 0 (nrows E)) = [49; 50; 51]).
  { rewrite <- Hi. symmetry. apply dropna_index.
    rewrite Hidx. unfold nrows at 2. now rewrite Hidx, length_seq. }
  exists (dropna E), (take [49; 50; 51] (chronological_dates duplicate_frame)).
  split; [exact Hc|]. split; [exact Hi|]. split.
  - unfold dropna. rewrite Hrows.
    now rewrite (df_get_take _ _ _ _ (engineer_get_dates _ E Hwt HE)).
  - split; vm_compute; reflexivity.
Qed.

(** ** The last row of the sorted table *)

Lemma engineer_inv d E :
  engineer d = Ok E ->
  exists S, normalize d = Ok S /\ run feature_program S = Ok E.
Proof.
  unfold engineer. destruct (normalize d) as [S|] eqn:HS; [|discriminate].
  rewrite bind_Ok. eauto.
Qed.

Lemma StronglySorted_nth_error {A} (R : A -> A -> Prop) l :
  StronglySorted R l ->
  forall i j x y, i < j -> nth_error l i = Some x -> nth_error l j = Some y ->
    R x y.
Proof.
  induction 1 as [|a t Ht IH Ha]; intros i j x y Hij Hx Hy.
  - destruct i; discriminate.
  - destruct j as [|j]; [lia|]. simpl in Hy.
    destruct i as [|i]; simpl in Hx.
    + inversion Hx; subst. rewrite Forall_forall in Ha.
      apply Ha. eapply nth_error_In; eauto.
    + apply (IH i j); auto. lia.
Qed.

Lemma sorted_payload {K} (leb : K -> K -> bool) (l : list (K * K)) :
  StronglySorted (key_le leb) l -> Forall (fun p => fst p = snd p) l ->
  StronglySorted (fun a b => leb a b = true) (map snd l).
Proof.
  induction 1 as [|p t Ht IH Hp]; intros F; simpl; [constructor|].
  inversion F as [|? ? Fp Ft]; subst.
  constructor; [now apply IH|].
  apply Forall_forall. intros y Hy. apply in_map_iff in Hy.
  destruct Hy as (q & <- & Hq). rewrite Forall_forall in Hp, Ft.
  rewrite <- Fp, <- (Ft q Hq). apply (Hp q Hq).
Qed.

(** The date column after [sort_values] is in ascending order, NaT last. *)
Lemma sorted_dates ds :
  StronglySorted (fun a b => key_leb a b = true) (take (argsort key_leb ds) ds).
Proof.
  rewrite take_argsort by reflexivity.
  apply sorted_payload.
  - apply isort_sorted; [apply key_leb_total|apply key_leb_trans].
  - assert (F : Forall (fun p : option date * option date => fst p = snd p)
                  (combine ds ds)).
    { induction ds; simpl; constructor; auto. }
    rewrite Forall_forall in *. intros p Hp. apply F.
    apply (Permutation_in _ (isort_perm key_leb (combine ds ds)) Hp).
Qed.

(** The dates of the input and of the sorted table, for any table that
    normalization accepts. *)
Lemma normalize_dates d S :
  wf d -> normalize d = Ok S ->
  length (parsed_dates d) = nrows d
  /\ chronological_dates d
     = take (argsort key_leb (parsed_dates d)) (parsed_dates d)
  /\ df_get "Date" S = Ok (ColDate (chronological_dates d)).
Proof.
  intros Hw HS. destruct (normalize_inv d S HS) as (c & ds & Hg & Ht & HS').
  assert (E : parsed_dates d = ds).
  { unfold parsed_dates. now rewrite Hg, Ht. }
  assert (G : df_get "Date" S = Ok (ColDate (take (argsort key_leb ds) ds))).
  { subst S. rewrite df_get_reset.
    now rewrite (df_get_take _ _ _ (ColDate ds)) by apply df_get_set_eq. }
  assert (C : chronological_dates d = take (argsort key_leb ds) ds).
  { unfold chronological_dates. now rewrite HS, G. }
  rewrite E, C. split; [|split; auto].
  rewrite (to_datetime_length _ _ Ht). apply (wf_get d _ _ Hw Hg).
Qed.

Lemma NoDup_map_Some {A} (l : list A) : NoDup l -> NoDup (map Some l).
Proof.
  induction 1 as [|x l Hx _ IH]; simpl; constructor; auto.
  intros H. apply in_map_iff in H. destruct H as (y & E & Hy).
  inversion E; subst. contradiction.
Qed.

(** With every date present and pairwise distinct, the last row of the
    sorted table is the input row with the latest date, and it is the only
    row with that date. *)
Lemma latest_date_sorts_last dts m dm :
  NoDup dts -> nth_error dts m = Some dm ->
  Forall (fun dt => date_leb dt dm = true) dts ->
  let ds := map Some dts in
  let cd := take (argsort key_leb ds) ds in
  nth_error cd (length dts - 1) = Some (Some dm)
  /\ forall r, nth_error cd r = Some (Some dm) -> r = length dts - 1.
Proof.
  intros Hnd Hm Hmax ds cd.
  assert (Lds : length ds = length dts) by (unfold ds; apply length_map).
  assert (Hp : Permutation cd ds)
    by (apply take_Permutation, argsort_perm).
  assert (Lcd : length cd = length dts)
    by (rewrite (Permutation_length Hp); exact Lds).
  assert (Hpos : 0 < length dts).
  { assert (m < length dts) by (apply nth_error_Some; congruence). lia. }
  assert (Ndc : NoDup cd).
  { apply (Permutation_NoDup (Permutation_sym Hp)).
    unfold ds. now apply NoDup_map_Some. }
  assert (Hs : StronglySorted (fun a b => key_leb a b = true) cd)
    by apply sorted_dates.
  destruct (nth_error cd (length dts - 1)) as [x|] eqn:Ex.
  2:{ apply nth_error_None in Ex. lia. }
  assert (Idm : In (Some dm) cd).
  { apply (Permutation_in _ (Permutation_sym Hp)). unfold ds.
    apply in_map. eapply nth_error_In; eauto. }
  destruct (In_nth_error _ _ Idm) as (p & Hp').
  assert (Bp : p < length cd) by (apply nth_error_Some; congruence).
  assert (L1 : key_leb (Some dm) x = true).
  { destruct (Nat.eq_dec p (length dts - 1)) as [->|Hne].
    - rewrite Ex in Hp'. inversion Hp'. apply key_leb_refl.
    - apply (StronglySorted_nth_error _ cd Hs p (length dts - 1)); auto. lia. }
  assert (L2 : key_leb x (Some dm) = true).
  { assert (Ix : In x ds).
    { apply (Permutation_in _ Hp). eapply nth_error_In; eauto. }
    unfold ds in Ix. apply in_map_iff in Ix. destruct Ix as (dt & <- & Hdt).
    rewrite Forall_forall in Hmax. simpl. now apply Hmax. }
  assert (Exd : x = Some dm) by (apply key_leb_antisym; auto).
  subst x. split; [reflexivity|].
  intros r Hr. rewrite <- Ex in Hr.
  apply (proj1 (NoDup_nth_error cd) Ndc r (length dts - 1)); auto.
  apply nth_error_Some. congruence.
Qed.

(** C10, as the code has it: in every table the function returns, the last
    row of the date-sorted table is absent, because next_day_return is
    undefined there and the pruning step removes every row with an
    undefined value in any column, next_day_return included; every column
    of the output is fully defined.  When every input row has a date and the
    dates are pairwise distinct, that last row is the input row with the
    latest date, and no output row bears that date.  (A row without a date
    sorts last instead, and then the row with the latest date can stay.) *)
Theorem last_sorted_row_pruned_output_fully_defined d out :
  wfb d = true ->
  create_enhanced_stock_data d = Ok out ->
  (0 < nrows d -> ~ In (nrows d - 1) (index out))
  /\ incl (index out) (seq 0 (nrows d))
  /\ (forall name c i, In (name, c) (columns out) -> col_notna c i = true)
  /\ (exists l, df_get "next_day_return" out = Ok (ColFloat l)
                /\ Forall (fun x => isna x = false) l)
  /\ (exists dates,
        df_get "Date" out = Ok (ColDate dates)
        /\ dates = take (index out) (chronological_dates d)
        /\ forall dts m dm,
             parsed_dates d = map Some dts -> NoDup dts ->
             nth_error dts m = Some dm ->
             Forall (fun dt => date_leb dt dm = true) dts ->
             nth_error (chronological_dates d) (nrows d - 1) = Some (Some dm)
             /\ ~ In (Some dm) dates).
Proof.
  intros Hw Hc. apply wfb_wf in Hw.
  destruct (create_inv d out Hc) as (E & HE & ->).
  destruct (engineer_next_day_return d E Hw HE) as (Hidx & l & Hl & Ll & Hlast).
  assert (HiE : index E = seq 0 (nrows E)).
  { rewrite Hidx. unfold nrows at 2. now rewrite Hidx, length_seq. }
  assert (Hn : nrows E = nrows d).
  { unfold nrows at 1. now rewrite Hidx, length_seq. }
  assert (Hdrop : 0 < nrows d -> ~ In (nrows d - 1) (index (dropna E))).
  { intros Hpos. apply (dropna_drops E "next_day_return" (ColFloat l)); auto.
    simpl. now rewrite (Hlast Hpos). }
  split; [exact Hdrop|]. split; [|split; [|split]].
  - rewrite dropna_index by auto. rewrite Hn. intros r Hr.
    apply filter_In in Hr. tauto.
  - intros name c i Hin. now apply (dropna_defined E name).
  - exists (take (filter (row_notna E) (seq 0 (nrows E))) l). split.
    + unfold dropna. now rewrite (df_get_take _ _ _ _ Hl).
    + apply Forall_forall. intros x Hx.
      destruct (In_nth_error _ _ Hx) as (i & Hi).
      assert (G : col_notna
                    (col_take (filter (row_notna E) (seq 0 (nrows E))) (ColFloat l))
                    i = true).
      { apply (dropna_defined E "next_day_return").
        apply df_get_In. unfold dropna.
        now rewrite (df_get_take _ _ _ _ Hl). }
      simpl in G. rewrite Hi in G. unfold notna in G.
      now apply negb_true_iff in G.
  - destruct (engineer_inv d E HE) as (S & HS & Hrun).
    destruct (normalize_dates d S Hw HS) as (Lpd & Hcd & HgS).
    assert (HgE : df_get "Date" E = Ok (ColDate (chronological_dates d))).
    { rewrite (run_untouched "Date" _ _ _ Hrun)
        by (apply not_assigned; vm_compute; reflexivity).
      exact HgS. }
    exists (take (index (dropna E)) (chronological_dates d)).
    split.
    { rewrite dropna_index by auto. unfold dropna.
      now rewrite (df_get_take _ _ _ _ HgE). }
    split; [reflexivity|].
    intros dts m dm Hpd Hnd Hm Hmax.
    assert (Ld : length dts = nrows d).
    { rewrite <- Lpd, Hpd. now rewrite length_map. }
    destruct (latest_date_sorts_last dts m dm Hnd Hm Hmax) as [A B].
    rewrite Hcd, Hpd, <- Ld. split; [exact A|].
    intros Hin. apply take_In in Hin. destruct Hin as (r & Hr & Er).
    apply B in Er. subst r. rewrite Ld in Hr.
    apply Hdrop; auto.
    assert (m < length dts) by (apply nth_error_Some; congruence). lia.
Qed.

Lemma last_sorted_row_pruned_output_fully_defined_witness :
  wfb dense_frame = true
  /\ nth_error (parsed_dates dense_frame) 51 = Some (Some (mkdate 2024 3 13))
  /\ exists out dates,
       create_enhanced_stock_data dense_frame = Ok out
       /\ ~ In 51 (index out)
       /\ (forall name c i, In (name, c) (columns out) -> col_notna c i = true)
       /\ df_get "Date" out = Ok (ColDate dates)
       /\ ~ In (Some (mkdate 2024 3 13)) dates.
Proof.
  assert (Hw : wfb dense_frame = true) by (vm_compute; reflexivity).
  assert (Hwt : well_typed dense_frame = true) by (vm_compute; reflexivity).
  split; [exact Hw|]. split; [vm_compute; reflexivity|].
  destruct (engineer_ok dense_frame Hwt) as (E & HE & _).
  assert (Hc : create_enhanced_stock_data dense_frame = Ok (dropna E)).
  { unfold create_enhanced_stock_data. rewrite HE. reflexivity. }
  destruct (last_sorted_row_pruned_output_fully_defined dense_frame (dropna E)
              Hw Hc) as (H1 & _ & H3 & _ & dates & Hd & _ & H5).
  exists (dropna E), dates. split; [exact Hc|].
  split; [apply H1; vm_compute; lia|]. split; [exact H3|].
  split; [exact Hd|].
  set (dts := map (fun o : option date =>
                     match o with Some dt => dt | None => mkdate 0 0 0 end)
                  (parsed_dates dense_frame)).
  assert (Hp : parsed_dates dense_frame = map Some dts)
    by (vm_compute; reflexivity).
  assert (Hnd : NoDup dts).
  { apply (NoDup_map_inv Some). rewrite <- Hp.
    apply distinct_keys_NoDup. vm_compute. reflexivity. }
  assert (Hm : nth_error dts 51 = Some (mkdate 2024 3 13))
    by (vm_compute; reflexivity).
  assert (Hmax : Forall (fun dt => date_leb dt (mkdate 2024 3 13) = true) dts).
  { apply Forall_forall. apply forallb_forall. vm_compute. reflexivity. }
  apply (H5 dts 51 (mkdate 2024 3 13) Hp Hnd Hm Hmax).
Defined.

(** C10 as stated fails: the first row of the table has no date, so it is
    sorted last and it is the row that pruning removes for its undefined
    next_day_return; the row of 11 March 2024, the latest date of the
    input, is in the output, with a next_day_return computed from the close
    of the undated row. *)
Lemma latest_dated_row_kept_when_a_date_is_missing :
  wfb undated_frame = true
  /\ nth_error (parsed_dates undated_frame) 0 = Some None
  /\ nth_error (parsed_dates undated_frame) 50 = Some (Some (mkdate 2024 3 11))
  /\ nth_error (chronological_dates undated_frame) 50 = Some None
  /\ forallb (fun o => match o with
                       | Some dt => date_leb dt (mkdate 2024 3 11)
                       | None => true
                       end) (parsed_dates undated_frame) = true
  /\ exists out,
       create_enhanced_stock_data undated_frame = Ok out
       /\ index out = [49]
       /\ df_get "Date" out = Ok (ColDate [Some (mkdate 2024 3 11)])
       /\ df_get "close" out = Ok (ColFloat [Fin 12])
       /\ df_get "next_day_return" out = Ok (ColFloat [Fin (1 # 12)]).
Proof.
  do 5 (split; [vm_compute; reflexivity|]).
  assert (P : match create_enhanced_stock_data undated_frame with
              | Ok out => Some (index out, df_get "Date" out,
                                df_get "close" out,
                                df_get "next_day_return" out)
              | Err _ => None
              end
              = Some ([49], Ok (ColDate [Some (mkdate 2024 3 11)]),
                      Ok (ColFloat [Fin 12]), Ok (ColFloat [Fin (1 # 12)])))
    by (vm_compute; reflexivity).
  destruct (create_enhanced_stock_data undated_frame) as [out|e];
    [|discriminate P].
  exists out. split; [reflexivity|]. inversion P. auto.
Qed.

(* ================================================================== *)
(** * Further properties of the pipeline *)

(** ** Pruning of an arbitrary well typed table *)

Lemma engineer_sma_50 d E :
  well_typed d = true -> engineer d = Ok E ->
  df_get "sma_50" E
  = Ok (ColFloat (rolling mean_agg 50 (chronological "close" d))).
Proof.
  intros Hwt HE.
  rewrite (engineer_get d E _ Hwt HE) by (vm_compute; reflexivity).
  reflexivity.
Qed.

Lemma engineer_nrows d E :
  index E = seq 0 (nrows d) -> nrows E = nrows d /\ index E = seq 0 (nrows E).
Proof.
  intros H. assert (N : nrows E = nrows d).
  { unfold nrows at 1. now rewrite H, length_seq. }
  split; auto. now rewrite N.
Qed.

(** The rows that pruning can keep. *)
Lemma kept_rows d E r :
  well_typed d = true -> engineer d = Ok E ->
  In r (index (dropna E)) -> 49 <= r /\ r + 1 < nrows d.
Proof.
  intros Hwt HE Hin.
  destruct (engineer_next_day_return d E (wt_wf d Hwt) HE)
    as (Hidx & l & Hl & _ & Hlast).
  destruct (engineer_nrows d E Hidx) as [Hn HiE].
  assert (Hr : r < nrows d).
  { rewrite dropna_index in Hin by auto. apply filter_In in Hin.
    destruct Hin as [Hin _]. apply in_seq in Hin. lia. }
  split.
  - destruct (le_lt_dec 49 r) as [?|Hlt]; auto. exfalso.
    revert Hin.
    apply (dropna_drops E "sma_50" _ r HiE (engineer_sma_50 d E Hwt HE)).
    assert (Lc : length (chronological "close" d) = nrows d)
      by (apply chronological_length; simpl; auto 10).
    cbn [col_notna].
    rewrite (nth_error_nth' _ NaN) by (rewrite rolling_length; lia).
    rewrite sma_undefined by lia. reflexivity.
  - destruct (le_lt_dec (nrows d) (r + 1)) as [Hge|?]; auto. exfalso.
    revert Hin. apply (dropna_drops E "next_day_return" _ r HiE Hl).
    cbn [col_notna]. replace r with (nrows d - 1) by lia.
    now rewrite (Hlast ltac:(lia)).
Qed.

(** X1: whatever the values of a well typed table are, the output holds no
    row before row 49 (SMA(50) is undefined there) and not the last row; a
    table of at most 50 rows gives an output without rows, and no error. *)
Theorem at_most_50_rows_give_no_output_row d :
  well_typed d = true ->
  exists out,
    create_enhanced_stock_data d = Ok out
    /\ (forall r, In r (index out) -> 49 <= r /\ r + 1 < nrows d)
    /\ (nrows d <= 50 -> index out = [] /\ nrows out = 0).
Proof.
  intros Hwt. destruct (engineer_ok d Hwt) as (E & HE & Hidx).
  exists (dropna E). split.
  { unfold create_enhanced_stock_data. rewrite HE. reflexivity. }
  assert (K : forall r, In r (index (dropna E)) -> 49 <= r /\ r + 1 < nrows d)
    by (intros r; apply kept_rows; auto).
  split; [exact K|].
  intros Hn.
  assert (Z : index (dropna E) = []).
  { destruct (index (dropna E)) as [|r t] eqn:Ei; auto.
    specialize (K r (or_introl eq_refl)). lia. }
  split; [exact Z|]. unfold nrows. now rewrite Z.
Qed.

Lemma at_most_50_rows_give_no_output_row_witness :
  well_typed scenario_frame = true
  /\ nrows scenario_frame = 20
  /\ exists out,
       create_enhanced_stock_data scenario_frame = Ok out /\ nrows out = 0.
Proof.
  assert (Hwt : well_typed scenario_frame = true) by (vm_compute; reflexivity).
  split; [exact Hwt|]. split; [reflexivity|].
  destruct (at_most_50_rows_give_no_output_row scenario_frame Hwt)
    as (out & Hc & _ & Hz).
  exists out. split; [exact Hc|]. apply Hz. vm_compute. lia.
Defined.

(** ** The columns of the output *)

Lemma assign_col_labels k v cols :
  map fst (assign_col k v cols)
  = if existsb (String.eqb k) (map fst cols) then map fst cols
    else map fst cols ++ [k].
Proof.
  induction cols as [|[n c] t IH]; simpl; auto.
  destruct (String.eqb k n) eqn:E; simpl; auto.
  rewrite IH. destruct (existsb (String.eqb k) (map fst t)); reflexivity.
Qed.

Lemma existsb_eqb_In n l : existsb (String.eqb n) l = true <-> In n l.
Proof.
  rewrite existsb_exists. split.
  - intros (x & Hx & E). apply String.eqb_eq in E. now subst.
  - intros H. exists n. split; auto. apply String.eqb_refl.
Qed.

Lemma labels_take rows d : labels (df_take rows d) = labels d.
Proof.
  unfold labels, df_take. cbn [columns]. rewrite map_map. reflexivity.
Qed.

(** A program adds the labels it assigns after the labels of the frame, in
    order of assignment; a label that the frame has keeps its place. *)
Lemma run_labels p : forall d E,
  NoDup (map fst p) -> run p d = Ok E ->
  labels E = labels d ++ new_labels p d.
Proof.
  unfold new_labels, has_label.
  induction p as [|s p IH]; simpl; intros d E Hnd H.
  - inversion H; subst. now rewrite app_nil_r.
  - destruct (exec s d) as [d'|] eqn:Ex; simpl in H; [|discriminate].
    apply exec_inv in Ex. destruct Ex as (v & _ & ->).
    inversion Hnd as [|? ? Hnotin Hnd']; subst.
    rewrite (IH _ _ Hnd' H). unfold labels, df_set. cbn [columns].
    rewrite assign_col_labels.
    destruct (existsb (String.eqb (fst s)) (map fst (columns d))) eqn:Ek;
      cbn [negb].
    + reflexivity.
    + rewrite <- app_assoc. cbn [app]. do 2 f_equal.
      apply filter_ext_in. intros n Hn. f_equal.
      rewrite existsb_app. cbn [existsb]. rewrite orb_false_r.
      destruct (String.eqb n (fst s)) eqn:En; [|now rewrite orb_false_r].
      apply String.eqb_eq in En. subst n. contradiction.
Qed.

Lemma normalize_labels d S : normalize d = Ok S -> labels S = labels d.
Proof.
  intros HS. destruct (normalize_inv d S HS) as (c & ds & Hg & _ & ->).
  unfold reset_index, labels. cbn [columns].
  fold (labels (df_take (argsort key_leb ds) (df_set "Date" (ColDate ds) d))).
  rewrite labels_take. unfold labels, df_set. cbn [columns].
  rewrite assign_col_labels.
  replace (existsb (String.eqb "Date") (map fst (columns d))) with true; auto.
  symmetry. apply existsb_eqb_In.
  apply df_get_In in Hg. apply (in_map fst) in Hg. exact Hg.
Qed.

Lemma output_labels d out :
  create_enhanced_stock_data d = Ok out ->
  labels out = labels d ++ new_labels feature_program d.
Proof.
  intros Hc. destruct (create_inv d out Hc) as (E & HE & ->).
  destruct (engineer_inv d E HE) as (S & HS & Hrun).
  unfold dropna. rewrite labels_take.
  rewrite (run_labels _ _ _ feature_program_names_nodup Hrun).
  unfold new_labels, has_label. now rewrite (normalize_labels d S HS).
Qed.

(** X2: the output keeps every column of the input, in the order of the
    input, and appends the feature columns that the input does not have, in
    the order in which the function assigns them; an input column that bears
    the name of a feature keeps its place (and is overwritten).  An input
    without such a column gets 67 more columns. *)
Theorem output_columns_are_input_then_features d out :
  create_enhanced_stock_data d = Ok out ->
  labels out = labels d ++ new_labels feature_program d
  /\ ((forall n, In n (labels d) -> ~ In n (map fst feature_program)) ->
      labels out = labels d ++ map fst feature_program
      /\ length (columns out) = length (columns d) + 67).
Proof.
  intros Hc. pose proof (output_labels d out Hc) as L.
  split; [exact L|]. intros Hfresh.
  assert (N : new_labels feature_program d = map fst feature_program).
  { unfold new_labels. apply filter_all_true. intros n Hn.
    apply negb_true_iff. unfold has_label.
    destruct (existsb (String.eqb n) (labels d)) eqn:E; auto.
    apply existsb_eqb_In in E. exfalso. apply (Hfresh n E Hn). }
  rewrite N in L. split; [exact L|].
  rewrite <- (length_map fst (columns out)). fold (labels out).
  rewrite L, length_app. unfold labels. now rewrite !length_map.
Qed.

Lemma output_columns_are_input_then_features_witness :
  exists out,
    create_enhanced_stock_data scenario_frame = Ok out
    /\ length (columns out) = 74
    /\ firstn 8 (labels out)
       = ["Date"; "open"; "high"; "low"; "close"; "volume"; "BuySignal";
          "price_range"]%string.
Proof.
  assert (Hwt : well_typed scenario_frame = true) by (vm_compute; reflexivity).
  destruct (engineer_ok scenario_frame Hwt) as (E & HE & _).
  assert (Hc : create_enhanced_stock_data scenario_frame = Ok (dropna E)).
  { unfold create_enhanced_stock_data. rewrite HE. reflexivity. }
  exists (dropna E). split; [exact Hc|].
  destruct (output_columns_are_input_then_features _ _ Hc) as [_ H].
  destruct H as [L N].
  { intros n Hn Hf. apply existsb_eqb_In in Hf.
    cbn in Hn.
    repeat (destruct Hn as [<-|Hn]; [vm_compute in Hf; discriminate|]).
    destruct Hn. }
  split; [exact N|]. rewrite L. reflexivity.
Defined.


(** ** The order of the output rows *)

(** Rows selected at increasing positions of a sorted list are sorted. *)
Lemma take_sorted {A} (R : A -> A -> Prop) l idx :
  StronglySorted R l -> StronglySorted lt idx -> StronglySorted R (take idx l).
Proof.
  intros Hl. induction 1 as [|i idx Hidx IH Hi]; [constructor|].
  change (take (i :: idx) l)
    with (match nth_error l i with Some x => [x] | None => [] end ++ take idx l).
  destruct (nth_error l i) as [x|] eqn:E; [|exact IH].
  constructor; [exact IH|].
  apply Forall_forall. intros y Hy. apply take_In in Hy.
  destruct Hy as (j & Hj & Ey). rewrite Forall_forall in Hi.
  apply (StronglySorted_nth_error R l Hl i j); auto.
Qed.

Lemma filter_seq_sorted (f : nat -> bool) a n :
  StronglySorted lt (filter f (seq a n)).
Proof.
  revert a. induction n as [|n IH]; intros a; simpl; [constructor|].
  destruct (f a).
  - constructor; [apply IH|]. apply Forall_forall. intros r Hr.
    apply filter_In in Hr. destruct Hr as [Hr _]. apply in_seq in Hr. lia.
  - apply IH.
Qed.

Lemma all_present {A} (l : list (option A)) :
  (forall i, present l i = true) -> exists xs, l = map Some xs.
Proof.
  induction l as [|o t IH]; intros H.
  - exists []. reflexivity.
  - destruct IH as (xs & ->).
    { intros i. apply (H (S i)). }
    specialize (H 0). unfold present in H. simpl in H.
    destruct o as [x|]; [|discriminate]. exists (x :: xs). reflexivity.
Qed.

Lemma sorted_some dates :
  StronglySorted (fun a b => key_leb a b = true) (map Some dates) ->
  StronglySorted (fun a b => date_leb a b = true) dates.
Proof.
  induction dates as [|x t IH]; simpl; intros H; [constructor|].
  inversion H as [|? ? Ht Hx]; subst. constructor; auto.
  rewrite Forall_forall in *. intros y Hy.
  apply (Hx (Some y)). now apply in_map.
Qed.

Lemma engineer_dates d E :
  wf d -> engineer d = Ok E ->
  exists ds,
    length ds = nrows d
    /\ df_get "Date" E = Ok (ColDate (take (argsort key_leb ds) ds)).
Proof.
  intros Hw HE. destruct (engineer_inv d E HE) as (S & HS & Hrun).
  destruct (normalize_inv d S HS) as (c & ds & Hg & Ht & ->).
  exists ds. split.
  { rewrite (to_datetime_length _ _ Ht). apply (wf_get d _ _ Hw Hg). }
  rewrite (run_untouched "Date" _ _ _ Hrun)
    by (apply not_assigned; vm_compute; reflexivity).
  rewrite df_get_reset.
  now rewrite (df_get_take _ _ _ (ColDate ds)) by apply df_get_set_eq.
Qed.

(** X3: the rows of the output are in chronological order: the dates of the
    output are all present and ascending, and the row labels, which are the
    positions in the chronological table, are increasing. *)
Theorem output_rows_in_date_order d out :
  wfb d = true ->
  create_enhanced_stock_data d = Ok out ->
  exists dates,
    df_get "Date" out = Ok (ColDate (map Some dates))
    /\ StronglySorted (fun a b => date_leb a b = true) dates
    /\ StronglySorted lt (index out)
    /\ length dates = nrows out.
Proof.
  intros Hw Hc. apply wfb_wf in Hw.
  destruct (create_inv d out Hc) as (E & HE & ->).
  destruct (engineer_next_day_return d E Hw HE) as (Hidx & _).
  destruct (engineer_nrows d E Hidx) as [Hn HiE].
  destruct (engineer_dates d E Hw HE) as (ds & Lds & Hd).
  set (rows := filter (row_notna E) (seq 0 (nrows E))).
  assert (Hg : df_get "Date" (dropna E)
               = Ok (ColDate (take rows (take (argsort key_leb ds) ds)))).
  { unfold dropna. now rewrite (df_get_take _ _ _ _ Hd). }
  destruct (all_present (take rows (take (argsort key_leb ds) ds)))
    as (dates & Hdates).
  { intros i.
    apply (dropna_defined E "Date" (ColDate _) i (df_get_In _ _ _ Hg)). }
  exists dates. rewrite Hg, Hdates. split; [reflexivity|].
  split.
  { apply sorted_some. rewrite <- Hdates.
    apply take_sorted; [apply sorted_dates|apply filter_seq_sorted]. }
  split.
  { rewrite dropna_index by auto. apply filter_seq_sorted. }
  unfold nrows. rewrite dropna_index by auto. fold rows.
  rewrite <- (length_map Some dates), <- Hdates.
  apply take_length.
  rewrite take_length, argsort_length
    by (apply perm_seq_bound, argsort_perm).
  rewrite Lds, <- Hn. apply filter_seq_bound.
Qed.

Lemma output_rows_in_date_order_witness :
  wfb dense_frame = true
  /\ exists out dates,
       create_enhanced_stock_data dense_frame = Ok out
       /\ df_get "Date" out = Ok (ColDate (map Some dates))
       /\ StronglySorted (fun a b => date_leb a b = true) dates.
Proof.
  assert (Hw : wfb dense_frame = true) by (vm_compute; reflexivity).
  assert (Hwt : well_typed dense_frame = true) by (vm_compute; reflexivity).
  split; [exact Hw|].
  destruct (engineer_ok dense_frame Hwt) as (E & HE & _).
  assert (Hc : create_enhanced_stock_data dense_frame = Ok (dropna E)).
  { unfold create_enhanced_stock_data. rewrite HE. reflexivity. }
  destruct (output_rows_in_date_order dense_frame (dropna E) Hw Hc)
    as (dates & Hd & Hs & _).
  exists (dropna E), dates. auto.
Defined.

(** ** The input columns in the output *)

(** X4: the numeric input columns and the dates reach the output unchanged:
    the output row labelled [r] holds the values of row [r] of the
    chronological table. *)
Theorem input_columns_pass_through d :
  well_typed d = true ->
  exists out,
    create_enhanced_stock_data d = Ok out
    /\ (forall n, In n numeric_labels ->
          df_get n out = Ok (ColFloat (take (index out) (chronological n d))))
    /\ df_get "Date" out
       = Ok (ColDate (take (index out) (chronological_dates d))).
Proof.
  intros Hwt. destruct (engineer_ok d Hwt) as (E & HE & Hidx).
  destruct (engineer_nrows d E Hidx) as [Hn HiE].
  exists (dropna E). split.
  { unfold create_enhanced_stock_data. rewrite HE. reflexivity. }
  rewrite dropna_index by auto. split.
  - intros n Hin. unfold dropna.
    now rewrite (df_get_take _ _ _ _ (engineer_get_base d E n Hwt HE Hin)).
  - unfold dropna.
    now rewrite (df_get_take _ _ _ _ (engineer_get_dates d E Hwt HE)).
Qed.

Lemma input_columns_pass_through_witness :
  well_typed dense_frame = true
  /\ exists out,
       create_enhanced_stock_data dense_frame = Ok out
       /\ df_get "close" out
          = Ok (ColFloat (take (index out) (chronological "close" dense_frame))).
Proof.
  assert (Hwt : well_typed dense_frame = true) by (vm_compute; reflexivity).
  split; [exact Hwt|].
  destruct (input_columns_pass_through dense_frame Hwt) as (out & Hc & Hn & _).
  exists out. split; [exact Hc|]. apply Hn. simpl. auto 10.
Defined.




(** ** Errors of normalization *)

Lemma has_label_false n d :
  has_label n d = false <-> df_get n d = Err (KeyError n).
Proof.
  unfold has_label, labels, df_get.
  induction (columns d) as [|[k c] t IH]; simpl.
  - split; auto.
  - rewrite orb_false_iff. destruct (String.eqb n k); simpl.
    + split; [intros [H _]; discriminate|discriminate].
    + rewrite <- IH. tauto.
Qed.

Lemma has_label_true n d :
  has_label n d = true <-> exists c, df_get n d = Ok c.
Proof.
  destruct (has_label n d) eqn:E.
  - split; auto. intros _. unfold df_get.
    destruct (lookup n (columns d)) eqn:L; eauto.
    assert (F : has_label n d = false).
    { apply has_label_false. unfold df_get. now rewrite L. }
    congruence.
  - split; [discriminate|]. intros (c & Hc).
    apply has_label_false in E. congruence.
Qed.

Lemma mapM_parse_error l s :
  In (Some s) l -> strptime s = None -> mapM parse_cell l = Err ValueError.
Proof.
  intros Hin Hs. induction l as [|x t IH]; simpl; [contradiction|].
  destruct Hin as [->|Hin].
  - simpl. now rewrite Hs.
  - destruct x as [s'|]; simpl.
    + destruct (strptime s'); simpl; auto. now rewrite (IH Hin).
    + now rewrite (IH Hin).
Qed.

Lemma missing_date_column d :
  has_label "Date" d = false ->
  create_enhanced_stock_data d = Err (KeyError "Date").
Proof.
  intros H. apply has_label_false in H.
  unfold create_enhanced_stock_data, engineer, normalize, exec, eun, col.
  cbn [fst snd]. now rewrite H.
Qed.

(** X5: a malformed date.  When one cell of the Date column is an ordinary
    text that does not match the format day-month-year, the function fails
    with a ValueError, wherever the cell is and whatever the other cells
    hold: no row is skipped and no table is returned. *)
Theorem malformed_date_raises_value_error d l s :
  df_get "Date" d = Ok (ColStr l) -> In (Some s) l ->
  ordinary_text s = true -> strptime s = None ->
  create_enhanced_stock_data d = Err ValueError.
Proof.
  intros Hg Hin _ Hs.
  unfold create_enhanced_stock_data, engineer, normalize, exec, eun, col.
  cbn [fst snd]. rewrite Hg, bind_Ok. unfold to_datetime.
  now rewrite (mapM_parse_error l s Hin Hs).
Qed.

Lemma malformed_date_raises_value_error_witness :
  ordinary_text "2024-01-03" = true
  /\ strptime "2024-01-03" = None
  /\ create_enhanced_stock_data
       (mkdf [0; 1]
          [("Date"%string, ColStr [Some "02-Jan-24"; Some "2024-01-03"]%string);
           ("close"%string, ColFloat [Fin 1; Fin 2])])
     = Err ValueError.
Proof.
  split; [reflexivity|]. split; [reflexivity|].
  apply (malformed_date_raises_value_error _
           [Some "02-Jan-24"; Some "2024-01-03"]%string "2024-01-03"%string);
    [reflexivity | simpl; auto | reflexivity | reflexivity].
Defined.

(** ** A missing input column *)

Lemma run_fails_at k : forall (p : list stmt) d d1 s e,
  run (firstn k p) d = Ok d1 -> nth_error p k = Some s ->
  exec s d1 = Err e -> run p d = Err e.
Proof.
  induction k as [|k IH]; intros [|s0 p] d d1 s e Hrun Hs He;
    simpl in *; try discriminate.
  - inversion Hrun; subst. inversion Hs; subst. now rewrite He.
  - destruct (exec s0 d) as [d'|]; simpl in *; [|discriminate].
    apply (IH p d' d1 s e); auto.
Qed.

Lemma run_prefix_ok k : forall (p : list stmt) d E,
  run p d = Ok E -> exists d1, run (firstn k p) d = Ok d1.
Proof.
  induction k as [|k IH]; intros [|s p] d E H; simpl in *; eauto.
  destruct (exec s d) as [d'|]; simpl in *; [|discriminate].
  apply (IH p d' E H).
Qed.

Lemma wellread_firstn k : forall N (p : list stmt),
  wellread N p -> wellread N (firstn k p).
Proof.
  induction k as [|k IH]; intros N [|s p] H; simpl in *; auto.
  destruct H as [H1 H2]. split; auto.
Qed.

(** The statements before statement [k] run on a normalized table that has
    the labels [N] they read, and leave the input columns as they are. *)
Lemma prefix_runs k N S dts o h l c v bs :
  wellread N (firstn k feature_program) ->
  agree N S (base_frame dts o h l c v bs) ->
  exists d1,
    run (firstn k feature_program) S = Ok d1
    /\ forall m, ~ In m (map fst feature_program) -> df_get m d1 = df_get m S.
Proof.
  intros Hw Ha.
  assert (HE' : exists E', run feature_program (base_frame dts o h l c v bs)
                           = Ok E').
  { rewrite run_base. unfold features_closed. eexists. reflexivity. }
  destruct HE' as (E' & HE').
  destruct (run_prefix_ok k _ _ _ HE') as (d1' & Hd1').
  destruct (run_agree _ _ S _ _ Hw Ha Hd1') as (d1 & Hd1 & _).
  exists d1. split; [exact Hd1|].
  intros m Hm. apply (run_untouched m _ _ _ Hd1).
  intros Hin. apply Hm. clear - Hin.
  rewrite <- (firstn_skipn k feature_program), map_app.
  apply in_or_app. now left.
Qed.

Ltac solve_wellread :=
  cbv [feature_program price_features moving_averages indicators lag_features
       level_features time_features trend_features target_features
       next_day_return_stmt buy_signal_stmt
       flat_map app windows ema_windows lag_periods roc_periods wellread
       firstn fst snd];
  repeat (split; [solve_respects|]); exact I.

Lemma wellread_1 : wellread ["high"; "low"]%string (firstn 1 feature_program).
Proof. solve_wellread. Qed.

Lemma wellread_8 :
  wellread ["high"; "low"; "close"; "open"]%string (firstn 8 feature_program).
Proof. solve_wellread. Qed.

Lemma wellread_66 :
  wellread ["Date"; "high"; "low"; "close"; "open"; "volume"]%string
           (firstn 66 feature_program).
Proof. solve_wellread. Qed.

Section MissingColumn.
Variable d : DataFrame.
Hypothesis Hwf : wfb d = true.
Hypothesis Hlabel : has_label "Date" d = true.
Hypothesis Hdates : has_dates d = true.
Hypothesis Hnum :
  forall m, In m numeric_labels -> has_label m d = true ->
            has_float (fun _ => true) m d = true.

Lemma normalized_columns :
  exists S,
    normalize d = Ok S
    /\ (exists dts, df_get "Date" S = Ok (ColDate dts))
    /\ forall m, In m numeric_labels ->
         if has_label m d then df_get m S = Ok (ColFloat (series m S))
         else df_get m S = Err (KeyError m).
Proof.
  destruct (has_dates_get d Hdates) as (l0 & Hg & Hp).
  destruct (normalize_ok d l0 (wfb_wf d Hwf) Hg Hp) as (ds & _ & _ & _ & HN).
  eexists. split; [exact HN|]. split.
  { eexists. rewrite df_get_reset.
    now rewrite (df_get_take _ _ _ (ColDate ds)) by apply df_get_set_eq. }
  intros m Hm. destruct (has_label m d) eqn:E.
  - destruct (has_float_get _ _ _ (Hnum m Hm E)) as (f & Hf & _).
    assert (G : df_get m (reset_index (df_take (argsort key_leb ds)
                                         (df_set "Date" (ColDate ds) d)))
                = Ok (ColFloat (take (argsort key_leb ds) f))).
    { rewrite df_get_reset.
      rewrite (df_get_take _ m _ (ColFloat f)); [reflexivity|].
      rewrite df_get_set_neq; auto. now apply numeric_not_date. }
    unfold series. now rewrite G.
  - apply has_label_false in E.
    apply (normalize_missing d _ m _ HN); auto. now apply numeric_not_date.
Qed.

Lemma first_missing_error n :
  first_missing d = Some n ->
  create_enhanced_stock_data d = Err (KeyError n).
Proof.
  intros Hfm.
  destruct normalized_columns as (S & HS & (dts & Hd) & Hcols).
  unfold create_enhanced_stock_data, engineer. rewrite HS, bind_Ok.
  assert (R : run feature_program S = Err (KeyError n)); [|now rewrite R].
  pose proof (Hcols "high"%string ltac:(simpl; auto 10)) as Hh.
  pose proof (Hcols "low"%string ltac:(simpl; auto 10)) as Hl.
  pose proof (Hcols "close"%string ltac:(simpl; auto 10)) as Hc.
  pose proof (Hcols "open"%string ltac:(simpl; auto 10)) as Ho.
  pose proof (Hcols "volume"%string ltac:(simpl; auto 10)) as Hv.
  pose proof (Hcols "BuySignal"%string ltac:(simpl; auto 10)) as Hb.
  unfold first_missing, read_order in Hfm. cbn [find] in Hfm.
  rewrite Hlabel in Hfm. cbn [negb] in Hfm.
  assert (Hag : forall N,
            (forall m, In m N -> exists c, df_get m S = Ok c
               /\ df_get m (base_frame dts (series "open" S) (series "high" S)
                              (series "low" S) (series "close" S)
                              (series "volume" S) (series "BuySignal" S))
                  = Ok c) ->
            agree N S (base_frame dts (series "open" S) (series "high" S)
                              (series "low" S) (series "close" S)
                              (series "volume" S) (series "BuySignal" S))).
  { intros N H m Hm. destruct (H m Hm) as (c0 & -> & ->). reflexivity. }
  destruct (has_label "high" d) eqn:Eh; cbn [negb] in Hfm.
  2:{ inversion Hfm; subst n.
      apply (run_fails_at 0 _ S S (nth 0 feature_program buy_signal_stmt));
        [reflexivity|reflexivity|].
      unfold exec. cbn [nth feature_program price_features app snd fst].
      unfold esub, ebin, col. now rewrite Hh. }
  destruct (has_label "low" d) eqn:El; cbn [negb] in Hfm.
  2:{ inversion Hfm; subst n.
      apply (run_fails_at 0 _ S S (nth 0 feature_program buy_signal_stmt));
        [reflexivity|reflexivity|].
      unfold exec. cbn [nth feature_program price_features app snd fst].
      unfold esub, ebin, col. now rewrite Hh, bind_Ok, Hl. }
  destruct (prefix_runs 1 _ S dts (series "open" S) (series "high" S)
              (series "low" S) (series "close" S) (series "volume" S)
              (series "BuySignal" S) wellread_1) as (d1 & Hd1 & U1).
  { apply Hag. intros m Hm. simpl in Hm.
    destruct Hm as [<-|[<-|[]]]; eexists; split; eauto. }
  destruct (has_label "close" d) eqn:Ec; cbn [negb] in Hfm.
  2:{ inversion Hfm; subst n.
      apply (run_fails_at 1 _ S d1 (nth 1 feature_program buy_signal_stmt));
        [exact Hd1|reflexivity|].
      unfold exec. cbn [nth feature_program price_features app snd fst].
      unfold esub, ebin, col.
      rewrite (U1 "close"%string) by (apply not_assigned; vm_compute; reflexivity).
      now rewrite Hc. }
  destruct (has_label "open" d) eqn:Eo; cbn [negb] in Hfm.
  2:{ inversion Hfm; subst n.
      apply (run_fails_at 1 _ S d1 (nth 1 feature_program buy_signal_stmt));
        [exact Hd1|reflexivity|].
      unfold exec. cbn [nth feature_program price_features app snd fst].
      unfold esub, ebin, col.
      rewrite (U1 "close"%string), (U1 "open"%string)
        by (apply not_assigned; vm_compute; reflexivity).
      now rewrite Hc, bind_Ok, Ho. }
  clear d1 Hd1 U1.
  destruct (prefix_runs 8 _ S dts (series "open" S) (series "high" S)
              (series "low" S) (series "close" S) (series "volume" S)
              (series "BuySignal" S) wellread_8) as (d1 & Hd1 & U1).
  { apply Hag. intros m Hm. simpl in Hm.
    destruct Hm as [<-|[<-|[<-|[<-|[]]]]]; eexists; split; eauto. }
  destruct (has_label "volume" d) eqn:Ev; cbn [negb] in Hfm.
  2:{ inversion Hfm; subst n.
      apply (run_fails_at 8 _ S d1 (nth 8 feature_program buy_signal_stmt));
        [exact Hd1|reflexivity|].
      unfold exec.
      change (snd (nth 8 feature_program buy_signal_stmt))
        with (emap (rolling mean_agg 5) (col "volume")).
      unfold emap, eun, col.
      rewrite (U1 "volume"%string) by (apply not_assigned; vm_compute; reflexivity).
      now rewrite Hv. }
  clear d1 Hd1 U1.
  destruct (prefix_runs 66 _ S dts (series "open" S) (series "high" S)
              (series "low" S) (series "close" S) (series "volume" S)
              (series "BuySignal" S) wellread_66) as (d1 & Hd1 & U1).
  { apply Hag. intros m Hm. simpl in Hm.
    destruct Hm as [<-|[<-|[<-|[<-|[<-|[<-|[]]]]]]]; eexists; split; eauto. }
  destruct (has_label "BuySignal" d) eqn:Eb; cbn [negb] in Hfm; [discriminate|].
  inversion Hfm; subst n.
  apply (run_fails_at 66 _ S d1 buy_signal_stmt);
    [exact Hd1|reflexivity|].
  apply exec_buy_signal_missing.
  rewrite (U1 "BuySignal"%string) by (apply not_assigned; vm_compute; reflexivity).
  exact Hb.
Qed.
End MissingColumn.

(** X6: a missing input column.  On a table whose Date column, if there is
    one, holds dates in the format, and whose numeric input columns, where
    present, hold numbers, the function fails with the KeyError that names
    the first column it reads and does not find, in the order Date, high,
    low, close, open, volume, BuySignal; when none of them is missing it
    returns a table. *)
Theorem missing_column_raises_key_error d :
  wfb d = true ->
  (has_label "Date" d = true -> has_dates d = true) ->
  (forall m, In m numeric_labels -> has_label m d = true ->
             has_float (fun _ => true) m d = true) ->
  (forall n, first_missing d = Some n ->
             create_enhanced_stock_data d = Err (KeyError n))
  /\ (first_missing d = None ->
      exists out, create_enhanced_stock_data d = Ok out).
Proof.
  intros Hwf Hdates Hnum.
  destruct (has_label "Date" d) eqn:Hlabel.
  2:{ split.
      - intros n Hfm. unfold first_missing, read_order in Hfm.
        cbn [find] in Hfm. rewrite Hlabel in Hfm. cbn [negb] in Hfm.
        inversion Hfm; subst n. now apply missing_date_column.
      - intros Hnone. unfold first_missing, read_order in Hnone.
        cbn [find] in Hnone. rewrite Hlabel in Hnone. discriminate. }
  specialize (Hdates eq_refl). split.
  - intros n. now apply first_missing_error.
  - intros Hnone.
    assert (Hall : forall m, In m numeric_labels -> has_label m d = true).
    { intros m Hm. unfold first_missing in Hnone.
      assert (Hr : In m read_order) by (simpl in *; tauto).
      pose proof (find_none _ _ Hnone m Hr) as F. cbv beta in F.
      now apply negb_false_iff in F. }
    assert (Hwt : well_typed d = true).
    { unfold well_typed. rewrite Hwf, Hdates. cbn [andb].
      apply forallb_forall. intros m Hm. apply Hnum; auto. }
    destruct (engineer_ok d Hwt) as (E & HE & _).
    exists (dropna E). unfold create_enhanced_stock_data. now rewrite HE.
Qed.


Lemma missing_column_raises_key_error_witness :
  first_missing no_volume_frame = Some "volume"%string
  /\ create_enhanced_stock_data no_volume_frame = Err (KeyError "volume").
Proof.
  split; [reflexivity|].
  assert (Hnum : forall m, In m numeric_labels ->
            has_label m no_volume_frame = true ->
            has_float (fun _ => true) m no_volume_frame = true).
  { intros m Hm. simpl in Hm.
    repeat (destruct Hm as [<-|Hm];
            [intros H; first [reflexivity | vm_compute in H; discriminate]|]).
    destruct Hm. }
  destruct (missing_column_raises_key_error no_volume_frame
              eq_refl (fun _ => eq_refl) Hnum) as [A _].
  apply A. reflexivity.
Defined.

(** ** Valid tables *)

Lemma forallb_posb l :
  forallb posb l = true ->
  exists qs, l = map Fin qs /\ Forall (fun q => (0 < q)%Q) qs.
Proof.
  induction l as [|x t IH]; simpl; intros H.
  - exists []. auto.
  - apply andb_prop in H. destruct H as [Hx Ht].
    destruct (IH Ht) as (qs & -> & F). destruct x as [| |q]; try discriminate.
    exists (q :: qs). split; auto. constructor; auto. now apply Qlt_b_iff.
Qed.

Lemma forallb_nonnegb l :
  forallb nonnegb l = true ->
  exists qs, l = map Fin qs /\ Forall (fun q => (0 <= q)%Q) qs.
Proof.
  induction l as [|x t IH]; simpl; intros H.
  - exists []. auto.
  - apply andb_prop in H. destruct H as [Hx Ht].
    destruct (IH Ht) as (qs & -> & F). destruct x as [| |q]; try discriminate.
    exists (q :: qs). split; auto. constructor; auto. now apply Qle_bool_iff.
Qed.

(** The price series of a valid table: positive rationals, one per row. *)
Lemma valid_price_series d n :
  valid_input d = true -> In n ["open"; "high"; "low"; "close"]%string ->
  exists qs, chronological n d = map Fin qs /\ length qs = nrows d
             /\ Forall (fun q => (0 < q)%Q) qs.
Proof.
  intros Hv Hn. pose proof (valid_well_typed d Hv) as Hwt.
  assert (Hnum : In n numeric_labels) by (simpl in *; tauto).
  pose proof (chronological_forallb d Hwt posb n Hnum (valid_prices d n Hv Hn)) as P.
  destruct (forallb_posb _ P) as (qs & Hq & F).
  exists qs. split; auto. split; auto.
  rewrite <- (chronological_length d Hwt n Hnum). now rewrite Hq, length_map.
Qed.

Lemma valid_volume_series d :
  valid_input d = true ->
  exists qs, chronological "volume" d = map Fin qs /\ length qs = nrows d
             /\ Forall (fun q => (0 <= q)%Q) qs.
Proof.
  intros Hv. pose proof (valid_well_typed d Hv) as Hwt.
  assert (Hnum : In "volume"%string numeric_labels) by (simpl; tauto).
  assert (Hnn : has_float nonnegb "volume" d = true).
  { unfold valid_input in Hv. apply andb_prop in Hv. destruct Hv as [Hv _].
    apply andb_prop in Hv. tauto. }
  pose proof (chronological_forallb d Hwt nonnegb _ Hnum Hnn) as P.
  destruct (forallb_nonnegb _ P) as (qs & Hq & F).
  exists qs. split; auto. split; auto.
  rewrite <- (chronological_length d Hwt _ Hnum). now rewrite Hq, length_map.
Qed.

Lemma Forall_nth_Q (P : Q -> Prop) qs i :
  Forall P qs -> i < length qs -> P (nth i qs 0%Q).
Proof.
  intros F Hi. rewrite Forall_forall in F. apply F. now apply nth_In.
Qed.

Ltac feature_col d E Hwt HE :=
  rewrite (engineer_get d E _ Hwt HE) by (vm_compute; reflexivity);
  reflexivity.

(** ** The range of the relative strength index *)

Lemma rsi_of_range g l :
  (0 <= g)%Q -> (0 < l)%Q ->
  exists q, rsi_of (fdiv (Fin g) (Fin l)) = Fin q /\ (0 <= q)%Q /\ (q <= 100)%Q.
Proof.
  intros Hg Hl. rewrite fdiv_fin_pos by auto.
  set (r := Qred (g / l)).
  assert (Pr : (0 <= r)%Q).
  { unfold r. rewrite Qred_correct. apply Qle_shift_div_l; auto.
    now rewrite Qmult_0_l. }
  assert (P1 : (0 < Qred (1 + r))%Q).
  { rewrite Qred_correct. apply (Qlt_le_trans _ 1); [reflexivity|].
    rewrite <- (Qplus_0_r 1) at 1. now apply Qplus_le_r. }
  assert (E : rsi_of (Fin r)
              = fsub (Fin 100) (fdiv (Fin 100) (Fin (Qred (1 + r)))))
    by reflexivity.
  rewrite E, fdiv_fin_pos by exact P1.
  eexists. split; [reflexivity|].
  rewrite !Qred_correct. rewrite Qred_correct in P1.
  assert (Q1 : (0 <= 100 / (1 + r))%Q).
  { apply Qle_shift_div_l; auto. rewrite Qmult_0_l. discriminate. }
  assert (Q2 : (100 / (1 + r) <= 100)%Q).
  { apply Qle_shift_div_r; auto.
    setoid_replace (100 * (1 + r))%Q with (100 + 100 * r)%Q by ring.
    rewrite <- (Qplus_0_r 100) at 1. apply Qplus_le_r.
    apply Qmult_le_0_compat; auto. discriminate. }
  split.
  - apply (Qplus_le_l _ _ (100 / (1 + r))). ring_simplify. exact Q2.
  - apply (Qplus_le_l _ _ (100 / (1 + r))). ring_simplify.
    rewrite <- (Qplus_0_r 100) at 1. rewrite (Qplus_comm (100 / (1 + r))).
    now apply Qplus_le_r.
Qed.

Lemma rsi_range_rows qs i :
  i < length qs ->
  nth i (calculate_rsi 14 (map Fin qs)) NaN = NaN
  \/ exists q, nth i (calculate_rsi 14 (map Fin qs)) NaN = Fin q
               /\ (0 <= q)%Q /\ (q <= 100)%Q.
Proof.
  intros Hi. destruct (le_lt_dec 13 i) as [H13|H13].
  2:{ left. destruct (rsi_rows qs i Hi) as [R1 _]. apply R1. lia. }
  rewrite calculate_rsi_nth by (now rewrite length_map).
  rewrite rsi_gain_unfold, rsi_loss_unfold.
  destruct (mean_nonneg_rows (gains_of (map Fin qs)) 14 i)
    as (mg & -> & Pg & _); try lia.
  { rewrite gains_length, length_map. lia. }
  { intros j Hj. rewrite gains_length, length_map in Hj.
    destruct (gains_nth qs j Hj) as (u & Hu & Pu & _). eauto. }
  destruct (mean_nonneg_rows (losses_of (map Fin qs)) 14 i)
    as (ml & -> & Pl & _); try lia.
  { rewrite losses_length, length_map. lia. }
  { intros j Hj. rewrite losses_length, length_map in Hj.
    destruct (losses_nth qs j Hj) as (u & Hu & Pu & _). eauto. }
  destruct (Qeq_dec ml 0) as [El|Nl].
  - destruct (rsi_of_zero_loss mg ml El) as [A B].
    destruct (Qeq_dec mg 0) as [Eg|Ng].
    + left. now apply B.
    + right. exists 100%Q. split; [now apply A|]. split; discriminate.
  - right. apply rsi_of_range; auto.
    destruct (Qlt_le_dec 0 ml) as [?|Le]; auto.
    exfalso. apply Nl. now apply Qle_antisym.
Qed.

(** X7: on a valid table every cell of the RSI column is either undefined or
    a number between 0 and 100; it is never infinite, although the ratio of
    mean gain to mean loss can be. *)
Theorem rsi_stays_between_0_and_100 d :
  valid_input d = true ->
  exists E r,
    engineer d = Ok E
    /\ df_get "rsi" E = Ok (ColFloat r)
    /\ length r = nrows d
    /\ forall i, i < nrows d ->
         nth i r NaN = NaN
         \/ exists q, nth i r NaN = Fin q /\ (0 <= q)%Q /\ (q <= 100)%Q.
Proof.
  intros Hv. pose proof (valid_well_typed d Hv) as Hwt.
  destruct (engineer_ok d Hwt) as (E & HE & _).
  destruct (valid_close_fin d Hv) as (qs & Hc & Hlen).
  exists E, (calculate_rsi 14 (chronological "close" d)).
  split; [exact HE|]. split; [feature_col d E Hwt HE|].
  rewrite Hc. split; [now rewrite calculate_rsi_length, length_map|].
  intros i Hi. apply rsi_range_rows. lia.
Qed.

Lemma rsi_stays_between_0_and_100_witness :
  valid_input scenario_frame = true
  /\ exists E r,
       engineer scenario_frame = Ok E
       /\ df_get "rsi" E = Ok (ColFloat r)
       /\ (nth 19 r NaN = NaN
           \/ exists q, nth 19 r NaN = Fin q /\ (0 <= q)%Q /\ (q <= 100)%Q).
Proof.
  assert (Hv : valid_input scenario_frame = true) by (vm_compute; reflexivity).
  split; [exact Hv|].
  destruct (rsi_stays_between_0_and_100 scenario_frame Hv)
    as (E & r & HE & Hr & _ & H).
  exists E, r. split; [exact HE|]. split; [exact Hr|].
  apply H. vm_compute. lia.
Defined.

(** ** Lagged columns *)

Lemma lag_rows k l i :
  i < length l ->
  (i < k -> nth i (shift (Z.of_nat k) l) NaN = NaN)
  /\ (k <= i -> nth i (shift (Z.of_nat k) l) NaN = nth (i - k) l NaN).
Proof.
  intros Hi. rewrite shift_nth_lag by auto. split; intros H.
  - replace (i <? k) with true; auto. symmetry. apply Nat.ltb_lt. lia.
  - replace (i <? k) with false; auto. symmetry. apply Nat.ltb_ge. lia.
Qed.

(** X8: the lag features look back only.  For each lag k in 1, 2, 3, 5 the
    columns close_lag_k, volume_lag_k and price_change_lag_k are undefined at
    the first k rows and hold, at row i >= k, the value of close, volume and
    price_change_pct at row i - k. *)
Theorem lag_features_look_back d :
  well_typed d = true ->
  exists E pct,
    engineer d = Ok E
    /\ df_get "price_change_pct" E = Ok (ColFloat pct)
    /\ forall k, In k lag_periods ->
       exists cl vl pl,
         df_get (fname "close_lag_" k) E = Ok (ColFloat cl)
         /\ df_get (fname "volume_lag_" k) E = Ok (ColFloat vl)
         /\ df_get (fname "price_change_lag_" k) E = Ok (ColFloat pl)
         /\ forall i, i < nrows d ->
              (i < k -> nth i cl NaN = NaN /\ nth i vl NaN = NaN
                        /\ nth i pl NaN = NaN)
              /\ (k <= i ->
                  nth i cl NaN = nth (i - k) (chronological "close" d) NaN
                  /\ nth i vl NaN = nth (i - k) (chronological "volume" d) NaN
                  /\ nth i pl NaN = nth (i - k) pct NaN).
Proof.
  intros Hwt. destruct (engineer_ok d Hwt) as (E & HE & _).
  set (c := chronological "close" d).
  set (o := chronological "open" d).
  set (v := chronological "volume" d).
  set (pct := map (fun x => fmul x (of_Z 100)) (map2 fdiv (map2 fsub c o) o)).
  assert (Lc : length c = nrows d)
    by (apply chronological_length; simpl; auto 10).
  assert (Lo : length o = nrows d)
    by (apply chronological_length; simpl; auto 10).
  assert (Lv : length v = nrows d)
    by (apply chronological_length; simpl; auto 10).
  assert (Lp : length pct = nrows d).
  { unfold pct. rewrite length_map, !map2_length. lia. }
  exists E, pct. split; [exact HE|]. split; [feature_col d E Hwt HE|].
  intros k Hk.
  exists (shift (Z.of_nat k) c), (shift (Z.of_nat k) v), (shift (Z.of_nat k) pct).
  assert (G : df_get (fname "close_lag_" k) E = Ok (ColFloat (shift (Z.of_nat k) c))
              /\ df_get (fname "volume_lag_" k) E
                 = Ok (ColFloat (shift (Z.of_nat k) v))
              /\ df_get (fname "price_change_lag_" k) E
                 = Ok (ColFloat (shift (Z.of_nat k) pct))).
  { simpl in Hk. destruct Hk as [<-|[<-|[<-|[<-|[]]]]];
      (split; [|split]); feature_col d E Hwt HE. }
  destruct G as (G1 & G2 & G3).
  split; [exact G1|]. split; [exact G2|]. split; [exact G3|].
  intros i Hi.
  destruct (lag_rows k c i ltac:(lia)) as [C1 C2].
  destruct (lag_rows k v i ltac:(lia)) as [V1 V2].
  destruct (lag_rows k pct i ltac:(lia)) as [P1 P2].
  split; intros H; auto.
Qed.

Lemma lag_features_look_back_witness :
  well_typed scenario_frame = true
  /\ exists E cl,
       engineer scenario_frame = Ok E
       /\ df_get "close_lag_5" E = Ok (ColFloat cl)
       /\ nth 4 cl NaN = NaN
       /\ nth 19 cl NaN = nth 14 (chronological "close" scenario_frame) NaN.
Proof.
  assert (Hwt : well_typed scenario_frame = true) by (vm_compute; reflexivity).
  split; [exact Hwt|].
  destruct (lag_features_look_back scenario_frame Hwt) as (E & pct & HE & _ & H).
  destruct (H 5 ltac:(simpl; auto)) as (cl & vl & pl & Hc & _ & _ & R).
  exists E, cl. split; [exact HE|]. split; [exact Hc|]. split.
  - apply (R 4); [vm_compute|]; lia.
  - apply (R 19); [vm_compute|]; lia.
Defined.

(** ** Returns *)

Lemma feq_fin_red a b : (a == b)%Q -> Fin (Qred a) =f= Fin b.
Proof. intros H. simpl. now rewrite Qred_correct. Qed.

(** X9: the two kinds of return.  On a valid table roc_p, for p in 5, 10,
    20, is undefined at the first p rows and is (close_i - close_(i-p)) /
    close_(i-p) * 100 afterwards, and next_day_return, the one column that
    looks ahead, is close_(i+1) / close_i - 1 at every row but the last. *)
Theorem returns_over_past_and_next_rows d :
  valid_input d = true ->
  exists E cs ndr,
    engineer d = Ok E
    /\ chronological "close" d = map Fin cs
    /\ df_get "next_day_return" E = Ok (ColFloat ndr)
    /\ (forall i, i + 1 < nrows d ->
          nth i ndr NaN =f= Fin (nth (i + 1) cs 0 / nth i cs 0 - 1)%Q)
    /\ forall p, In p roc_periods ->
       exists roc,
         df_get (fname "roc_" p) E = Ok (ColFloat roc)
         /\ forall i, i < nrows d ->
              (i < p -> nth i roc NaN = NaN)
              /\ (p <= i ->
                  nth i roc NaN
                  =f= Fin ((nth i cs 0 - nth (i - p) cs 0)
                           / nth (i - p) cs 0 * 100)%Q).
Proof.
  intros Hv. pose proof (valid_well_typed d Hv) as Hwt.
  destruct (engineer_ok d Hwt) as (E & HE & _).
  destruct (valid_price_series d "close" Hv ltac:(simpl; auto 10))
    as (cs & Hc & Lc & Pc).
  set (c := chronological "close" d) in *.
  exists E, cs, (map (fun x => fsub x (of_Z 1)) (map2 fdiv (shift (-1) c) c)).
  split; [exact HE|]. split; [exact Hc|].
  split; [feature_col d E Hwt HE|].
  assert (Lcc : length c = nrows d) by (rewrite Hc, length_map; exact Lc).
  assert (Nc : forall j, j < nrows d -> nth j c NaN = Fin (nth j cs 0%Q)).
  { intros j Hj. rewrite Hc. apply nth_map_in. lia. }
  split.
  - intros i Hi.
    rewrite (nth_map_in _ _ _ NaN) by (rewrite map2_length, shift_length; lia).
    rewrite (map2_nth fdiv _ _ _ NaN NaN) by (rewrite ?shift_length; lia).
    rewrite shift_nth_lead by lia.
    replace (i + 1 <? length c) with true by (symmetry; apply Nat.ltb_lt; lia).
    rewrite !Nc by lia.
    rewrite fdiv_fin_pos by (apply Forall_nth_Q; auto; lia).
    apply feq_fin_red. rewrite !Qred_correct. reflexivity.
  - intros p Hp.
    set (sh := shift (Z.of_nat p) c).
    exists (map (fun x => fmul x (of_Z 100)) (map2 fdiv (map2 fsub c sh) sh)).
    split.
    { unfold sh. simpl in Hp. destruct Hp as [<-|[<-|[<-|[]]]];
        feature_col d E Hwt HE. }
    intros i Hi.
    assert (Ls : length sh = nrows d) by (unfold sh; now rewrite shift_length).
    rewrite (nth_map_in _ _ _ NaN) by (rewrite !map2_length; lia).
    rewrite (map2_nth fdiv _ _ _ NaN NaN) by (rewrite ?map2_length; lia).
    rewrite (map2_nth fsub _ _ _ NaN NaN) by lia.
    destruct (lag_rows p c i ltac:(lia)) as [S1 S2]. fold sh in S1, S2.
    split; intros H.
    + rewrite (S1 H). rewrite Nc by lia. reflexivity.
    + rewrite (S2 H), !Nc by lia.
      change (fsub (Fin (nth i cs 0%Q)) (Fin (nth (i - p) cs 0%Q)))
        with (Fin (Qred (nth i cs 0 + Qred (- nth (i - p) cs 0))%Q)).
      rewrite fdiv_fin_pos by (apply Forall_nth_Q; auto; lia).
      apply feq_fin_red. rewrite !Qred_correct. reflexivity.
Qed.

Lemma returns_over_past_and_next_rows_witness :
  valid_input scenario_frame = true
  /\ exists E cs ndr,
       engineer scenario_frame = Ok E
       /\ chronological "close" scenario_frame = map Fin cs
       /\ df_get "next_day_return" E = Ok (ColFloat ndr)
       /\ nth 0 ndr NaN =f= Fin (nth 1 cs 0 / nth 0 cs 0 - 1)%Q.
Proof.
  assert (Hv : valid_input scenario_frame = true) by (vm_compute; reflexivity).
  split; [exact Hv|].
  destruct (returns_over_past_and_next_rows scenario_frame Hv)
    as (E & cs & ndr & HE & Hc & Hn & H & _).
  exists E, cs, ndr. split; [exact HE|]. split; [exact Hc|].
  split; [exact Hn|].
  apply (H 0). vm_compute. lia.
Defined.

(** ** Bollinger bands *)

Lemma fin_series_from qs n :
  length qs = n -> fin_from n 0 (map Fin qs).
Proof.
  intros L. split; [now rewrite length_map|]. intros j _ Hj.
  exists (nth j qs 0%Q). apply nth_map_in. lia.
Qed.

Lemma rolling_undefined agg w l i :
  i < w - 1 -> i < length l -> nth i (rolling agg w l) NaN = NaN.
Proof.
  intros H Hi. rewrite rolling_nth by auto.
  replace (i + 1 <? w) with true; auto. symmetry. apply Nat.ltb_lt. lia.
Qed.

Lemma rolling_std_rows qs w i :
  2 <= w -> w - 1 <= i -> i < length qs ->
  exists sd, nth i (rolling std_agg w (map Fin qs)) NaN = Fin sd /\ (0 <= sd)%Q.
Proof.
  intros Hw Hlo Hi.
  rewrite rolling_nth by (now rewrite length_map).
  replace (i + 1 <? w) with false by (symmetry; apply Nat.ltb_ge; lia).
  destruct (window_fin (length qs) 0 (map Fin qs) w i
              (fin_series_from qs _ eq_refl) ltac:(lia) ltac:(lia) Hi)
    as (ws & -> & Lw).
  destruct (std_agg_fin ws ltac:(lia)) as (sd & -> & P & _). eauto.
Qed.

(** X10: the Bollinger bands of a valid table.  bb_middle is the column
    sma_20; the four band columns are undefined at rows 0 to 18; from row
    19 on they are numbers with bb_upper = bb_middle + 2 sd and bb_lower =
    bb_middle - 2 sd, where sd >= 0 is the cell of volatility_20, so that
    bb_lower <= bb_middle <= bb_upper and bb_width >= 0. *)
Theorem bollinger_bands_enclose_the_mean d :
  valid_input d = true ->
  exists E mid up lo wid vol,
    engineer d = Ok E
    /\ df_get "bb_middle" E = Ok (ColFloat mid)
    /\ df_get "sma_20" E = Ok (ColFloat mid)
    /\ df_get "bb_upper" E = Ok (ColFloat up)
    /\ df_get "bb_lower" E = Ok (ColFloat lo)
    /\ df_get "bb_width" E = Ok (ColFloat wid)
    /\ df_get "volatility_20" E = Ok (ColFloat vol)
    /\ forall i, i < nrows d ->
         (i < 19 -> nth i mid NaN = NaN /\ nth i up NaN = NaN
                    /\ nth i lo NaN = NaN /\ nth i wid NaN = NaN)
         /\ (19 <= i ->
             exists m u l w sd,
               nth i mid NaN = Fin m /\ nth i up NaN = Fin u
               /\ nth i lo NaN = Fin l /\ nth i wid NaN = Fin w
               /\ nth i vol NaN = Fin sd
               /\ (0 <= sd)%Q /\ (u == m + sd * 2)%Q /\ (l == m - sd * 2)%Q
               /\ (l <= m)%Q /\ (m <= u)%Q /\ (0 <= w)%Q).
Proof.
  intros Hv. pose proof (valid_well_typed d Hv) as Hwt.
  destruct (engineer_ok d Hwt) as (E & HE & _).
  destruct (valid_close_fin d Hv) as (qs & Hc & Hlen).
  set (c := chronological "close" d) in *.
  set (M := rolling mean_agg 20 c).
  set (SD := rolling std_agg 20 c).
  set (S2 := map (fun x => fmul x (of_Z 2)) SD).
  exists E, M, (map2 fadd M S2), (map2 fsub M S2),
    (map2 fsub (map2 fadd M S2) (map2 fsub M S2)), SD.
  split; [exact HE|].
  do 6 (split; [feature_col d E Hwt HE|]).
  assert (Lc : length c = nrows d) by (rewrite Hc, length_map; exact Hlen).
  assert (LM : length M = nrows d) by (unfold M; now rewrite rolling_length).
  assert (LD : length SD = nrows d) by (unfold SD; now rewrite rolling_length).
  assert (LS : length S2 = nrows d) by (unfold S2; now rewrite length_map).
  intros i Hi.
  rewrite (map2_nth fsub (map2 fadd M S2) (map2 fsub M S2) i NaN NaN NaN)
    by (rewrite map2_length; lia).
  rewrite (map2_nth fadd M S2 i NaN NaN NaN) by lia.
  rewrite (map2_nth fsub M S2 i NaN NaN NaN) by lia.
  unfold S2. rewrite (nth_map_in _ SD i NaN NaN) by lia.
  split.
  - intros H19. unfold M, SD.
    rewrite !rolling_undefined by lia. repeat split; reflexivity.
  - intros H19. unfold M, SD. rewrite Hc.
    destruct (sma_defined qs 20 i) as (m & ->); try lia.
    destruct (rolling_std_rows qs 20 i) as (sd & -> & Psd); try lia.
    set (t := Qred (sd * inject_Z 2)).
    assert (Et : (t == sd * 2)%Q) by (unfold t; now rewrite Qred_correct).
    assert (Pt : (0 <= t)%Q) by lra.
    exists m, (Qred (m + t)), (Qred (m + Qred (- t))),
      (Qred (Qred (m + t) + Qred (- Qred (m + Qred (- t))))), sd.
    do 5 (split; [reflexivity|]). split; [exact Psd|].
    rewrite !Qred_correct. rewrite <- Et.
    split; [reflexivity|]. split; [reflexivity|].
    split; [lra|]. split; lra.
Qed.

Lemma bollinger_bands_enclose_the_mean_witness :
  valid_input scenario_frame = true
  /\ exists E mid up lo,
       engineer scenario_frame = Ok E
       /\ df_get "bb_middle" E = Ok (ColFloat mid)
       /\ df_get "bb_upper" E = Ok (ColFloat up)
       /\ df_get "bb_lower" E = Ok (ColFloat lo)
       /\ nth 18 up NaN = NaN
       /\ exists m u l, nth 19 mid NaN = Fin m /\ nth 19 up NaN = Fin u
                        /\ nth 19 lo NaN = Fin l /\ (l <= m)%Q /\ (m <= u)%Q.
Proof.
  assert (Hv : valid_input scenario_frame = true) by (vm_compute; reflexivity).
  split; [exact Hv|].
  destruct (bollinger_bands_enclose_the_mean scenario_frame Hv)
    as (E & mid & up & lo & wid & vol & HE & Hm & _ & Hu & Hl & _ & _ & H).
  exists E, mid, up, lo. split; [exact HE|]. split; [exact Hm|].
  split; [exact Hu|]. split; [exact Hl|].
  destruct (H 18 ltac:(vm_compute; lia)) as [A _].
  destruct (H 19 ltac:(vm_compute; lia)) as [_ B].
  split; [apply A; lia|].
  destruct (B ltac:(lia)) as (m & u & l & w & sd & H1 & H2 & H3 & _ & _ & _ & _ & _ & L1 & L2 & _).
  exists m, u, l. auto.
Defined.

(** ** Recent high and low *)

Lemma fold_fmax_spec ws : forall a,
  exists z, fold_left fmax (map Fin ws) (Fin a) = Fin z
            /\ In z (a :: ws) /\ Forall (fun q => (q <= z)%Q) (a :: ws).
Proof.
  induction ws as [|x ws IH]; intros a.
  - exists a. simpl. split; auto. split; auto. constructor; auto. apply Qle_refl.
  - cbn [map fold_left]. unfold fmax at 2. unfold fgt.
    destruct (Qlt_b a x) eqn:L.
    + apply Qlt_b_iff in L.
      destruct (IH x) as (z & -> & Hin & F). exists z. split; auto.
      inversion F as [|? ? Fx Fws]; subst. split.
      * simpl in *. tauto.
      * constructor; [|constructor; auto].
        apply Qle_trans with x; auto. now apply Qlt_le_weak.
    + assert (N : (x <= a)%Q).
      { apply Qnot_lt_le. intros C. apply Qlt_b_iff in C. congruence. }
      destruct (IH a) as (z & -> & Hin & F). exists z. split; auto.
      inversion F as [|? ? Fa Fws]; subst. split.
      * simpl in *. tauto.
      * constructor; auto. constructor; auto. now apply Qle_trans with a.
Qed.

Lemma fold_fmin_spec ws : forall a,
  exists z, fold_left fmin (map Fin ws) (Fin a) = Fin z
            /\ In z (a :: ws) /\ Forall (fun q => (z <= q)%Q) (a :: ws).
Proof.
  induction ws as [|x ws IH]; intros a.
  - exists a. simpl. split; auto. split; auto. constructor; auto. apply Qle_refl.
  - cbn [map fold_left]. unfold fmin at 2. unfold flt, fgt.
    destruct (Qlt_b x a) eqn:L.
    + apply Qlt_b_iff in L.
      destruct (IH x) as (z & -> & Hin & F). exists z. split; auto.
      inversion F as [|? ? Fx Fws]; subst. split.
      * simpl in *. tauto.
      * constructor; [|constructor; auto].
        apply Qle_trans with x; auto. now apply Qlt_le_weak.
    + assert (N : (a <= x)%Q).
      { apply Qnot_lt_le. intros C. apply Qlt_b_iff in C. congruence. }
      destruct (IH a) as (z & -> & Hin & F). exists z. split; auto.
      inversion F as [|? ? Fa Fws]; subst. split.
      * simpl in *. tauto.
      * constructor; auto. constructor; auto. now apply Qle_trans with a.
Qed.

(** The rolling extreme of a finite series: a value of the window that
    bounds every value of the window. *)
Lemma rolling_extreme_rows (agg : list float -> float) (R : Q -> Q -> Prop)
  qs w i :
  (forall x ws, exists z, agg (map Fin (x :: ws)) = Fin z
                          /\ In z (x :: ws) /\ Forall (fun q => R q z) (x :: ws)) ->
  0 < w -> w - 1 <= i -> i < length qs ->
  exists z,
    nth i (rolling agg w (map Fin qs)) NaN = Fin z
    /\ (exists j, i + 1 - w <= j /\ j <= i /\ nth j qs 0%Q = z)
    /\ (forall j, i + 1 - w <= j -> j <= i -> R (nth j qs 0%Q) z).
Proof.
  intros Hagg Hw Hlo Hi.
  rewrite rolling_nth by (now rewrite length_map).
  replace (i + 1 <? w) with false by (symmetry; apply Nat.ltb_ge; lia).
  rewrite (window_rows w i _ NaN) by (rewrite ?length_map; lia).
  rewrite map_nth_fin.
  2:{ apply Forall_forall. intros k Hk. apply in_seq in Hk. lia. }
  set (ws := map (fun k => nth k qs 0%Q) (seq (i + 1 - w) w)).
  destruct ws as [|x ws'] eqn:Ews.
  { apply (f_equal (@length _)) in Ews. unfold ws in Ews.
    rewrite length_map, length_seq in Ews. simpl in Ews. lia. }
  destruct (Hagg x ws') as (z & -> & Hin & F).
  exists z. split; [reflexivity|]. rewrite <- Ews in Hin, F. split.
  - unfold ws in Hin. apply in_map_iff in Hin. destruct Hin as (j & E & Hj).
    apply in_seq in Hj. exists j. split; [lia|]. split; [lia|]. exact E.
  - intros j H1 H2. rewrite Forall_forall in F. apply F.
    unfold ws. apply in_map_iff. exists j. split; auto. apply in_seq. lia.
Qed.

Lemma max_agg_spec x ws :
  exists z, max_agg (map Fin (x :: ws)) = Fin z
            /\ In z (x :: ws) /\ Forall (fun q => (q <= z)%Q) (x :: ws).
Proof.
  unfold max_agg. rewrite existsb_isna_fin. cbn [map]. apply fold_fmax_spec.
Qed.

Lemma min_agg_spec x ws :
  exists z, min_agg (map Fin (x :: ws)) = Fin z
            /\ In z (x :: ws) /\ Forall (fun q => (z <= q)%Q) (x :: ws).
Proof.
  unfold min_agg. rewrite existsb_isna_fin. cbn [map]. apply fold_fmin_spec.
Qed.

(** X11: recent_high and recent_low of a valid table are undefined at rows 0
    to 18; from row 19 on recent_high is the largest high, and recent_low the
    smallest low, of the rows i-19 to i: a value of one of these rows that
    bounds the values of all of them. *)
Theorem recent_high_and_low_are_window_extremes d :
  valid_input d = true ->
  exists E hs ls rh rl,
    engineer d = Ok E
    /\ chronological "high" d = map Fin hs
    /\ chronological "low" d = map Fin ls
    /\ df_get "recent_high" E = Ok (ColFloat rh)
    /\ df_get "recent_low" E = Ok (ColFloat rl)
    /\ forall i, i < nrows d ->
         (i < 19 -> nth i rh NaN = NaN /\ nth i rl NaN = NaN)
         /\ (19 <= i ->
             exists hi lo,
               nth i rh NaN = Fin hi /\ nth i rl NaN = Fin lo
               /\ (exists j, i - 19 <= j /\ j <= i /\ nth j hs 0%Q = hi)
               /\ (forall j, i - 19 <= j -> j <= i -> (nth j hs 0 <= hi)%Q)
               /\ (exists j, i - 19 <= j /\ j <= i /\ nth j ls 0%Q = lo)
               /\ (forall j, i - 19 <= j -> j <= i -> (lo <= nth j ls 0)%Q)).
Proof.
  intros Hv. pose proof (valid_well_typed d Hv) as Hwt.
  destruct (engineer_ok d Hwt) as (E & HE & _).
  destruct (valid_price_series d "high" Hv ltac:(simpl; auto 10))
    as (hs & Hh & Lh & _).
  destruct (valid_price_series d "low" Hv ltac:(simpl; auto 10))
    as (ls & Hl & Ll & _).
  exists E, hs, ls, (rolling max_agg 20 (chronological "high" d)),
    (rolling min_agg 20 (chronological "low" d)).
  split; [exact HE|]. split; [exact Hh|]. split; [exact Hl|].
  do 2 (split; [feature_col d E Hwt HE|]).
  rewrite Hh, Hl. intros i Hi. split.
  - intros H19. rewrite !rolling_undefined by (rewrite ?length_map; lia). auto.
  - intros H19.
    destruct (rolling_extreme_rows max_agg (fun q z => (q <= z)%Q) hs 20 i
                max_agg_spec) as (hi & E1 & J1 & B1); try lia.
    destruct (rolling_extreme_rows min_agg (fun q z => (z <= q)%Q) ls 20 i
                min_agg_spec) as (lo & E2 & J2 & B2); try lia.
    replace (i + 1 - 20) with (i - 19) in * by lia.
    exists hi, lo. auto 10.
Qed.

Lemma recent_high_and_low_are_window_extremes_witness :
  valid_input scenario_frame = true
  /\ exists E rh,
       engineer scenario_frame = Ok E
       /\ df_get "recent_high" E = Ok (ColFloat rh)
       /\ nth 18 rh NaN = NaN
       /\ exists hi, nth 19 rh NaN = Fin hi.
Proof.
  assert (Hv : valid_input scenario_frame = true) by (vm_compute; reflexivity).
  split; [exact Hv|].
  destruct (recent_high_and_low_are_window_extremes scenario_frame Hv)
    as (E & hs & ls & rh & rl & HE & _ & _ & Hr & _ & H).
  exists E, rh. split; [exact HE|]. split; [exact Hr|].
  destruct (H 18 ltac:(vm_compute; lia)) as [A _].
  destruct (H 19 ltac:(vm_compute; lia)) as [_ B].
  split; [apply A; lia|].
  destruct (B ltac:(lia)) as (hi & lo & H1 & _). eauto.
Defined.

(** ** Calendar columns *)

Lemma digit_of_range c z : digit_of c = Some z -> (0 <= z <= 9)%Z.
Proof.
  unfold digit_of.
  destruct ((48 <=? nat_of_ascii c) && (nat_of_ascii c <=? 57)) eqn:E;
    [|discriminate].
  apply andb_prop in E. destruct E as [E1 E2].
  apply Nat.leb_le in E1. apply Nat.leb_le in E2.
  intros H. inversion H. lia.
Qed.

Lemma parse_year_range s y : parse_year s = Some y -> (1969 <= y <= 2068)%Z.
Proof.
  unfold parse_year.
  destruct s as [|a [|b [|? ?]]]; try discriminate.
  destruct (digit_of a) as [x|] eqn:Ea; [|discriminate].
  destruct (digit_of b) as [z|] eqn:Eb; [|discriminate].
  apply digit_of_range in Ea. apply digit_of_range in Eb.
  cbv zeta. destruct (10 * x + z <=? 68)%Z eqn:L; intros H.
  - apply Z.leb_le in L.
    assert (Hy : y = (2000 + (10 * x + z))%Z) by congruence. lia.
  - apply Z.leb_gt in L.
    assert (Hy : y = (1900 + (10 * x + z))%Z) by congruence. lia.
Qed.

Lemma month_of_abbr_range a b c m :
  month_of_abbr a b c = Some m -> (1 <= m <= 12)%Z.
Proof.
  unfold month_of_abbr.
  repeat match goal with
         | |- context [String.eqb ?u ?v] => destruct (String.eqb u v)
         end;
    intros H; try discriminate; inversion H; lia.
Qed.

Lemma parse_day_range s d0 rest :
  parse_day s = Some (d0, rest) -> (1 <= d0)%Z.
Proof.
  unfold parse_day. destruct s as [|a [|b r]]; try discriminate.
  destruct (digit_of a) as [x|], (digit_of b) as [y|]; try discriminate.
  - cbv zeta.
    destruct ((1 <=? 10 * x + y) && (10 * x + y <=? 31))%Z eqn:E;
      [|discriminate].
    apply andb_prop in E. destruct E as [E _]. apply Z.leb_le in E.
    intros H. assert (Hd : d0 = (10 * x + y)%Z) by congruence. lia.
  - destruct (1 <=? x)%Z eqn:E; [|discriminate]. apply Z.leb_le in E.
    intros H. inversion H. lia.
  - destruct (Ascii.eqb a " " && (1 <=? y)%Z) eqn:E; [|discriminate].
    apply andb_prop in E. destruct E as [_ E]. apply Z.leb_le in E.
    intros H. inversion H. lia.
Qed.

(** A date that the format accepts is a calendar date of the years 1969 to
    2068. *)
Lemma strptime_range s dt :
  strptime s = Some dt ->
  (1969 <= year dt <= 2068)%Z /\ (1 <= month dt <= 12)%Z
  /\ (1 <= day dt <= days_in_month (year dt) (month dt))%Z.
Proof.
  unfold strptime.
  destruct (parse_day s) as [[d0 rest]|] eqn:Ed; [|discriminate].
  apply parse_day_range in Ed.
  destruct rest as [|c0 [|a [|b [|c [|c1 rest]]]]]; try discriminate;
    try (destruct c0 as [[] [] [] [] [] [] [] []]; discriminate).
  destruct c0 as [[] [] [] [] [] [] [] []]; try discriminate.
  destruct c1 as [[] [] [] [] [] [] [] []]; try discriminate.
  destruct (month_of_abbr a b c) as [m|] eqn:Em; [|discriminate].
  destruct (parse_year rest) as [y|] eqn:Ey; [|discriminate].
  apply month_of_abbr_range in Em. apply parse_year_range in Ey.
  destruct (d0 <=? days_in_month y m)%Z eqn:L; [|discriminate].
  apply Z.leb_le in L. intros H. inversion H. simpl. lia.
Qed.

Lemma mapM_parse_In l ds dt :
  mapM parse_cell l = Ok ds -> In (Some dt) ds ->
  exists s, strptime s = Some dt.
Proof.
  revert ds. induction l as [|x t IH]; simpl; intros ds H Hin.
  - inversion H; subst. contradiction.
  - destruct (parse_cell x) as [y|] eqn:Ex; simpl in H; [|discriminate].
    destruct (mapM parse_cell t) as [ys|]; simpl in H; [|discriminate].
    inversion H; subst. destruct Hin as [->|Hin]; [|eauto].
    destruct x as [s|]; simpl in Ex; [|discriminate].
    destruct (strptime s) as [dt'|] eqn:Es; [|discriminate].
    inversion Ex; subst. eauto.
Qed.

Lemma wt_chronological_dates d :
  well_typed d = true ->
  exists dates,
    chronological_dates d = map Some dates
    /\ length dates = nrows d
    /\ forall dt, In dt dates -> exists s, strptime s = Some dt.
Proof.
  intros Hwt. destruct (wt_dates d Hwt) as (l & Hg & Hp).
  destruct (has_dates_parsed d) as (l' & Hg' & Hm).
  { unfold well_typed in Hwt. apply andb_prop in Hwt. destruct Hwt as [H _].
    apply andb_prop in H. tauto. }
  destruct (wt_parsed_dates d Hwt) as [Lp Hc].
  destruct (mapM_parse l Hp) as (ds & Hds & _ & Hs).
  assert (l' = l) by congruence. subst l'.
  assert (Eds : parsed_dates d = ds) by congruence.
  assert (Hall : forall i, present (chronological_dates d) i = true).
  { intros i. apply (dates_present (chronological_dates d) i).
    rewrite Hc, Eds. now apply forallb_take. }
  destruct (all_present _ Hall) as (dates & Hdates).
  exists dates. split; [exact Hdates|]. split.
  - rewrite <- (length_map Some dates), <- Hdates, Hc.
    rewrite take_length, argsort_length; auto.
    apply perm_seq_bound, argsort_perm.
  - intros dt Hdt.
    apply (mapM_parse_In l (parsed_dates d) dt Hm).
    assert (I : In (Some dt) (chronological_dates d))
      by (rewrite Hdates; now apply in_map).
    rewrite Hc in I.
    apply (Permutation_in _ (take_Permutation _ _ (argsort_perm key_leb _)) I).
Qed.

(** X12: the calendar columns of a well typed table are integer columns: the
    day of the week (Monday is 0), month, quarter and year of the date of
    each row.  A two-digit year 00 to 68 is read as 2000 to 2068 and 69 to 99
    as 1969 to 1999, so every year lies between 1969 and 2068; months lie
    between 1 and 12, quarters between 1 and 4, days of the week between 0
    and 6. *)
Theorem calendar_columns_and_their_ranges d :
  well_typed d = true ->
  exists E dates,
    engineer d = Ok E
    /\ chronological_dates d = map Some dates
    /\ df_get "day_of_week" E = Ok (ColInt (map dayofweek dates))
    /\ df_get "month" E = Ok (ColInt (map month dates))
    /\ df_get "quarter" E = Ok (ColInt (map quarter dates))
    /\ df_get "year" E = Ok (ColInt (map year dates))
    /\ Forall (fun dt =>
                 (1969 <= year dt <= 2068)%Z /\ (1 <= month dt <= 12)%Z
                 /\ (1 <= day dt <= days_in_month (year dt) (month dt))%Z
                 /\ (1 <= quarter dt <= 4)%Z /\ (0 <= dayofweek dt <= 6)%Z)
              dates.
Proof.
  intros Hwt. destruct (engineer_ok d Hwt) as (E & HE & _).
  destruct (wt_chronological_dates d Hwt) as (dates & Hd & _ & Hs).
  exists E, dates. split; [exact HE|]. split; [exact Hd|].
  assert (P : forallb (fun o : option date =>
                         match o with Some _ => true | None => false end)
                      (map Some dates) = true).
  { clear. induction dates; simpl; auto. }
  assert (M : forall f : date -> Z,
            map (fun o : option date =>
                   match o with Some dt => f dt | None => 0%Z end)
                (map Some dates) = map f dates).
  { intros f. rewrite map_map. reflexivity. }
  assert (C : forall name f,
            closed_col name d
            = Ok (if forallb (fun o : option date =>
                                match o with Some _ => true | None => false end)
                             (chronological_dates d)
                  then ColInt (map (fun o : option date =>
                                      match o with
                                      | Some dt => f dt
                                      | None => 0%Z
                                      end) (chronological_dates d))
                  else ColFloat (map (fun o : option date =>
                                        match o with
                                        | Some dt => of_Z (f dt)
                                        | None => NaN
                                        end) (chronological_dates d))) ->
            df_get name E = closed_col name d ->
            df_get name E = Ok (ColInt (map f dates))).
  { intros name f H1 H2. rewrite H2, H1, Hd, P, M. reflexivity. }
  split; [apply C; [reflexivity|];
          apply (engineer_get d E _ Hwt HE); vm_compute; reflexivity|].
  split; [apply C; [reflexivity|];
          apply (engineer_get d E _ Hwt HE); vm_compute; reflexivity|].
  split; [apply C; [reflexivity|];
          apply (engineer_get d E _ Hwt HE); vm_compute; reflexivity|].
  split; [apply C; [reflexivity|];
          apply (engineer_get d E _ Hwt HE); vm_compute; reflexivity|].
  apply Forall_forall. intros dt Hdt.
  destruct (Hs dt Hdt) as (s & Hstr).
  destruct (strptime_range s dt Hstr) as (Y & Mo & D).
  split; [exact Y|]. split; [exact Mo|]. split; [exact D|]. split.
  - unfold quarter.
    assert (0 <= (month dt - 1) / 3 < 4)%Z; [|lia].
    split; [apply Z.div_pos; lia|].
    apply Z.div_lt_upper_bound; lia.
  - unfold dayofweek.
    pose proof (Z.mod_pos_bound (days_from_civil dt + 3) 7 ltac:(lia)). lia.
Qed.

Lemma calendar_columns_and_their_ranges_witness :
  well_typed scenario_frame = true
  /\ exists E dates,
       engineer scenario_frame = Ok E
       /\ df_get "year" E = Ok (ColInt (map year dates))
       /\ Forall (fun dt => (1969 <= year dt <= 2068)%Z) dates.
Proof.
  assert (Hwt : well_typed scenario_frame = true) by (vm_compute; reflexivity).
  split; [exact Hwt|].
  destruct (calendar_columns_and_their_ranges scenario_frame Hwt)
    as (E & dates & HE & _ & _ & _ & _ & Hy & F).
  exists E, dates. split; [exact HE|]. split; [exact Hy|].
  eapply Forall_impl; [|exact F]. intros dt H. cbv beta in H. apply H.
Defined.

(** ** The change of the volume *)

Lemma pct_change_rows_fin vs i :
  1 <= i -> i < length vs ->
  nth i (pct_change (map Fin vs)) NaN
  = fsub (fdiv (Fin (nth i vs 0%Q)) (Fin (nth (i - 1) vs 0%Q))) (of_Z 1).
Proof.
  intros H1 Hi. unfold pct_change, ffill. rewrite ffill_from_fin.
  rewrite (map2_nth _ _ _ i NaN NaN)
    by (rewrite ?shift_length, length_map; lia).
  change 1%Z with (Z.of_nat 1) at 1.
  rewrite shift_nth_lag by (rewrite length_map; lia).
  replace (i <? 1) with false by (symmetry; apply Nat.ltb_ge; lia).
  rewrite (nth_map_in Fin vs i 0%Q) by lia.
  rewrite (nth_map_in Fin vs (i - 1) 0%Q) by lia. reflexivity.
Qed.

Lemma ffill_from_length l : forall y, length (ffill_from y l) = length l.
Proof. induction l as [|x t IH]; intros y; simpl; auto. Qed.

Lemma pct_change_first l : 0 < length l -> nth 0 (pct_change l) NaN = NaN.
Proof.
  intros H. unfold pct_change.
  assert (L : length (ffill l) = length l) by apply ffill_from_length.
  rewrite (map2_nth _ _ _ 0 NaN NaN) by (rewrite ?shift_length; lia).
  change 1%Z with (Z.of_nat 1) at 1. rewrite shift_nth_lag by lia.
  cbn [Nat.ltb Nat.leb]. destruct (nth 0 (ffill l) NaN); reflexivity.
Qed.

(** X13: volume_change on a valid table.  Row 0 is undefined; at a later row
    it is volume_i / volume_(i-1) - 1 when the volume of the row before is
    positive; after a row of zero volume it is plus infinity when the volume
    is positive, a value that pruning does not treat as missing, and
    undefined when the volume is zero again. *)
Theorem volume_change_after_zero_volume d :
  valid_input d = true ->
  exists E vs vc,
    engineer d = Ok E
    /\ chronological "volume" d = map Fin vs
    /\ df_get "volume_change" E = Ok (ColFloat vc)
    /\ (0 < nrows d -> nth 0 vc NaN = NaN)
    /\ forall i, 1 <= i -> i < nrows d ->
         ((0 < nth (i - 1) vs 0)%Q ->
          nth i vc NaN =f= Fin (nth i vs 0 / nth (i - 1) vs 0 - 1)%Q)
         /\ ((nth (i - 1) vs 0 == 0)%Q -> (0 < nth i vs 0)%Q ->
             nth i vc NaN = Inf false /\ col_notna (ColFloat vc) i = true)
         /\ ((nth (i - 1) vs 0 == 0)%Q -> (nth i vs 0 == 0)%Q ->
             nth i vc NaN = NaN).
Proof.
  intros Hv. pose proof (valid_well_typed d Hv) as Hwt.
  destruct (engineer_ok d Hwt) as (E & HE & _).
  destruct (valid_volume_series d Hv) as (vs & Hvs & Lv & _).
  exists E, vs, (pct_change (chronological "volume" d)).
  split; [exact HE|]. split; [exact Hvs|].
  split; [feature_col d E Hwt HE|].
  rewrite Hvs. split.
  { intros Hn. apply pct_change_first. rewrite length_map. lia. }
  intros i H1 Hi. rewrite pct_change_rows_fin by lia.
  set (a := nth i vs 0%Q). set (b := nth (i - 1) vs 0%Q).
  split; [|split].
  - intros Hb. rewrite fdiv_fin_pos by exact Hb.
    apply feq_fin_red. rewrite !Qred_correct. reflexivity.
  - intros Hb Ha.
    assert (E1 : fsub (fdiv (Fin a) (Fin b)) (of_Z 1) = Inf false).
    { unfold fdiv. apply Qzero_b_iff in Hb. rewrite Hb.
      rewrite (Qzero_b_pos a Ha).
      rewrite Qneg_b_nonneg by (now apply Qlt_le_weak). reflexivity. }
    split; [exact E1|].
    cbn [col_notna].
    assert (Li : i < length (pct_change (map Fin vs))).
    { unfold pct_change, ffill. rewrite ffill_from_fin.
      rewrite map2_length, shift_length, length_map. lia. }
    rewrite (nth_error_nth' _ NaN Li), pct_change_rows_fin by lia.
    fold a b. now rewrite E1.
  - intros Hb Ha. unfold fdiv.
    apply Qzero_b_iff in Hb. apply Qzero_b_iff in Ha. now rewrite Hb, Ha.
Qed.


Lemma volume_change_after_zero_volume_witness :
  valid_input zero_volume_frame = true
  /\ exists E vc,
       engineer zero_volume_frame = Ok E
       /\ df_get "volume_change" E = Ok (ColFloat vc)
       /\ nth 2 vc NaN = Inf false.
Proof.
  assert (Hv : valid_input zero_volume_frame = true) by (vm_compute; reflexivity).
  split; [exact Hv|].
  destruct (volume_change_after_zero_volume zero_volume_frame Hv)
    as (E & vs & vc & HE & Hvs & Hc & _ & H).
  exists E, vc. split; [exact HE|]. split; [exact Hc|].
  assert (Evs : map Fin vs = map Fin [1000; 0; 500]%Q).
  { rewrite <- Hvs. vm_compute. reflexivity. }
  assert (E1 : nth 1 vs 0%Q = 0%Q /\ nth 2 vs 0%Q = 500%Q).
  { destruct vs as [|v0 [|v1 [|v2 [|? ?]]]]; try discriminate Evs.
    inversion Evs. subst. split; reflexivity. }
  destruct E1 as [Z1 Z2].
  destruct (H 2 ltac:(lia) ltac:(vm_compute; lia)) as (_ & B & _).
  apply B.
  - change (2 - 1) with 1. rewrite Z1. reflexivity.
  - rewrite Z2. reflexivity.
Defined.

(** ** What the features depend on *)

Lemma chronological_same d1 d2 n :
  well_typed d1 = true -> well_typed d2 = true ->
  In n numeric_labels ->
  df_get "Date" d1 = df_get "Date" d2 -> df_get n d1 = df_get n d2 ->
  chronological n d1 = chronological n d2.
Proof.
  intros W1 W2 Hn Hd Hc.
  destruct (wt_dates d1 W1) as (l & Hg1 & Hp).
  assert (Hg2 : df_get "Date" d2 = Ok (ColStr l)) by congruence.
  destruct (wt_float d1 W1 n Hn) as (f & Hf1).
  assert (Hf2 : df_get n d2 = Ok (ColFloat f)) by congruence.
  destruct (chronological_take d1 l n f (wt_wf d1 W1) Hg1 Hp
              (numeric_not_date n Hn) Hf1) as (ds1 & M1 & ->).
  destruct (chronological_take d2 l n f (wt_wf d2 W2) Hg2 Hp
              (numeric_not_date n Hn) Hf2) as (ds2 & M2 & ->).
  congruence.
Qed.

Lemma chronological_dates_same d1 d2 :
  well_typed d1 = true -> well_typed d2 = true ->
  df_get "Date" d1 = df_get "Date" d2 ->
  chronological_dates d1 = chronological_dates d2.
Proof.
  intros W1 W2 Hd.
  destruct (wt_parsed_dates d1 W1) as [_ ->].
  destruct (wt_parsed_dates d2 W2) as [_ ->].
  unfold parsed_dates. now rewrite Hd.
Qed.

(** X14: the feature columns are functions of the seven input columns Date,
    open, high, low, close, volume and BuySignal alone: two well typed
    tables that agree on these columns get the same feature columns,
    whatever other columns they hold, also columns that bear the name of a
    feature. *)
Theorem features_depend_on_the_input_columns_only d1 d2 :
  well_typed d1 = true -> well_typed d2 = true ->
  (forall n, In n base_labels -> df_get n d1 = df_get n d2) ->
  exists E1 E2,
    engineer d1 = Ok E1 /\ engineer d2 = Ok E2
    /\ forall f, In f (map fst feature_program) -> df_get f E1 = df_get f E2.
Proof.
  intros W1 W2 Hsame.
  destruct (engineer_ok d1 W1) as (E1 & HE1 & _).
  destruct (engineer_ok d2 W2) as (E2 & HE2 & _).
  exists E1, E2. split; [exact HE1|]. split; [exact HE2|].
  intros f Hf. apply existsb_eqb_In in Hf.
  rewrite (engineer_get d1 E1 f W1 HE1 Hf), (engineer_get d2 E2 f W2 HE2 Hf).
  unfold closed_col, closed_frame.
  assert (Hd : df_get "Date" d1 = df_get "Date" d2)
    by (apply Hsame; simpl; auto).
  rewrite (chronological_dates_same d1 d2 W1 W2 Hd).
  rewrite !(chronological_same d1 d2 _ W1 W2) by
    (try exact Hd; try (apply Hsame; simpl; auto 10); simpl; auto 10).
  reflexivity.
Qed.

Lemma features_depend_on_the_input_columns_only_witness :
  exists E1 E2,
    engineer scenario_frame = Ok E1
    /\ engineer (df_set "rsi" (ColFloat (repeat NaN 20)) scenario_frame) = Ok E2
    /\ df_get "rsi" E1 = df_get "rsi" E2.
Proof.
  assert (W1 : well_typed scenario_frame = true) by (vm_compute; reflexivity).
  assert (W2 : well_typed (df_set "rsi" (ColFloat (repeat NaN 20)) scenario_frame)
               = true) by (vm_compute; reflexivity).
  destruct (features_depend_on_the_input_columns_only _ _ W1 W2)
    as (E1 & E2 & H1 & H2 & H).
  { intros n Hn. symmetry. apply df_get_set_neq.
    simpl in Hn. intros ->.
    repeat (destruct Hn as [Hn|Hn]; [discriminate|]). destruct Hn. }
  exists E1, E2. split; [exact H1|]. split; [exact H2|].
  apply H. apply existsb_eqb_In. vm_compute. reflexivity.
Defined.

(** ** Bounds of the exponential mean *)

Lemma Qmult_le_nonneg_l f a b : (0 <= f)%Q -> (a <= b)%Q -> (f * a <= f * b)%Q.
Proof.
  intros Hf Hab. rewrite (Qmult_comm f a), (Qmult_comm f b).
  now apply Qmult_le_compat_r.
Qed.

(** A weighted mean with non-negative weights lies between any two bounds
    of the values. *)
Lemma weighted_mean_bounds f xs lo hi i :
  (0 <= f)%Q ->
  (forall j, j <= i -> (lo <= nth j xs 0)%Q /\ (nth j xs 0 <= hi)%Q) ->
  (0 < weight_total f i)%Q
  /\ (lo * weight_total f i <= weighted_sum f xs i)%Q
  /\ (weighted_sum f xs i <= hi * weight_total f i)%Q.
Proof.
  intros Hf. induction i as [|i IH]; intros H.
  - rewrite weight_total_0, weighted_sum_0.
    destruct (H 0 (le_n 0)) as [A B]. split; [reflexivity|]. split; lra.
  - destruct IH as (W & L & U); [intros j Hj; apply H; lia|].
    destruct (H (S i) (le_n _)) as [A B].
    rewrite weight_total_succ, weighted_sum_succ.
    pose proof (Qmult_le_nonneg_l f _ _ Hf L) as L'.
    pose proof (Qmult_le_nonneg_l f _ _ Hf U) as U'.
    pose proof (Qmult_le_nonneg_l f 0 _ Hf (Qlt_le_weak _ _ W)) as W'.
    split; [lra|]. split.
    + setoid_replace (lo * (f * weight_total f i + 1))%Q
        with (f * (lo * weight_total f i) + lo)%Q by ring. lra.
    + setoid_replace (hi * (f * weight_total f i + 1))%Q
        with (f * (hi * weight_total f i) + hi)%Q by ring. lra.
Qed.

Lemma ema_bounds span qs i lo hi :
  (0 < 1 - ewm_alpha span)%Q -> (0 <= 1 - span_alpha span)%Q ->
  i < length qs ->
  (forall j, j <= i -> (lo <= nth j qs 0)%Q /\ (nth j qs 0 <= hi)%Q) ->
  exists y, nth i (ewm_mean span (map Fin qs)) NaN = Fin y
            /\ (lo <= y)%Q /\ (y <= hi)%Q.
Proof.
  intros Hs Hf Hi H.
  destruct (ewm_mean_adjusted span qs i Hs Hi) as (y & Hy & Ey).
  exists y. split; [exact Hy|]. rewrite Ey. unfold ema_adjusted.
  destruct (weighted_mean_bounds (1 - span_alpha span) qs lo hi i Hf H)
    as (W & L & U).
  split.
  - apply Qle_shift_div_l; auto.
  - apply Qle_shift_div_r; auto.
Qed.

(** X15: the exponential means of a valid table stay within the closes seen
    so far: when the closes of rows 0 to i lie between lo and hi, so do
    ema_12 and ema_26 at row i (in exact arithmetic); in particular they are
    defined and positive at every row. *)
Theorem ema_stays_within_the_closes_so_far d :
  valid_input d = true ->
  exists E cs,
    engineer d = Ok E
    /\ chronological "close" d = map Fin cs
    /\ forall w, In w ema_windows ->
       exists e,
         df_get (fname "ema_" w) E = Ok (ColFloat e)
         /\ forall i lo hi, i < nrows d ->
              (forall j, j <= i -> (lo <= nth j cs 0)%Q /\ (nth j cs 0 <= hi)%Q) ->
              exists y, nth i e NaN = Fin y /\ (lo <= y)%Q /\ (y <= hi)%Q.
Proof.
  intros Hv. pose proof (valid_well_typed d Hv) as Hwt.
  destruct (engineer_ok d Hwt) as (E & HE & _).
  destruct (valid_close_fin d Hv) as (cs & Hc & Lc).
  exists E, cs. split; [exact HE|]. split; [exact Hc|].
  intros w Hw. exists (ewm_mean w (chronological "close" d)). split.
  { simpl in Hw. destruct Hw as [<-|[<-|[]]]; feature_col d E Hwt HE. }
  rewrite Hc. intros i lo hi Hi H.
  simpl in Hw. destruct Hw as [<-|[<-|[]]];
    (apply ema_bounds; [reflexivity | discriminate | lia | exact H]).
Qed.

Lemma ema_stays_within_the_closes_so_far_witness :
  valid_input scenario_frame = true
  /\ exists E e y,
       engineer scenario_frame = Ok E
       /\ df_get "ema_12" E = Ok (ColFloat e)
       /\ nth 19 e NaN = Fin y /\ (9 <= y)%Q /\ (y <= 23)%Q.
Proof.
  assert (Hv : valid_input scenario_frame = true) by (vm_compute; reflexivity).
  split; [exact Hv|].
  destruct (ema_stays_within_the_closes_so_far scenario_frame Hv)
    as (E & cs & HE & Hc & H).
  destruct (H 12 ltac:(simpl; auto)) as (e & He & B).
  assert (Ecs : map Fin cs = scenario_closes).
  { rewrite <- Hc. vm_compute. reflexivity. }
  assert (Ccs : cs = [10; 11; 12; 11; 10; 9; 10; 11; 12; 13;
                      14; 15; 16; 17; 18; 19; 20; 21; 22; 23]%Q).
  { apply map_Fin_inj. rewrite Ecs. reflexivity. }
  destruct (B 19 9%Q 23%Q ltac:(vm_compute; lia)) as (y & Hy & L & U).
  { intros j Hj. rewrite Ccs.
    do 20 (destruct j as [|j]; [split; discriminate|]). lia. }
  exists E, e, y. auto.
Defined.

Example contains_examples :
  contains "sma_" "close_vs_sma_5" = true /\ contains "ema_" "macd" = false
  /\ contains "lag_" "price_change_lag_3" = true /\ contains "" "" = true.
Proof. repeat split. Qed.

Lemma filter_filter {A} (f g : A -> bool) l :
  filter f (filter g l) = filter g (filter f l).
Proof.
  induction l as [|x t IH]; simpl; auto.
  destruct (f x) eqn:Ef, (g x) eqn:Eg; simpl; rewrite ?Ef, ?Eg, IH; auto.
Qed.

(** The labels of the output that satisfy a test which no label of the
    input satisfies are the feature names that satisfy it. *)
Lemma output_labels_filter (test : string -> bool) d out :
  create_enhanced_stock_data d = Ok out ->
  (forall n, In n (labels d) -> test n = false) ->
  filter test (labels out) = filter test (map fst feature_program).
Proof.
  intros Hc Hclean. rewrite (output_labels d out Hc), filter_app.
  rewrite (filter_all_false test (labels d)) by exact Hclean.
  unfold new_labels. rewrite filter_filter. cbn [app].
  apply filter_all_true. intros n Hn. apply filter_In in Hn.
  destruct Hn as [_ Hn]. apply negb_true_iff. unfold has_label.
  destruct (existsb (String.eqb n) (labels d)) eqn:E; auto.
  apply existsb_eqb_In in E. rewrite (Hclean n E) in Hn. discriminate.
Qed.

Lemma output_has_features d out f :
  create_enhanced_stock_data d = Ok out ->
  existsb (String.eqb f) (map fst feature_program) = true ->
  existsb (String.eqb f) (labels out) = true.
Proof.
  intros Hc Hf. rewrite (output_labels d out Hc), existsb_app.
  destruct (existsb (String.eqb f) (labels d)) eqn:E; auto. cbn [orb].
  apply existsb_eqb_In. unfold new_labels. apply filter_In. split.
  - now apply existsb_eqb_In.
  - unfold has_label. now rewrite E.
Qed.

Lemma print_category_present cols category features :
  (forall f, In f (firstn 3 features) -> existsb (String.eqb f) cols = true) ->
  print_category cols (category, features)
  = (newline ++ category ++ ": " ++ str (length features) ++ " features")%string
    :: map (fun f => ("  - " ++ f)%string) (firstn 3 features)
    ++ (if 3 <? length features
        then [("  ... and " ++ str (length features - 3) ++ " more")%string]
        else []).
Proof.
  intros H. unfold print_category. cbn [fst snd]. do 2 f_equal.
  induction (firstn 3 features) as [|f t IH]; simpl; auto.
  rewrite (H f) by (simpl; auto). simpl. f_equal. apply IH.
  intros g Hg. apply H. simpl. auto.
Qed.

(** X16: the summary of lines 116 to 137 for an input none of whose labels
    contains sma_, ema_ or lag_.  After the two lines with the size of the
    table and the file name, the function prints the seven categories with
    3, 3, 18, 4, 3, 12 and 3 features; under each category it lists the
    first three features, all of which are columns of the output, and, for
    the three categories with more than three, the number of the others.
    The category Ratios names three of the four ratio columns. *)
Theorem summary_of_the_output d out output_file :
  create_enhanced_stock_data d = Ok out ->
  (forall n, In n (labels d) ->
     contains "sma_" n = false /\ contains "ema_" n = false
     /\ contains "lag_" n = false) ->
  map (fun item => (fst item, length (snd item)))
      (feature_categories (labels out))
  = [("Price Features", 3); ("Ratios", 3); ("Moving Averages", 18);
     ("Technical Indicators", 4); ("Volatility", 3); ("Lag Features", 12);
     ("Trend Features", 3)]%string
  /\ printed_lines out output_file
     = ([ "Enhanced dataset created with " ++ str (nrows out) ++ " rows and "
            ++ str (length (columns out)) ++ " columns";
          "File saved as: " ++ output_file;
          newline ++ "New Features Created:";
          newline ++ "Price Features: 3 features";
          "  - price_range"; "  - price_change"; "  - price_change_pct";
          newline ++ "Ratios: 3 features";
          "  - close_to_open_ratio"; "  - high_to_low_ratio";
          "  - close_to_high_ratio";
          newline ++ "Moving Averages: 18 features";
          "  - sma_5"; "  - volume_sma_5"; "  - close_vs_sma_5";
          "  ... and 15 more";
          newline ++ "Technical Indicators: 4 features";
          "  - macd"; "  - macd_signal"; "  - rsi";
          "  ... and 1 more";
          newline ++ "Volatility: 3 features";
          "  - volatility_5"; "  - volatility_20"; "  - price_range_pct";
          newline ++ "Lag Features: 12 features";
          "  - close_lag_1"; "  - volume_lag_1"; "  - price_change_lag_1";
          "  ... and 9 more";
          newline ++ "Trend Features: 3 features";
          "  - trend_5"; "  - trend_20"; "  - golden_cross" ])%string.
Proof.
  intros Hc Hclean.
  assert (F1 : filter (fun col => contains "sma_" col || contains "ema_" col)
                      (labels out)
               = filter (fun col => contains "sma_" col || contains "ema_" col)
                        (map fst feature_program)).
  { apply (output_labels_filter _ d out Hc). intros n Hn.
    destruct (Hclean n Hn) as (A & B & _). now rewrite A, B. }
  assert (F2 : filter (fun col => contains "lag_" col) (labels out)
               = filter (fun col => contains "lag_" col)
                        (map fst feature_program)).
  { apply (output_labels_filter _ d out Hc). intros n Hn.
    apply (Hclean n Hn). }
  assert (C : feature_categories (labels out)
              = feature_categories (map fst feature_program)).
  { unfold feature_categories. now rewrite F1, F2. }
  rewrite C. split; [vm_compute; reflexivity|].
  unfold printed_lines. rewrite C.
  set (cols := labels out).
  assert (G : forall f, existsb (String.eqb f) (map fst feature_program) = true ->
                        existsb (String.eqb f) cols = true)
    by (intros f; apply (output_has_features d out f Hc)).
  let c := eval vm_compute in (feature_categories (map fst feature_program)) in
  change (feature_categories (map fst feature_program)) with c.
  cbn [flat_map].
  rewrite !print_category_present;
    try (intros f Hf; apply G; cbn [firstn In] in Hf;
         repeat (destruct Hf as [<-|Hf]; [vm_compute; reflexivity|]);
         destruct Hf).
  reflexivity.
Qed.

Lemma summary_of_the_output_witness :
  exists out,
    create_enhanced_stock_data scenario_frame = Ok out
    /\ nth 11 (printed_lines out "enhanced_stock_data.csv") ""%string
       = (newline ++ "Moving Averages: 18 features")%string.
Proof.
  assert (Hwt : well_typed scenario_frame = true) by (vm_compute; reflexivity).
  destruct (engineer_ok scenario_frame Hwt) as (E & HE & _).
  assert (Hc : create_enhanced_stock_data scenario_frame = Ok (dropna E)).
  { unfold create_enhanced_stock_data. rewrite HE. reflexivity. }
  exists (dropna E). split; [exact Hc|].
  destruct (summary_of_the_output scenario_frame (dropna E)
              "enhanced_stock_data.csv" Hc) as [_ P].
  { intros n Hn. cbn in Hn.
    repeat (destruct Hn as [<-|Hn]; [repeat split|]). destruct Hn. }
  rewrite P. reflexivity.
Defined.

(** ** Price features and ratios *)

Lemma ratio_rows xs ys i :
  i < length xs -> i < length ys -> Forall (fun q => (0 < q)%Q) ys ->
  exists r, nth i (map2 fdiv (map Fin xs) (map Fin ys)) NaN = Fin r
            /\ (r == nth i xs 0 / nth i ys 0)%Q.
Proof.
  intros Hx Hy P.
  rewrite (map2_nth fdiv _ _ i NaN NaN) by (rewrite length_map; lia).
  rewrite (nth_map_in Fin xs i 0%Q), (nth_map_in Fin ys i 0%Q) by lia.
  rewrite fdiv_fin_pos by (now apply Forall_nth_Q).
  eexists. split; [reflexivity|]. apply Qred_correct.
Qed.

Lemma difference_rows xs ys i :
  i < length xs -> i < length ys ->
  exists r, nth i (map2 fsub (map Fin xs) (map Fin ys)) NaN = Fin r
            /\ (r == nth i xs 0 - nth i ys 0)%Q.
Proof.
  intros Hx Hy.
  rewrite (map2_nth fsub _ _ i NaN NaN) by (rewrite length_map; lia).
  rewrite (nth_map_in Fin xs i 0%Q), (nth_map_in Fin ys i 0%Q) by lia.
  eexists. split; [reflexivity|]. rewrite !Qred_correct. reflexivity.
Qed.

(** X17: the price features of lines 19 to 27 on a valid table.  No cell is
    undefined or infinite: at every row price_range is high - low,
    price_change is close - open, price_change_pct is price_change / open *
    100, and the four ratios are the quotients of two positive prices, hence
    positive; price_change_pct has the sign of price_change. *)
Theorem price_features_are_finite d :
  valid_input d = true ->
  exists E os hs ls cs range change pct co hl ch cl,
    engineer d = Ok E
    /\ chronological "open" d = map Fin os
    /\ chronological "high" d = map Fin hs
    /\ chronological "low" d = map Fin ls
    /\ chronological "close" d = map Fin cs
    /\ df_get "price_range" E = Ok (ColFloat range)
    /\ df_get "price_change" E = Ok (ColFloat change)
    /\ df_get "price_change_pct" E = Ok (ColFloat pct)
    /\ df_get "close_to_open_ratio" E = Ok (ColFloat co)
    /\ df_get "high_to_low_ratio" E = Ok (ColFloat hl)
    /\ df_get "close_to_high_ratio" E = Ok (ColFloat ch)
    /\ df_get "close_to_low_ratio" E = Ok (ColFloat cl)
    /\ forall i, i < nrows d ->
         let o := nth i os 0%Q in let h := nth i hs 0%Q in
         let l := nth i ls 0%Q in let c := nth i cs 0%Q in
         nth i range NaN =f= Fin (h - l)
         /\ nth i change NaN =f= Fin (c - o)
         /\ nth i pct NaN =f= Fin ((c - o) / o * 100)
         /\ nth i co NaN =f= Fin (c / o) /\ nth i hl NaN =f= Fin (h / l)
         /\ nth i ch NaN =f= Fin (c / h) /\ nth i cl NaN =f= Fin (c / l)
         /\ (0 < c / o)%Q /\ (0 < h / l)%Q /\ (0 < c / h)%Q /\ (0 < c / l)%Q
         /\ ((0 < (c - o) / o * 100)%Q <-> (o < c)%Q).
Proof.
  intros Hv. pose proof (valid_well_typed d Hv) as Hwt.
  destruct (engineer_ok d Hwt) as (E & HE & _).
  destruct (valid_price_series d "open" Hv ltac:(simpl; auto 10))
    as (os & Ho & Lo & Po).
  destruct (valid_price_series d "high" Hv ltac:(simpl; auto 10))
    as (hs & Hh & Lh & Ph).
  destruct (valid_price_series d "low" Hv ltac:(simpl; auto 10))
    as (ls & Hl & Ll & Pl).
  destruct (valid_price_series d "close" Hv ltac:(simpl; auto 10))
    as (cs & Hc & Lc & Pc).
  set (o := chronological "open" d) in *.
  set (h := chronological "high" d) in *.
  set (l := chronological "low" d) in *.
  set (c := chronological "close" d) in *.
  exists E, os, hs, ls, cs, (map2 fsub h l), (map2 fsub c o),
    (map (fun x => fmul x (of_Z 100)) (map2 fdiv (map2 fsub c o) o)),
    (map2 fdiv c o), (map2 fdiv h l), (map2 fdiv c h), (map2 fdiv c l).
  split; [exact HE|].
  split; [exact Ho|]. split; [exact Hh|]. split; [exact Hl|].
  split; [exact Hc|].
  do 7 (split; [feature_col d E Hwt HE|]).
  rewrite Ho, Hh, Hl, Hc. intros i Hi. cbv zeta.
  destruct (difference_rows hs ls i ltac:(lia) ltac:(lia)) as (r1 & -> & E1).
  destruct (difference_rows cs os i ltac:(lia) ltac:(lia)) as (r2 & E2' & E2).
  destruct (ratio_rows cs os i ltac:(lia) ltac:(lia) Po) as (r4 & -> & E4).
  destruct (ratio_rows hs ls i ltac:(lia) ltac:(lia) Pl) as (r5 & -> & E5).
  destruct (ratio_rows cs hs i ltac:(lia) ltac:(lia) Ph) as (r6 & -> & E6).
  destruct (ratio_rows cs ls i ltac:(lia) ltac:(lia) Pl) as (r7 & -> & E7).
  pose proof (Forall_nth_Q _ os i Po ltac:(lia)) as Oi.
  pose proof (Forall_nth_Q _ hs i Ph ltac:(lia)) as Hgi.
  pose proof (Forall_nth_Q _ ls i Pl ltac:(lia)) as Li.
  pose proof (Forall_nth_Q _ cs i Pc ltac:(lia)) as Ci.
  cbv beta in Oi, Hgi, Li, Ci.
  assert (E3 : nth i (map (fun x => fmul x (of_Z 100))
                        (map2 fdiv (map2 fsub (map Fin cs) (map Fin os))
                                   (map Fin os))) NaN
               =f= Fin ((nth i cs 0 - nth i os 0) / nth i os 0 * 100)%Q).
  { rewrite (nth_map_in _ _ i NaN NaN)
      by (rewrite !map2_length, !length_map; lia).
    rewrite (map2_nth fdiv _ _ i NaN NaN)
      by (rewrite ?map2_length, !length_map; lia).
    rewrite E2', (nth_map_in Fin os i 0%Q) by lia.
    rewrite fdiv_fin_pos by exact Oi.
    apply feq_fin_red. rewrite Qred_correct, E2. reflexivity. }
  rewrite E2'.
  split; [exact E1|]. split; [exact E2|]. split; [exact E3|].
  split; [exact E4|]. split; [exact E5|]. split; [exact E6|].
  split; [exact E7|].
  assert (Pdiv : forall a b, (0 < a)%Q -> (0 < b)%Q -> (0 < a / b)%Q).
  { intros a b Ha Hb. apply Qlt_shift_div_l; auto. now rewrite Qmult_0_l. }
  do 4 (split; [now apply Pdiv|]).
  set (ci := nth i cs 0%Q) in *. set (oi := nth i os 0%Q) in *.
  split.
  - intros H.
    assert (Q : (0 < (ci - oi) / oi)%Q).
    { destruct (Qlt_le_dec 0 ((ci - oi) / oi)) as [?|Le]; auto. exfalso.
      assert ((ci - oi) / oi * 100 <= 0)%Q; [|lra].
      setoid_replace 0%Q with (0 * 100)%Q by ring.
      apply Qmult_le_compat_r; auto. discriminate. }
    assert (R : (0 < (ci - oi) / oi * oi)%Q)
      by (apply Qmult_lt_0_compat; auto).
    assert (S : ((ci - oi) / oi * oi == ci - oi)%Q) by (field; lra).
    lra.
  - intros H. apply Qmult_lt_0_compat; [|reflexivity].
    apply Pdiv; auto. lra.
Qed.

Lemma price_features_are_finite_witness :
  valid_input scenario_frame = true
  /\ exists E change,
       engineer scenario_frame = Ok E
       /\ df_get "price_change" E = Ok (ColFloat change)
       /\ exists q, nth 0 change NaN =f= Fin q.
Proof.
  assert (Hv : valid_input scenario_frame = true) by (vm_compute; reflexivity).
  split; [exact Hv|].
  destruct (price_features_are_finite scenario_frame Hv)
    as (E & os & hs & ls & cs & range & change & pct & co & hl & ch & cl
        & HE & _ & _ & _ & _ & _ & Hch & _ & _ & _ & _ & _ & H).
  exists E, change. split; [exact HE|]. split; [exact Hch|].
  destruct (H 0 ltac:(vm_compute; lia)) as (_ & B & _).
  eexists. exact B.
Defined.
